(** * Import-block generation pipeline of [pkg/generate/generate.go]

    A shallow embedding of the resource-discovery and import-block
    generation code ([Generate], [generateImportBlocks], [filterResources],
    [filterResourceByName]) together with the parts of the Go standard
    library it relies on ([unicode/utf8], [strings], [regexp] for the one
    character-class expression used, [path/filepath.Match], [sort.Slice]),
    followed by the properties established about it.

    Go strings are byte strings: they are modelled by [string], whose
    characters are the 256 byte values.  Runes are natural numbers ([N]). *)

From Stdlib Require Import String Ascii List NArith Bool Arith Lia.
From Stdlib Require Import Permutation Sorted OrderedTypeEx.
Import ListNotations.

Local Open Scope string_scope.
Local Open Scope list_scope.

(* ================================================================== *)
(** * Byte strings *)

Module GoString.

Definition byte (c : ascii) : N := N_of_ascii c.

(** [s[n:]] for [n <= len(s)]. *)
Fixpoint drop (n : nat) (s : string) : string :=
  match n, s with
  | O, _ => s
  | S _, EmptyString => EmptyString
  | S k, String _ t => drop k t
  end.

Definition isEmpty (s : string) : bool :=
  match s with EmptyString => true | _ => false end.

(** [strings.Contains(s, string(c))] for a one-byte needle. *)
Fixpoint ContainsByte (s : string) (c : ascii) : bool :=
  match s with
  | EmptyString => false
  | String d t => if Ascii.eqb d c then true else ContainsByte t c
  end.

(** [strings.Split(s, string(c))[0]]: everything before the first [c],
    the whole string when there is none. *)
Fixpoint SplitFirst (s : string) (c : ascii) : string :=
  match s with
  | EmptyString => EmptyString
  | String d t => if Ascii.eqb d c then EmptyString else String d (SplitFirst t c)
  end.

(** [strings.ReplaceAll(s, string(old), string(new))] for one-byte
    [old] and [new]. *)
Fixpoint ReplaceAllByte (s : string) (old new : ascii) : string :=
  match s with
  | EmptyString => EmptyString
  | String d t =>
      String (if Ascii.eqb d old then new else d) (ReplaceAllByte t old new)
  end.

(** [strings.TrimPrefix(s, string(c))] for a one-byte prefix. *)
Definition TrimPrefixByte (s : string) (c : ascii) : string :=
  match s with
  | String d t => if Ascii.eqb d c then t else s
  | EmptyString => s
  end.

Fixpoint Forall_bytes (P : ascii -> bool) (s : string) : bool :=
  match s with
  | EmptyString => true
  | String c t => P c && Forall_bytes P t
  end.

End GoString.
Import GoString.

(* ================================================================== *)
(** * [unicode/utf8]: decoding the first rune of a string *)

Module utf8.

Definition RuneError : N := 0xFFFD.
Definition RuneSelf : N := 0x80.

Definition locb : N := 0x80.
Definition hicb : N := 0xBF.
Definition maskx : N := 0x3F.
Definition mask2 : N := 0x1F.
Definition mask3 : N := 0x0F.
Definition mask4 : N := 0x07.

(** The information the tables [first] and [acceptRanges] give for a
    leading byte: ASCII, invalid, or the length of the sequence and the
    range accepted for its second byte. *)
Inductive firstInfo : Type :=
| as_ : firstInfo
| xx : firstInfo
| lead (sz : nat) (lo hi : N) : firstInfo.

Definition first (b : N) : firstInfo :=
  if (b <? 0x80)%N then as_
  else if (b <? 0xC2)%N then xx
  else if (b <? 0xE0)%N then lead 2 locb hicb
  else if (b =? 0xE0)%N then lead 3 0xA0 hicb
  else if (b <? 0xED)%N then lead 3 locb hicb
  else if (b =? 0xED)%N then lead 3 locb 0x9F
  else if (b <? 0xF0)%N then lead 3 locb hicb
  else if (b =? 0xF0)%N then lead 4 0x90 hicb
  else if (b <? 0xF4)%N then lead 4 locb hicb
  else if (b =? 0xF4)%N then lead 4 locb 0x8F
  else xx.

Definition outside (lo hi b : N) : bool := (b <? lo)%N || (hi <? b)%N.

(** [utf8.DecodeRuneInString]: the rune and its width in bytes;
    [(RuneError, 0)] on the empty string and [(RuneError, 1)] on an
    invalid encoding. *)
Definition DecodeRuneInString (s : string) : N * nat :=
  match s with
  | EmptyString => (RuneError, 0)
  | String c0 t0 =>
      let s0 := byte c0 in
      match first s0 with
      | as_ => (s0, 1)
      | xx => (RuneError, 1)
      | lead sz lo hi =>
          if (String.length s <? sz)%nat then (RuneError, 1) else
          match t0 with
          | EmptyString => (RuneError, 1)
          | String c1 t1 =>
              let s1 := byte c1 in
              if outside lo hi s1 then (RuneError, 1) else
              if (sz <=? 2)%nat then
                (N.lor (N.shiftl (N.land s0 mask2) 6) (N.land s1 maskx), 2)
              else
              match t1 with
              | EmptyString => (RuneError, 1)
              | String c2 t2 =>
                  let s2 := byte c2 in
                  if outside locb hicb s2 then (RuneError, 1) else
                  if (sz <=? 3)%nat then
                    (N.lor (N.lor (N.shiftl (N.land s0 mask3) 12)
                                  (N.shiftl (N.land s1 maskx) 6))
                           (N.land s2 maskx), 3)
                  else
                  match t2 with
                  | EmptyString => (RuneError, 1)
                  | String c3 _ =>
                      let s3 := byte c3 in
                      if outside locb hicb s3 then (RuneError, 1) else
                      (N.lor (N.lor (N.lor (N.shiftl (N.land s0 mask4) 18)
                                           (N.shiftl (N.land s1 maskx) 12))
                                    (N.shiftl (N.land s2 maskx) 6))
                             (N.land s3 maskx), 4)
                  end
              end
          end
      end
  end.

End utf8.

(* ================================================================== *)
(** * [regexp]: replacing every rune matched by a one-rune expression *)

Module regexp.

(** A compiled expression that matches exactly one rune, given by the
    set of runes it accepts.  This is all the source needs:
    [allowedTerraformChars] is a single negated character class. *)
Record Regexp : Type := MustCompile { matchRune : N -> bool }.

(** [re.ReplaceAllString(src, repl)] for such an expression and a
    replacement without [$]: the runes of [src] are read from left to
    right with [utf8.DecodeRuneInString]; a matched rune is replaced by
    [repl], any other rune is copied.  [pending] counts the bytes that
    remain of the rune being processed and [keep] tells whether they are
    copied. *)
Fixpoint replaceFrom (re : Regexp) (repl : string) (pending : nat) (keep : bool)
         (src : string) : string :=
  match src with
  | EmptyString => EmptyString
  | String c rest =>
      match pending with
      | S k =>
          if keep then String c (replaceFrom re repl k keep rest)
          else replaceFrom re repl k keep rest
      | O =>
          let '(r, n) := utf8.DecodeRuneInString src in
          if matchRune re r
          then repl ++ replaceFrom re repl (n - 1) false rest
          else String c (replaceFrom re repl (n - 1) true rest)
      end
  end.

Definition ReplaceAllString (re : Regexp) (src repl : string) : string :=
  replaceFrom re repl 0 false src.

End regexp.

(** Membership of a rune in the class [a-zA-Z0-9_-]. *)
Definition inAllowedClass (r : N) : bool :=
  ((0x61 <=? r) && (r <=? 0x7A) ||
   (0x41 <=? r) && (r <=? 0x5A) ||
   (0x30 <=? r) && (r <=? 0x39) ||
   (r =? 0x5F) || (r =? 0x2D))%N.

(** [allowedTerraformChars = regexp.MustCompile(`[^a-zA-Z0-9_-]`)]. *)
Definition allowedTerraformChars : regexp.Regexp :=
  regexp.MustCompile (fun r => negb (inAllowedClass r)).

(* ================================================================== *)
(** * Errors *)

(** The error values the code builds.  [fmt.Errorf] calls are kept as one
    constructor per format string, with the formatted arguments; [%w]
    arguments are the wrapped error. *)
Inductive error : Type :=
| ErrBadPattern
    (* filepath.ErrBadPattern = errors.New("syntax error in pattern") *)
| errorString (msg : string)
    (* an error produced by a collaborator: a lister, the file system,
       the terraform subprocess *)
| ErrNotInFormat (included : string)
    (* "included resource %q is not in the format <type>.<name>" *)
| ErrFailedToGenerate (name : string) (err : error)
    (* "failed to generate %s resources: %w" *)
| ErrOutputDirExists (dir : string)
    (* "output dir %q already exists. Use the clobber option to delete it" *)
| ErrFailedToDelete (dir : string) (err : error)
    (* "failed to delete %s: %s" *)
| ErrFailedToCreate (dir : string) (err : error)
    (* "failed to create output directory %s: %s" *)
| ErrTerraformInit (err : error)
    (* "failed to run terraform init: %w" *)
| ErrFailedToGenerateResources (err : error)
    (* "failed to generate resources: %w" *)
| ErrCrossplane
    (* errors.New("crossplane output format is not yet supported") *)
| ErrFatal (err : error).
    (* log.Fatal(err): the process exits *)

Inductive result (A : Type) : Type :=
| Ok (a : A)
| Err (e : error).
Arguments Ok {A} a.
Arguments Err {A} e.

(** The two ways an inclusion filter is malformed: it lacks the [.], or
    [filepath.Match] rejects its syntax. *)
Inductive MalformedPattern : error -> Prop :=
| Malformed_format included : MalformedPattern (ErrNotInFormat included)
| Malformed_syntax : MalformedPattern ErrBadPattern.

(* ================================================================== *)
(** * [path/filepath.Match] (Unix: separator [/], backslash escapes) *)

Module filepath.

Definition Separator : ascii := "/"%char.

Definition isByte (c d : ascii) : bool := Ascii.eqb c d.

(** The leading stars of [scanChunk]. *)
Fixpoint skipStars (pattern : string) : bool * string :=
  match pattern with
  | String c t =>
      if isByte c "*" then (true, snd (skipStars t)) else (false, pattern)
  | EmptyString => (false, pattern)
  end.

(** The [Scan] loop of [scanChunk]: the pattern up to the first star
    outside brackets, and what follows. *)
Fixpoint scan (inrange : bool) (pattern : string) : string * string :=
  match pattern with
  | EmptyString => (EmptyString, EmptyString)
  | String c t =>
      if isByte c "\" then
        match t with
        | EmptyString => (String c EmptyString, EmptyString)
        | String d t' =>
            let '(chunk, rest) := scan inrange t' in
            (String c (String d chunk), rest)
        end
      else if isByte c "[" then
        let '(chunk, rest) := scan true t in (String c chunk, rest)
      else if isByte c "]" then
        let '(chunk, rest) := scan false t in (String c chunk, rest)
      else if isByte c "*" then
        if inrange
        then let '(chunk, rest) := scan inrange t in (String c chunk, rest)
        else (EmptyString, pattern)
      else
        let '(chunk, rest) := scan inrange t in (String c chunk, rest)
  end.

Definition scanChunk (pattern : string) : bool * string * string :=
  let '(star, pattern) := skipStars pattern in
  let '(chunk, rest) := scan false pattern in
  (star, chunk, rest).

(** [getEsc]: a possibly escaped rune of a character class. *)
Definition getEsc (chunk : string) : result (N * string) :=
  match chunk with
  | EmptyString => Err ErrBadPattern
  | String c t =>
      if isByte c "-" || isByte c "]" then Err ErrBadPattern else
      let unescaped :=
        if isByte c "\" then
          match t with
          | EmptyString => Err ErrBadPattern
          | _ => Ok t
          end
        else Ok chunk in
      match unescaped with
      | Err e => Err e
      | Ok chunk =>
          let '(r, n) := utf8.DecodeRuneInString chunk in
          let nchunk := drop n chunk in
          if ((r =? utf8.RuneError)%N && (n =? 1)%nat) || isEmpty nchunk
          then Err ErrBadPattern
          else Ok (r, nchunk)
      end
  end.

Definition inRange (lo hi r : N) : bool := ((lo <=? r) && (r <=? hi))%N.

(** The loop of [matchChunk] that parses the ranges of a character
    class; it returns the chunk after the closing bracket and whether
    [r] is in one of the ranges. *)
Fixpoint parseRanges (fuel : nat) (chunk : string) (r : N) (matched : bool)
         (nrange : nat) : option (result (string * bool)) :=
  match fuel with
  | O => None
  | S fuel =>
      let closing :=
        match chunk with
        | String c t => if isByte c "]" && (0 <? nrange)%nat then Some t else None
        | EmptyString => None
        end in
      match closing with
      | Some t => Some (Ok (t, matched))
      | None =>
          match getEsc chunk with
          | Err e => Some (Err e)
          | Ok (lo, chunk) =>
              match chunk with
              | String c t =>
                  if isByte c "-" then
                    match getEsc t with
                    | Err e => Some (Err e)
                    | Ok (hi, chunk) =>
                        parseRanges fuel chunk r (matched || inRange lo hi r)
                                    (S nrange)
                    end
                  else
                    parseRanges fuel chunk r (matched || inRange lo lo r)
                                (S nrange)
              | EmptyString => Some (Err ErrBadPattern)
              end
          end
      end
  end.

(** One iteration of the main loop of [matchChunk], on a chunk whose first
    byte is [c] and whose other bytes are [t]: the chunk, the string and
    the flag [failed] after it. *)
Definition chunkStep (c : ascii) (t s : string) (failed : bool)
  : option (result (string * string * bool)) :=
  let failed := failed || isEmpty s in
  let literal (c : ascii) (t : string) :=
    if failed then Some (Ok (t, s, failed))
    else
      match s with
      | String d s' => Some (Ok (t, s', negb (isByte c d)))
      | EmptyString => Some (Ok (t, s, true))
      end in
  if isByte c "[" then
    let '(r, s) :=
      if failed then (0%N, s)
      else let '(r, n) := utf8.DecodeRuneInString s in (r, drop n s) in
    let '(negated, t) :=
      match t with
      | String d t' => if isByte d "^" then (true, t') else (false, t)
      | EmptyString => (false, t)
      end in
    match parseRanges (S (String.length t)) t r false 0 with
    | None => None
    | Some (Err e) => Some (Err e)
    | Some (Ok (t, matched)) =>
        Some (Ok (t, s, failed || Bool.eqb matched negated))
    end
  else if isByte c "?" then
    if failed then Some (Ok (t, s, failed))
    else
      match s with
      | String d _ =>
          let '(_, n) := utf8.DecodeRuneInString s in
          Some (Ok (t, drop n s, isByte d Separator))
      | EmptyString => Some (Ok (t, s, true))
      end
  else if isByte c "\" then
    match t with
    | EmptyString => Some (Err ErrBadPattern)
    | String c' t' => literal c' t'
    end
  else literal c t.

(** The main loop of [matchChunk] on the state [(chunk, s, failed)].
    The result is [Ok (Some rest)] for [(rest, true, nil)], [Ok None]
    for [("", false, nil)] and [Err e] for [("", false, e)]. *)
Fixpoint matchChunkLoop (fuel : nat) (chunk s : string) (failed : bool)
  : option (result (option string)) :=
  match chunk with
  | EmptyString => Some (Ok (if failed then None else Some s))
  | String c t =>
      match fuel with
      | O => None
      | S fuel =>
          match chunkStep c t s failed with
          | None => None
          | Some (Err e) => Some (Err e)
          | Some (Ok (chunk, s, failed)) => matchChunkLoop fuel chunk s failed
          end
      end
  end.

Definition matchChunk (chunk s : string) : option (result (option string)) :=
  matchChunkLoop (String.length chunk) chunk s false.

(** What the loop over [i] after a star ends with. *)
Inductive starOutcome : Type :=
| starFound (t : string)
| starNone
| starErr (e : error)
| starFuel.

(** [for i := 0; i < len(name) && name[i] != Separator; i++]: the chunk
    is tried on [name[i+1:]]. *)
Fixpoint starLoop (chunk : string) (lastChunk : bool) (name : string)
  : starOutcome :=
  match name with
  | EmptyString => starNone
  | String c rest =>
      if isByte c Separator then starNone else
      match matchChunk chunk rest with
      | None => starFuel
      | Some (Ok (Some t)) =>
          if lastChunk && negb (isEmpty t)
          then starLoop chunk lastChunk rest
          else starFound t
      | Some (Err e) => starErr e
      | Some (Ok None) => starLoop chunk lastChunk rest
      end
  end.

(** The [Pattern] loop of [Match] on the state [(pattern, name)].  When
    a chunk does not match, also after the skips that a star allows, the
    loop returns [false, nil] at once: what is left of the pattern is not
    read, so a malformed class in a later chunk goes unnoticed. *)
Fixpoint MatchLoop (fuel : nat) (pattern name : string) : option (result bool) :=
  match pattern with
  | EmptyString => Some (Ok (isEmpty name))
  | _ =>
      match fuel with
      | O => None
      | S fuel =>
          let '(star, chunk, pattern) := scanChunk pattern in
          if star && isEmpty chunk
          then Some (Ok (negb (ContainsByte name Separator)))
          else
            let giveUp (_ : unit) :=
              if star then
                match starLoop chunk (isEmpty pattern) name with
                | starFound t => MatchLoop fuel pattern t
                | starErr e => Some (Err e)
                | starFuel => None
                | starNone => Some (Ok false)
                end
              else Some (Ok false) in
            match matchChunk chunk name with
            | None => None
            | Some (Ok (Some t)) =>
                if isEmpty t || negb (isEmpty pattern)
                then MatchLoop fuel pattern t
                else giveUp tt
            | Some (Err e) => Some (Err e)
            | Some (Ok None) => giveUp tt
            end
      end
  end.

(** [filepath.Match(pattern, name)]: every iteration of the loop
    shortens the pattern, so its length bounds the number of
    iterations ([Match_runs] below). *)
Definition Match (pattern name : string) : result bool :=
  match MatchLoop (String.length pattern) pattern name with
  | Some r => r
  | None => Err ErrBadPattern
  end.

End filepath.

(* ================================================================== *)
(** * [sort.Slice] *)

Module sort.

Section Slice.
Context {A : Type}.
Variable less : A -> A -> bool.

(** The inner loop of the insertion sort,
    [for j := i; j > a && less(data[j], data[j-1]); j-- { swap }]:
    the element [x] moves left past the elements it is less than.
    The part already processed is held in reverse. *)
Fixpoint sink (x : A) (before : list A) : list A :=
  match before with
  | y :: before' => if less x y then y :: sink x before' else x :: before
  | [] => [x]
  end.

(** [sort.Slice(data, less)].  The library sorts slices of at most 12
    elements by the insertion sort above and longer ones by a
    pattern-defeating quicksort, which is not stable.  Both return a
    permutation ordered by [less], and there is only one when no two
    keys are equal.  The definition is the insertion sort: it is the
    library's result for at most 12 elements, and for any number of
    elements with distinct keys; what is proved of the order of the
    sorted results is proved for distinct keys. *)
Definition Slice (data : list A) : list A :=
  rev (fold_left (fun before x => sink x before) data []).
End Slice.

End sort.

(* ================================================================== *)
(** * Configuration blocks ([hclwrite], [cty]) *)

Unset Elimination Schemes.

Inductive Value : Type :=
| Traversal (names : list string)               (* an [hcl.Traversal] *)
| StringVal (s : string)                        (* [cty.StringVal] *)
| ObjectVal (fields : list (string * Value)).   (* [cty.ObjectVal] *)

Inductive Block : Type :=
| mkBlock (typeName : string) (labels : list string)
          (attributes : list (string * Value)) (blocks : list Block).

Set Elimination Schemes.

(** [hclwrite.NewBlock(typeName, labels)] *)
Definition NewBlock (typeName : string) (labels : list string) : Block :=
  mkBlock typeName labels [] [].

Fixpoint setAttr (name : string) (v : Value) (attrs : list (string * Value))
  : list (string * Value) :=
  match attrs with
  | [] => [(name, v)]
  | (n, w) :: rest =>
      if String.eqb n name then (n, v) :: rest else (n, w) :: setAttr name v rest
  end.

(** [b.Body().SetAttributeValue(name, v)] and
    [b.Body().SetAttributeTraversal(name, t)]: the attribute is replaced
    when present and appended otherwise. *)
Definition SetAttribute (name : string) (v : Value) (b : Block) : Block :=
  match b with
  | mkBlock ty ls attrs bs => mkBlock ty ls (setAttr name v attrs) bs
  end.

(** [b.Body().AppendBlock(c)] *)
Definition AppendBlock (c : Block) (b : Block) : Block :=
  match b with
  | mkBlock ty ls attrs bs => mkBlock ty ls attrs (bs ++ [c])
  end.

Definition blockType (b : Block) : string :=
  match b with mkBlock ty _ _ _ => ty end.

Fixpoint lookupAttr (name : string) (attrs : list (string * Value)) : option Value :=
  match attrs with
  | [] => None
  | (n, v) :: rest => if String.eqb n name then Some v else lookupAttr name rest
  end.

Definition GetAttribute (name : string) (b : Block) : option Value :=
  match b with mkBlock _ _ attrs _ => lookupAttr name attrs end.

(** Modelled from the spec: the helper [traversal(root, attrs...)] is
    called by [generateImportBlocks] but defined in another file of the
    package.  By the spec the [to] field of an import block is the address
    [<resourceType>.<localName>] and the [provider] field is an alias
    traversal: the helper builds the traversal whose root is [root],
    followed by one attribute step per element of [attrs]. *)
Definition traversal (root : string) (attrs : list string) : Value :=
  Traversal (root :: attrs).

(** The text of a traversal: its steps joined by dots. *)
Definition address (v : Value) : option string :=
  match v with
  | Traversal names => Some (String.concat "." names)
  | _ => None
  end.

(** The two fields every import block has. *)
Definition importTo (b : Block) : option string :=
  match GetAttribute "to" b with
  | Some v => address v
  | None => None
  end.

Definition importID (b : Block) : option string :=
  match GetAttribute "id" b with
  | Some (StringVal s) => Some s
  | _ => None
  end.

(* ================================================================== *)
(** * The filters *)

(** A catalog entry ([common.Resource]): its name and, when it has one,
    its lister.  [Ctx], [Client] and [ListerData] are the types of the
    three arguments every lister receives; the code only passes them on. *)
Record Resource (Ctx Client ListerData : Type) : Type := mkResource {
  Name : string;
  ListIDsFunc : option (Ctx -> Client -> ListerData -> result (list string))
}.
Arguments mkResource {Ctx Client ListerData} Name ListIDsFunc.
Arguments Name {Ctx Client ListerData} r.
Arguments ListIDsFunc {Ctx Client ListerData} r.

Section Filters.
Context {Ctx Client ListerData : Type}.
#[local] Abbreviation Resource := (Resource Ctx Client ListerData).

(** The first loop of [filterResources]: every entry must contain a
    dot; the type parts are collected. *)
Fixpoint allowedTypes (includedResources allowedResourceTypes : list string)
  : result (list string) :=
  match includedResources with
  | [] => Ok allowedResourceTypes
  | included :: rest =>
      if negb (ContainsByte included ".")
      then Err (ErrNotInFormat included)
      else allowedTypes rest (allowedResourceTypes ++ [SplitFirst included "."])
  end.

(** The inner loop of [filterResources] for one resource: [Ok true] at
    the first pattern that matches ([break]), [Ok false] when none
    does. *)
Fixpoint matchesAnyType (allowedResourceTypes : list string) (name : string)
  : result bool :=
  match allowedResourceTypes with
  | [] => Ok false
  | allowedResourceType :: rest =>
      match filepath.Match allowedResourceType name with
      | Err e => Err e
      | Ok true => Ok true
      | Ok false => matchesAnyType rest name
      end
  end.

(** The outer loop of [filterResources]. *)
Fixpoint keepMatching (allowedResourceTypes : list string)
         (resources filteredResources : list Resource) : result (list Resource) :=
  match resources with
  | [] => Ok filteredResources
  | resource :: rest =>
      match matchesAnyType allowedResourceTypes (Name resource) with
      | Err e => Err e
      | Ok true =>
          keepMatching allowedResourceTypes rest (filteredResources ++ [resource])
      | Ok false => keepMatching allowedResourceTypes rest filteredResources
      end
  end.

Definition filterResources (resources : list Resource)
           (includedResources : list string) : result (list Resource) :=
  match includedResources with
  | [] => Ok resources
  | _ =>
      match allowedTypes includedResources [] with
      | Err e => Err e
      | Ok allowedResourceTypes =>
          keepMatching allowedResourceTypes resources []
      end
  end.

(** The loop of [filterResourceByName]. *)
Fixpoint matchesAny (includedResources : list string) (name : string)
  : result bool :=
  match includedResources with
  | [] => Ok false
  | included :: rest =>
      match filepath.Match included name with
      | Err e => Err e
      | Ok true => Ok true
      | Ok false => matchesAny rest name
      end
  end.

Definition filterResourceByName (resourceType resourceName : string)
           (includedResources : list string) : result bool :=
  match includedResources with
  | [] => Ok true
  | _ => matchesAny includedResources (resourceType ++ "." ++ resourceName)
  end.

End Filters.

(* ================================================================== *)
(** * Configuration, collaborators and the record of their calls *)

Inductive OutputFormat : Type :=
| OutputFormatHCL
| OutputFormatJSON
| OutputFormatCrossplane.

Record GrafanaConfig : Type := mkGrafanaConfig {
  Auth : string;
  URL : string
}.

(** Modelled from the spec: the struct [Config] is declared in another
    file of the package.  The fields are those [Generate] reads: the
    output directory path, the clobber flag, the output format, the
    provider version, the inclusion filter list and the two environment
    selections (a single instance, a cloud fleet), either of which may be
    absent. *)
Record Config (CloudConfig : Type) : Type := mkConfig {
  OutputDir : string;
  Clobber : bool;
  Format : OutputFormat;
  ProviderVersion : string;
  Grafana : option GrafanaConfig;
  Cloud : option CloudConfig;
  IncludeResources : list string
}.
Arguments mkConfig {CloudConfig} OutputDir Clobber Format ProviderVersion
  Grafana Cloud IncludeResources.
Arguments OutputDir {CloudConfig} c.
Arguments Clobber {CloudConfig} c.
Arguments Format {CloudConfig} c.
Arguments ProviderVersion {CloudConfig} c.
Arguments Grafana {CloudConfig} c.
Arguments Cloud {CloudConfig} c.
Arguments IncludeResources {CloudConfig} c.

(** Modelled from the spec: the struct of a discovered cloud stack is
    declared in another file; each stack has its own endpoint and
    credentials and a slug used for its label. *)
Record stack : Type := mkStack {
  managementKey : string;
  url : string;
  slug : string;
  smURL : string;
  smToken : string
}.

(** A call to a collaborator: the file system, the helpers of the package
    that are defined in other files, a lister. *)
Inductive call : Type :=
| call_Stat (name : string)
| call_RemoveAll (path : string)
| call_MkdirAll (path : string) (perm : N)
| call_writeBlocks (filepath : string) (blocks : list Block)
| call_runTerraform (dir : string) (command : list string)
| call_sortResourcesFile (filepath : string)
| call_ListIDs (resourceName : string)
| call_generateCloudResources
| call_generateGrafanaResources (auth url stackName : string) (genProvider : bool)
    (outPath smURL smToken : string) (includedResources : list string)
| call_convertToTFJSON (dir : string).

Definition history : Type := list call.

(** What the collaborators answer.  An answer may depend on everything
    done before (a directory that was removed no longer exists), so each
    function receives the calls made so far.  [None] stands for a [nil]
    error. *)
Record World (CloudConfig : Type) : Type := mkWorld {
  os_Stat : history -> string -> option error;
  os_RemoveAll : history -> string -> option error;
  os_MkdirAll : history -> string -> N -> option error;
  writeBlocks : history -> string -> list Block -> option error;
  runTerraform : history -> string -> list string -> option error;
  sortResourcesFile : history -> string -> option error;
  generateCloudResources : history -> Config CloudConfig -> result (list stack);
  generateGrafanaResources :
    history -> string -> string -> string -> bool -> string -> string -> string ->
    list string -> option error;
  convertToTFJSON : history -> string -> option error
}.
Arguments mkWorld {CloudConfig}.
Arguments os_Stat {CloudConfig} w.
Arguments os_RemoveAll {CloudConfig} w.
Arguments os_MkdirAll {CloudConfig} w.
Arguments writeBlocks {CloudConfig} w.
Arguments runTerraform {CloudConfig} w.
Arguments sortResourcesFile {CloudConfig} w.
Arguments generateCloudResources {CloudConfig} w.
Arguments generateGrafanaResources {CloudConfig} w.
Arguments convertToTFJSON {CloudConfig} w.

(** Computations that make calls and may return an error. *)
Definition M (A : Type) : Type := history -> history * result A.

Definition ret {A : Type} (a : A) : M A := fun h => (h, Ok a).

Definition fail {A : Type} (e : error) : M A := fun h => (h, Err e).

Definition bind {A B : Type} (m : M A) (k : A -> M B) : M B :=
  fun h =>
    match m h with
    | (h', Ok a) => k a h'
    | (h', Err e) => (h', Err e)
    end.

Declare Scope go_scope.
Delimit Scope go_scope with go.
Notation "x <- m ;; k" := (bind m (fun x => k))
  (at level 61, m at next level, right associativity) : go_scope.
Notation "m ;; k" := (bind m (fun _ => k))
  (at level 61, right associativity) : go_scope.
Local Open Scope go_scope.

(** A call whose answer is returned to the caller. *)
Definition perform {A : Type} (c : call) (answer : history -> A) : M A :=
  fun h => (h ++ [c], Ok (answer h)).

(** [if err != nil { return wrap(err) }] *)
Definition check (wrap : error -> error) (err : option error) : M unit :=
  match err with
  | Some e => fail (wrap e)
  | None => ret tt
  end.

Definition liftResult {A : Type} (r : result A) : M A :=
  match r with
  | Ok a => ret a
  | Err e => fail e
  end.

Fixpoint forEach {A : Type} (f : A -> M unit) (l : list A) : M unit :=
  match l with
  | [] => ret tt
  | a :: rest => f a ;; forEach f rest
  end.

(* ================================================================== *)
(** * [generateImportBlocks] and [Generate] *)

(** The [result] struct that a task sends on the channel. *)
Record taskResult (Ctx Client ListerData : Type) : Type := mkTaskResult {
  resource : Resource Ctx Client ListerData;
  blocks : list Block;
  err : option error
}.
Arguments mkTaskResult {Ctx Client ListerData} resource blocks err.
Arguments resource {Ctx Client ListerData} t.
Arguments blocks {Ctx Client ListerData} t.
Arguments err {Ctx Client ListerData} t.

Section Pipeline.
Context {Ctx Client ListerData CloudConfig : Type}.
#[local] Abbreviation Resource := (Resource Ctx Client ListerData).
#[local] Abbreviation taskResult := (taskResult Ctx Client ListerData).

(** The collaborators. *)
Variable world : World CloudConfig.

(** [filepath.Join], which the code uses to name the generated files. *)
Variable filepath_Join : list string -> string.

(** What the loop [for r := range results] receives.  The tasks run
    concurrently and each calls [wg.Done()] before it sends its result:
    [wg.Wait()] can return, and the channel be closed, while a task has
    not sent yet, and the result of that task is then not received.
    [arrival] maps the results of the tasks, in starting order, to the
    results received, in the order of the channel: some or all of them,
    in any order ([lossy] and [lossless] below). *)
Variable arrival : list taskResult -> list taskResult.

(** The local name of an identifier: sanitized, then prefixed unless the
    provider is ["cloud"]. *)
Definition cleanID (provider id : string) : string :=
  let cleanedID := regexp.ReplaceAllString allowedTerraformChars id "_" in
  if negb (provider =? "cloud")%string
  then ReplaceAllByte provider "-" "_" ++ "_" ++ cleanedID
  else cleanedID.

(** The block built for one identifier that passed the name filter. *)
Definition importBlock (resourceName cleanedID id provider : string) : Block :=
  let b := NewBlock "import" [] in
  let b := SetAttribute "to" (traversal resourceName [cleanedID]) b in
  let b := SetAttribute "id" (StringVal id) b in
  if negb (provider =? "")%string
  then SetAttribute "provider" (traversal "grafana" [provider]) b
  else b.

(** The loop of a task over the identifiers its lister returned. *)
Fixpoint importBlocks (resourceName provider : string)
         (includedResources : list string) (ids : list string)
         (blocks : list Block) : result (list Block) :=
  match ids with
  | [] => Ok blocks
  | id :: rest =>
      let cleanedID := cleanID provider id in
      match filterResourceByName resourceName cleanedID includedResources with
      | Err e => Err e
      | Ok false =>
          importBlocks resourceName provider includedResources rest blocks
      | Ok true =>
          importBlocks resourceName provider includedResources rest
            (blocks ++ [importBlock resourceName cleanedID id provider])
      end
  end.

(** The body of the task started for one resource.  It always sends one
    result; the only call it makes is to the lister. *)
Definition task (ctx : Ctx) (client : Client) (listerData : ListerData)
           (provider : string) (includedResources : list string)
           (resource : Resource) : M taskResult :=
  match ListIDsFunc resource with
  | None => ret (mkTaskResult resource [] None)
  | Some lister =>
      listed <- perform (call_ListIDs (Name resource))
                        (fun _ => lister ctx client listerData) ;;
      match listed with
      | Err e => ret (mkTaskResult resource [] (Some e))
      | Ok ids =>
          match importBlocks (Name resource) provider includedResources ids [] with
          | Err e => ret (mkTaskResult resource [] (Some e))
          | Ok blocks => ret (mkTaskResult resource blocks None)
          end
      end
  end.

(** [for _, resource := range resources { go func... }] followed by
    [wg.Wait()]: every task is started and runs up to its [wg.Done()],
    which comes after its call to the lister and its loop over the
    identifiers.  The results are what the tasks send next. *)
Fixpoint goAll (body : Resource -> M taskResult) (resources : list Resource)
  : M (list taskResult) :=
  match resources with
  | [] => ret []
  | resource :: rest =>
      r <- body resource ;;
      rs <- goAll body rest ;;
      ret (r :: rs)
  end.

(** [for r := range results]: the first result with an error ends the
    pass. *)
Fixpoint collect (results resultsSlice : list taskResult)
  : result (list taskResult) :=
  match results with
  | [] => Ok resultsSlice
  | r :: rest =>
      match err r with
      | Some e => Err (ErrFailedToGenerate (Name (resource r)) e)
      | None => collect rest (resultsSlice ++ [r])
      end
  end.

Definition lessByName (a b : taskResult) : bool :=
  (Name (resource a) <? Name (resource b))%string.

Definition generateImportBlocks (ctx : Ctx) (client : Client)
           (listerData : ListerData) (resources : list Resource)
           (outPath provider : string) (includedResources : list string)
  : M unit :=
  let generatedFilename (suffix : string) :=
    if (provider =? "")%string
    then filepath_Join [outPath; suffix]
    else filepath_Join [outPath; (provider ++ "-" ++ suffix)%string] in
  resources <- liftResult (filterResources resources includedResources) ;;
  started <- goAll (task ctx client listerData provider includedResources)
                   resources ;;
  let results := arrival started in
  resultsSlice <- liftResult (collect results []) ;;
  let resultsSlice := sort.Slice lessByName resultsSlice in
  let allBlocks :=
    fold_left (fun allBlocks r => allBlocks ++ blocks r) resultsSlice [] in
  err <- perform (call_writeBlocks (generatedFilename "imports.tf") allBlocks)
                 (fun h => writeBlocks world h (generatedFilename "imports.tf")
                                       allBlocks) ;;
  check (fun e => e) err ;;
  let command :=
    ["plan"; ("-generate-config-out=" ++ generatedFilename "resources.tf")%string] in
  err <- perform (call_runTerraform outPath command)
                 (fun h => runTerraform world h outPath command) ;;
  check ErrFailedToGenerateResources err ;;
  err <- perform (call_sortResourcesFile (generatedFilename "resources.tf"))
                 (fun h => sortResourcesFile world h
                                             (generatedFilename "resources.tf")) ;;
  check (fun e => e) err.

(** The pass run for one environment; [generateGrafanaResources] is
    defined in another file and ends by calling [generateImportBlocks]. *)
Definition grafanaPass (auth url stackName : string) (genProvider : bool)
           (outPath smURL smToken : string) (includedResources : list string)
  : M unit :=
  err <- perform (call_generateGrafanaResources auth url stackName genProvider
                    outPath smURL smToken includedResources)
                 (fun h => generateGrafanaResources world h auth url stackName
                             genProvider outPath smURL smToken
                             includedResources) ;;
  check (fun e => e) err.

(** The permission bits [0755]. *)
Definition perm0755 : N := 0x1ED.

Definition Generate (ctx : Ctx) (cfg : Config CloudConfig) : M unit :=
  statErr <- perform (call_Stat (OutputDir cfg))
                     (fun h => os_Stat world h (OutputDir cfg)) ;;
  match statErr with
  | None =>
      if Clobber cfg then
        err <- perform (call_RemoveAll (OutputDir cfg))
                       (fun h => os_RemoveAll world h (OutputDir cfg)) ;;
        check (ErrFailedToDelete (OutputDir cfg)) err
      else fail (ErrOutputDirExists (OutputDir cfg))
  | Some _ => ret tt
  end ;;
  err <- perform (call_MkdirAll (OutputDir cfg) perm0755)
                 (fun h => os_MkdirAll world h (OutputDir cfg) perm0755) ;;
  check (ErrFailedToCreate (OutputDir cfg)) err ;;
  let providerBlock := NewBlock "terraform" [] in
  let requiredProvidersBlock := NewBlock "required_providers" [] in
  let requiredProvidersBlock :=
    SetAttribute "grafana"
      (ObjectVal [("source", StringVal "grafana/grafana");
                  ("version", StringVal (TrimPrefixByte (ProviderVersion cfg) "v"))])
      requiredProvidersBlock in
  let providerBlock := AppendBlock requiredProvidersBlock providerBlock in
  let providerFile := filepath_Join [OutputDir cfg; "provider.tf"] in
  err <- perform (call_writeBlocks providerFile [providerBlock])
                 (fun h => writeBlocks world h providerFile [providerBlock]) ;;
  check ErrFatal err ;;
  err <- perform (call_runTerraform (OutputDir cfg) ["init"])
                 (fun h => runTerraform world h (OutputDir cfg) ["init"]) ;;
  check ErrTerraformInit err ;;
  match Cloud cfg with
  | Some _ =>
      stacks <- bind (perform call_generateCloudResources
                              (fun h => generateCloudResources world h cfg))
                     liftResult ;;
      forEach (fun stack =>
                 grafanaPass (managementKey stack) (url stack)
                             ("stack-" ++ slug stack) false (OutputDir cfg)
                             (smURL stack) (smToken stack)
                             (IncludeResources cfg))
              stacks
  | None => ret tt
  end ;;
  match Grafana cfg with
  | Some grafana =>
      grafanaPass (Auth grafana) (URL grafana) "" true (OutputDir cfg) "" ""
                  (IncludeResources cfg)
  | None => ret tt
  end ;;
  match Format cfg with
  | OutputFormatJSON =>
      err <- perform (call_convertToTFJSON (OutputDir cfg))
                     (fun h => convertToTFJSON world h (OutputDir cfg)) ;;
      check (fun e => e) err
  | OutputFormatCrossplane => fail ErrCrossplane
  | OutputFormatHCL => ret tt
  end.

End Pipeline.

(* ================================================================== *)
(** * Vocabulary of the properties *)

(** The bytes of the class [a-zA-Z0-9_-]. *)
Definition allowedByte (c : ascii) : bool := inAllowedClass (byte c).

Definition sanitize (id : string) : string :=
  regexp.ReplaceAllString allowedTerraformChars id "_".

(** What the sanitization does to a single byte of an ASCII string. *)
Definition sanitizeByte (c : ascii) : ascii :=
  if allowedByte c then c else "_"%char.

Fixpoint mapBytes (f : ascii -> ascii) (s : string) : string :=
  match s with
  | EmptyString => EmptyString
  | String c t => String (f c) (mapBytes f t)
  end.

Definition isASCII (c : ascii) : bool := (byte c <? utf8.RuneSelf)%N.

(** The 256 bytes, for properties checked on every byte. *)
Definition allBytes : list ascii := map ascii_of_nat (seq 0 256).

(** The part of a decoded rune that its first two bytes give. *)
Definition leadingBits (c0 c1 : ascii) : bool :=
  match utf8.first (byte c0) with
  | utf8.lead sz lo hi =>
      if utf8.outside lo hi (byte c1) then true
      else if (sz <=? 2)%nat then
        (128 <=? N.lor (N.shiftl (N.land (byte c0) utf8.mask2) 6)
                       (N.land (byte c1) utf8.maskx))%N
      else if (sz <=? 3)%nat then
        (128 <=? N.lor (N.shiftl (N.land (byte c0) utf8.mask3) 12)
                       (N.shiftl (N.land (byte c1) utf8.maskx) 6))%N
      else
        (128 <=? N.lor (N.shiftl (N.land (byte c0) utf8.mask4) 18)
                       (N.shiftl (N.land (byte c1) utf8.maskx) 12))%N
  | _ => true
  end.

(** A byte that stands for itself in a pattern, outside brackets. *)
Definition literalByte (c : ascii) : bool :=
  negb (filepath.isByte c "*" || filepath.isByte c "?" || filepath.isByte c "[" || filepath.isByte c "\").

Fixpoint literal (s : string) : bool :=
  match s with
  | EmptyString => true
  | String c t => literalByte c && literal t
  end.

Section SortVocabulary.
Context {A : Type}.
Variable key : A -> string.

(** The comparison the code passes to [sort.Slice]. *)
Definition lessByKey (a b : A) : bool := (key a <? key b)%string.

(** [a] may stand before [b] in a slice sorted by [lessByKey]. *)
Definition notAfter (a b : A) : Prop := lessByKey b a = false.

End SortVocabulary.

Definition hasDot (s : string) : bool := ContainsByte s ".".

Definition typePart (included : string) : string := SplitFirst included ".".

Section FilterVocabulary.
Context {Ctx Client ListerData : Type}.
#[local] Abbreviation Resource := (Resource Ctx Client ListerData).

(** The verdict of the inner loop of [filterResources] on a resource. *)
Definition selects (allowed : list string) (r : Resource) : bool :=
  match matchesAnyType allowed (Name r) with
  | Ok true => true
  | _ => false
  end.

Definition rejects (allowed : list string) (r : Resource) : bool :=
  match matchesAnyType allowed (Name r) with
  | Err _ => true
  | _ => false
  end.

(** The resources [filterResources] keeps, as a test on resources. *)
Definition selectedBy (includedResources : list string) (r : Resource) : bool :=
  match includedResources with
  | [] => true
  | _ =>
      match allowedTypes includedResources [] with
      | Ok allowed => selects allowed r
      | Err _ => false
      end
  end.

(** A resource that can be enumerated. *)
Definition hasLister (r : Resource) : bool :=
  match ListIDsFunc r with
  | Some _ => true
  | None => false
  end.

(** The type part of an entry matches the name of a resource. *)
Definition matchesType (r : Resource) (included : string) : bool :=
  match filepath.Match (typePart included) (Name r) with
  | Ok true => true
  | _ => false
  end.

End FilterVocabulary.

Section PassVocabulary.
Context {Ctx Client ListerData CloudConfig : Type}.
#[local] Abbreviation Resource := (Resource Ctx Client ListerData).
#[local] Abbreviation taskResult := (taskResult Ctx Client ListerData).

Variable world : World CloudConfig.
Variable filepath_Join : list string -> string.
Variables (ctx : Ctx) (client : Client) (listerData : ListerData).
Variables (outPath provider : string) (includedResources : list string).

(** The name filter as a test on identifiers. *)
Definition kept (resourceName : string) (id : string) : bool :=
  match filterResourceByName resourceName (cleanID provider id) includedResources with
  | Ok true => true
  | _ => false
  end.

(** The block of an identifier. *)
Definition blockOf (resourceName : string) (id : string) : Block :=
  importBlock resourceName (cleanID provider id) id provider.

(** What a task sends, as a function of what its lister answers. *)
Definition outcome (r : Resource) : taskResult :=
  match ListIDsFunc r with
  | None => mkTaskResult r [] None
  | Some lister =>
      match lister ctx client listerData with
      | Err e => mkTaskResult r [] (Some e)
      | Ok ids =>
          match importBlocks (Name r) provider includedResources ids [] with
          | Err e => mkTaskResult r [] (Some e)
          | Ok blocks => mkTaskResult r blocks None
          end
      end
  end.

(** The lister calls of a pass, in starting order. *)
Definition listerCalls (resources : list Resource) : history :=
  flat_map (fun r => match ListIDsFunc r with
                     | Some _ => [call_ListIDs (Name r)]
                     | None => []
                     end) resources.

(** The steps of [generateImportBlocks] that follow the collection of
    the blocks. *)
Definition materialize (allBlocks : list Block) : M unit :=
  let generatedFilename (suffix : string) :=
    if (provider =? "")%string
    then filepath_Join [outPath; suffix]
    else filepath_Join [outPath; (provider ++ "-" ++ suffix)%string] in
  (err <- perform (call_writeBlocks (generatedFilename "imports.tf") allBlocks)
                  (fun h => writeBlocks world h (generatedFilename "imports.tf")
                                        allBlocks) ;;
   check (fun e => e) err ;;
   let command :=
     ["plan"; ("-generate-config-out=" ++ generatedFilename "resources.tf")%string] in
   err <- perform (call_runTerraform outPath command)
                  (fun h => runTerraform world h outPath command) ;;
   check ErrFailedToGenerateResources err ;;
   err <- perform (call_sortResourcesFile (generatedFilename "resources.tf"))
                  (fun h => sortResourcesFile world h
                                              (generatedFilename "resources.tf")) ;;
   check (fun e => e) err)%go.

Definition importsFile : string :=
  if (provider =? "")%string
  then filepath_Join [outPath; "imports.tf"]
  else filepath_Join [outPath; (provider ++ "-" ++ "imports.tf")%string].

Definition succeeded (r : taskResult) : Prop := err r = None.

(** The file the external tool is asked to generate, and the command it
    is run with. *)
Definition resourcesFile : string :=
  if (provider =? "")%string
  then filepath_Join [outPath; "resources.tf"]
  else filepath_Join [outPath; (provider ++ "-" ++ "resources.tf")%string].

Definition planCommand : list string :=
  ["plan"; ("-generate-config-out=" ++ resourcesFile)%string].

(** The errors a pass over [resources] can return, each with the place
    it comes from. *)
Inductive PassError (resources : list Resource) : error -> Prop :=
| filterRefused (e : error) :
    filterResources resources includedResources = Err e ->
    PassError resources e
| listerFailed (r : Resource)
               (lister : Ctx -> Client -> ListerData -> result (list string))
               (e : error) :
    In r resources -> ListIDsFunc r = Some lister ->
    lister ctx client listerData = Err e ->
    PassError resources (ErrFailedToGenerate (Name r) e)
| nameFilterRefused (r : Resource)
                    (lister : Ctx -> Client -> ListerData -> result (list string))
                    (ids : list string) (id : string) :
    In r resources -> ListIDsFunc r = Some lister ->
    lister ctx client listerData = Ok ids -> In id ids ->
    filterResourceByName (Name r) (cleanID provider id) includedResources =
    Err ErrBadPattern ->
    PassError resources (ErrFailedToGenerate (Name r) ErrBadPattern)
| importsNotWritten (h : history) (allBlocks : list Block) (e : error) :
    writeBlocks world h importsFile allBlocks = Some e ->
    PassError resources e
| toolFailed (h : history) (e : error) :
    runTerraform world h outPath planCommand = Some e ->
    PassError resources (ErrFailedToGenerateResources e)
| resourcesNotSorted (h : history) (e : error) :
    sortResourcesFile world h resourcesFile = Some e ->
    PassError resources e.

End PassVocabulary.

(** The blocks written to files, in the order of the calls. *)
Definition writtenBlocks (h : history) : list (string * list Block) :=
  flat_map (fun c => match c with
                     | call_writeBlocks file blocks => [(file, blocks)]
                     | _ => []
                     end) h.

(** The runs of the external tool. *)
Definition toolRuns (h : history) : list (string * list string) :=
  flat_map (fun c => match c with
                     | call_runTerraform dir command => [(dir, command)]
                     | _ => []
                     end) h.

(** Computations that only add calls to the record. *)
Definition appends {A : Type} (m : M A) : Prop :=
  forall h, exists rest, fst (m h) = h ++ rest.

Section FailureVocabulary.
Context {Ctx Client ListerData : Type}.
#[local] Abbreviation taskResult := (taskResult Ctx Client ListerData).

(** The first failure of a list of results: the name of the resource and
    the error. *)
Fixpoint firstFailure (results : list taskResult) : option (string * error) :=
  match results with
  | [] => None
  | r :: rest =>
      match err r with
      | Some e => Some (Name (resource r), e)
      | None => firstFailure rest
      end
  end.

(** What the channel can hand over: some of the results that the tasks
    send, each at most once, in any order.  The results in [lost] are
    those of the tasks that had not sent when the channel was closed. *)
Definition lossy (arrival : list taskResult -> list taskResult) : Prop :=
  forall started, exists lost, Permutation started (arrival started ++ lost).

(** Every task has sent its result by the time the channel is closed:
    every result is received. *)
Definition lossless (arrival : list taskResult -> list taskResult) : Prop :=
  forall started, Permutation started (arrival started).

End FailureVocabulary.

(** ** Fixtures: a small catalog and collaborators that always succeed *)

Module Fixture.

Definition R : Type := Resource unit unit unit.

Definition listing (ids : list string) : unit -> unit -> unit -> result (list string) :=
  fun _ _ _ => Ok ids.

Definition failing (msg : string) : unit -> unit -> unit -> result (list string) :=
  fun _ _ _ => Err (errorString msg).

(** The catalog of the scenario: two types with one identifier each. *)
Definition catalog : list R :=
  [mkResource "dashboard" (Some (listing ["abc"]));
   mkResource "folder" (Some (listing ["xyz"]))].

(** Both listers fail. *)
Definition brokenCatalog : list R :=
  [mkResource "dashboard" (Some (failing "dashboard down"));
   mkResource "folder" (Some (failing "folder down"))].

(** One lister fails, the other one answers. *)
Definition halfBrokenCatalog : list R :=
  [mkResource "dashboard" (Some (failing "dashboard down"));
   mkResource "folder" (Some (listing ["xyz"]))].

Definition emptyCatalog : list R :=
  [mkResource "dashboard" (Some (listing []))].

(** A catalog whose order is not the order of the names, with a lister
    whose identifiers are not in alphabetical order. *)
Definition orderCatalog : list R :=
  [mkResource "folder" (Some (listing ["xyz"]));
   mkResource "dashboard" (Some (listing ["b"; "a"; "c"]))].

(** One resource, with the identifier of the sanitization scenario. *)
Definition weirdCatalog : list R :=
  [mkResource "dashboard" (Some (listing ["my/weird id"]))].

(** A catalog with a resource that has no lister and an identifier that
    has to be sanitized. *)
Definition mixedCatalog : list R :=
  [mkResource "annotation" None;
   mkResource "dashboard" (Some (listing ["abc"; "d/e"]));
   mkResource "folder" (Some (listing ["xyz"]))].

(** Path elements joined by the separator, as [filepath.Join] does for
    clean relative elements. *)
Definition joinPath (elem : list string) : string := String.concat "/" elem.

(** Whether [name] exists after the calls [h], when it did ([before]) or
    did not exist before them. *)
Fixpoint existsAfter (before : bool) (name : string) (h : history) : bool :=
  match h with
  | [] => before
  | call_RemoveAll path :: rest =>
      existsAfter (if (path =? name)%string then false else before) name rest
  | call_MkdirAll path _ :: rest =>
      existsAfter (if (path =? name)%string then true else before) name rest
  | _ :: rest => existsAfter before name rest
  end.

(** Collaborators that always succeed, on a disk where ["out"] exists or
    not. *)
Definition diskWorld (outExists : bool) : World unit :=
  mkWorld
    (fun h name =>
       if existsAfter (outExists && (name =? "out")%string) name h
       then None else Some (errorString "no such file or directory"))
    (fun _ _ => None)
    (fun _ _ _ => None)
    (fun _ _ _ => None)
    (fun _ _ _ => None)
    (fun _ _ => None)
    (fun _ _ => Ok [])
    (fun _ _ _ _ _ _ _ _ _ => None)
    (fun _ _ => None).

Definition quietWorld : World unit := diskWorld false.

(** Two channel orders: the starting order and its reverse. *)
Definition inOrder (results : list (taskResult unit unit unit))
  : list (taskResult unit unit unit) := results.

Definition reversed (results : list (taskResult unit unit unit))
  : list (taskResult unit unit unit) := rev results.

(** The task started first sends too late: its result is not received. *)
Definition firstLost (results : list (taskResult unit unit unit))
  : list (taskResult unit unit unit) := tl results.

Definition config (clobber : bool) : Config unit :=
  mkConfig "out" clobber OutputFormatHCL "v3.0.0"
           (Some (mkGrafanaConfig "token" "http://localhost:3000")) None [].

(** A disk on which ["out"] exists and no directory can be created. *)
Definition fullDiskWorld : World unit :=
  mkWorld
    (os_Stat (diskWorld true))
    (fun _ _ => None)
    (fun _ _ _ => Some (errorString "no space left on device"))
    (fun _ _ _ => None)
    (fun _ _ _ => None)
    (fun _ _ => None)
    (fun _ _ => Ok [])
    (fun _ _ _ _ _ _ _ _ _ => None)
    (fun _ _ => None).

(** A cloud fleet of three stacks; the pass of the second one fails. *)
Definition stackOne : stack :=
  mkStack "key-one" "https://one.grafana.net" "one" "https://sm.one" "sm-one".

Definition stackTwo : stack :=
  mkStack "key-two" "https://two.grafana.net" "two" "https://sm.two" "sm-two".

Definition stackThree : stack :=
  mkStack "key-three" "https://three.grafana.net" "three" "https://sm.three" "sm-three".

Definition cloudWorld : World unit :=
  mkWorld
    (os_Stat (diskWorld true))
    (fun _ _ => None)
    (fun _ _ _ => None)
    (fun _ _ _ => None)
    (fun _ _ _ => None)
    (fun _ _ => None)
    (fun _ _ => Ok [stackOne; stackTwo; stackThree])
    (fun _ _ _ stackName _ _ _ _ _ =>
       if (stackName =? "stack-two")%string
       then Some (errorString "stack two is unreachable") else None)
    (fun _ _ => None).

Definition cloudConfig : Config unit :=
  mkConfig "out" true OutputFormatJSON "v3.0.0"
           (Some (mkGrafanaConfig "token" "http://localhost:3000")) (Some tt) [].

End Fixture.

(** ** The calls of [Generate], in the order of the code *)

Section PlanVocabulary.
Context {CloudConfig : Type}.
Variable filepath_Join : list string -> string.
Variable cfg : Config CloudConfig.

(** The block written to [provider.tf]. *)
Definition providerBlockOf : Block :=
  AppendBlock
    (SetAttribute "grafana"
       (ObjectVal [("source", StringVal "grafana/grafana");
                   ("version", StringVal (TrimPrefixByte (ProviderVersion cfg) "v"))])
       (NewBlock "required_providers" []))
    (NewBlock "terraform" []).

(** The pass of a cloud stack and the pass of the single instance. *)
Definition stackPassCall (s : stack) : call :=
  call_generateGrafanaResources (managementKey s) (url s) ("stack-" ++ slug s)
    false (OutputDir cfg) (smURL s) (smToken s) (IncludeResources cfg).

Definition directPassCall (g : GrafanaConfig) : call :=
  call_generateGrafanaResources (Auth g) (URL g) EmptyString true (OutputDir cfg)
    EmptyString EmptyString (IncludeResources cfg).

(** The calls of [Generate] up to the download of the provider. *)
Definition setupCalls (removed : bool) : list call :=
  [call_Stat (OutputDir cfg)] ++
  (if removed then [call_RemoveAll (OutputDir cfg)] else []) ++
  [call_MkdirAll (OutputDir cfg) perm0755;
   call_writeBlocks (filepath_Join [OutputDir cfg; "provider.tf"]) [providerBlockOf];
   call_runTerraform (OutputDir cfg) ["init"]].

(** Everything a run of [Generate] that goes to its end calls: [removed]
    tells whether the directory is deleted first, [stacks] are the stacks
    of the cloud configuration. *)
Definition plan (removed : bool) (stacks : list stack) : list call :=
  [call_Stat (OutputDir cfg)] ++
  (if removed then [call_RemoveAll (OutputDir cfg)] else []) ++
  [call_MkdirAll (OutputDir cfg) perm0755;
   call_writeBlocks (filepath_Join [OutputDir cfg; "provider.tf"]) [providerBlockOf];
   call_runTerraform (OutputDir cfg) ["init"]] ++
  match Cloud cfg with
  | Some _ => call_generateCloudResources :: map stackPassCall stacks
  | None => []
  end ++
  match Grafana cfg with
  | Some g => [directPassCall g]
  | None => []
  end ++
  match Format cfg with
  | OutputFormatJSON => [call_convertToTFJSON (OutputDir cfg)]
  | _ => []
  end.

End PlanVocabulary.

(** The errors [Generate] can return, each with the place it comes
    from. *)
Inductive GenerateError {CloudConfig : Type} (world : World CloudConfig)
          (filepath_Join : list string -> string) (cfg : Config CloudConfig)
  : error -> Prop :=
| directoryInTheWay (h : history) :
    os_Stat world h (OutputDir cfg) = None -> Clobber cfg = false ->
    GenerateError world filepath_Join cfg (ErrOutputDirExists (OutputDir cfg))
| directoryNotDeleted (h : history) (e : error) :
    os_RemoveAll world h (OutputDir cfg) = Some e ->
    GenerateError world filepath_Join cfg (ErrFailedToDelete (OutputDir cfg) e)
| directoryNotCreated (h : history) (e : error) :
    os_MkdirAll world h (OutputDir cfg) perm0755 = Some e ->
    GenerateError world filepath_Join cfg (ErrFailedToCreate (OutputDir cfg) e)
| providerNotWritten (h : history) (e : error) :
    writeBlocks world h (filepath_Join [OutputDir cfg; "provider.tf"])
                [providerBlockOf cfg] = Some e ->
    GenerateError world filepath_Join cfg (ErrFatal e)
| initFailed (h : history) (e : error) :
    runTerraform world h (OutputDir cfg) ["init"] = Some e ->
    GenerateError world filepath_Join cfg (ErrTerraformInit e)
| discoveryFailed (h : history) (e : error) :
    Cloud cfg <> None ->
    generateCloudResources world h cfg = Err e ->
    GenerateError world filepath_Join cfg e
| passFailed (h : history) (auth url stackName : string) (genProvider : bool)
             (smURL smToken : string) (e : error) :
    generateGrafanaResources world h auth url stackName genProvider
      (OutputDir cfg) smURL smToken (IncludeResources cfg) = Some e ->
    GenerateError world filepath_Join cfg e
| conversionFailed (h : history) (e : error) :
    Format cfg = OutputFormatJSON ->
    convertToTFJSON world h (OutputDir cfg) = Some e ->
    GenerateError world filepath_Join cfg e
| formatRefused :
    Format cfg = OutputFormatCrossplane ->
    GenerateError world filepath_Join cfg ErrCrossplane.

(** The errors [m] can return when it is started after the calls [h]. *)
Definition failsOnly {A : Type} (m : M A) (h : history) (P : error -> Prop) : Prop :=
  forall h' e, m h = (h', Err e) -> P e.


(** The names of the resources whose lister was called. *)
Definition listerNames (h : history) : list string :=
  flat_map (fun c => match c with
                     | call_ListIDs name => [name]
                     | _ => []
                     end) h.

(** The calls that belong to the passes and to the conversion. *)
Definition passRuns (h : history) : list call :=
  filter (fun c => match c with
                   | call_generateCloudResources
                   | call_generateGrafanaResources _ _ _ _ _ _ _ _
                   | call_convertToTFJSON _ => true
                   | _ => false
                   end) h.

(* ================================================================== *)
(** * The matcher and the sanitization on examples *)

Example sanitize_scenario :
  regexp.ReplaceAllString allowedTerraformChars "my/weird id" "_" = "my_weird_id".
Proof. reflexivity. Qed.

Example Match_ex1 : filepath.Match "folder.*" "folder._xyz" = Ok true.
Proof. reflexivity. Qed.

Example Match_ex2 : filepath.Match "dash*.a?c" "dashboard.abc" = Ok true.
Proof. reflexivity. Qed.

Example Match_ex3 : filepath.Match "dash*.a?c" "dashboard.abcd" = Ok false.
Proof. reflexivity. Qed.

Example Match_ex4 : filepath.Match "dashboard.[" "dashboard._abc" = Err ErrBadPattern.
Proof. reflexivity. Qed.

(** A malformed class after a chunk that does not match is not read. *)
Example Match_ex5 :
  filepath.Match "a*[" "b" = Ok false /\ filepath.Match "a*[" "ab" = Err ErrBadPattern.
Proof. split; reflexivity. Qed.

Example Match_ex6 : filepath.Match "*/x" "a/b/x" = Ok false.
Proof. reflexivity. Qed.

Example Match_ex7 : filepath.Match "[a-c]*[^x-z]" "b123w" = Ok true.
Proof. reflexivity. Qed.

Example Match_ex8 : filepath.Match "*b*" "aXbYbZ" = Ok true.
Proof. reflexivity. Qed.

Example Match_ex9 : filepath.Match "a\*b" "a*b" = Ok true.
Proof. reflexivity. Qed.

(** Entries of the test table of [path/filepath]. *)
Example Match_table :
  filepath.Match "a*b*c*d*e*/f" "axbxcxdxexxx/f" = Ok true /\
  filepath.Match "a*b*c*d*e*/f" "axbxcxdxe/xxx/f" = Ok false /\
  filepath.Match "a*b?c*x" "abxbbxdbxebxczzx" = Ok true /\
  filepath.Match "a*b?c*x" "abxbbxdbxebxczzy" = Ok false /\
  filepath.Match "ab[^b-d]" "abc" = Ok false /\
  filepath.Match "ab[^e-g]" "abc" = Ok true /\
  filepath.Match "a?b" "a☺b" = Ok true /\
  filepath.Match "a???b" "a☺b" = Ok false /\
  filepath.Match "[a-ζ]*" "α" = Ok true /\
  filepath.Match "*[a-ζ]" "A" = Ok false /\
  filepath.Match "a?b" "a/b" = Ok false /\
  filepath.Match "[\]a]" "]" = Ok true /\
  filepath.Match "[x\-]" "z" = Ok false /\
  filepath.Match "[]a]" "]" = Err ErrBadPattern /\
  filepath.Match "[x-]" "x" = Err ErrBadPattern /\
  filepath.Match "\" "a" = Err ErrBadPattern /\
  filepath.Match "[a-b-c]" "a" = Err ErrBadPattern /\
  filepath.Match "[^bc" "a" = Err ErrBadPattern /\
  filepath.Match "a[" "x" = Err ErrBadPattern /\
  filepath.Match "a/b[" "x" = Err ErrBadPattern /\
  filepath.Match "*x" "xxx" = Ok true.
Proof. vm_compute. repeat split. Qed.

(** A rune of several bytes becomes one underscore. *)
Example sanitize_runes :
  regexp.ReplaceAllString allowedTerraformChars "é/€ x-1_Z" "_" = "____x-1_Z".
Proof. reflexivity. Qed.

(* ================================================================== *)
(** * Properties of the sanitization *)

Section Sanitize.

Lemma lor_ge_128 (a b : N) : (128 <= a -> 128 <= N.lor a b)%N.
Proof.
  intros Ha.
  assert (H7 : (7 <= N.log2 (N.lor a b))%N).
  { rewrite N.log2_lor.
    apply N.le_trans with (N.log2 a); [| apply N.le_max_l].
    change 7%N with (N.log2 128). now apply N.log2_le_mono. }
  assert (Hpos : (0 < N.lor a b)%N).
  { destruct (N.lor a b); [cbn in H7; lia | lia]. }
  change 128%N with (2 ^ 7)%N.
  now apply N.log2_le_pow2.
Qed.

Lemma allowed_below_128 (r : N) : inAllowedClass r = true -> (r < 128)%N.
Proof.
  unfold inAllowedClass. intros H.
  repeat (apply orb_true_iff in H; destruct H as [H | H]);
    try (apply andb_true_iff in H; destruct H as [_ H]);
    try apply N.leb_le in H; try apply N.eqb_eq in H; lia.
Qed.

Lemma In_allBytes (c : ascii) : In c allBytes.
Proof.
  unfold allBytes. rewrite <- (ascii_nat_embedding c).
  apply in_map, in_seq. pose proof (nat_ascii_bounded c). lia.
Qed.

Lemma forall_bytes2 (P : ascii -> ascii -> bool) :
  forallb (fun c0 => forallb (P c0) allBytes) allBytes = true ->
  forall c0 c1, P c0 c1 = true.
Proof.
  intros H c0 c1. rewrite forallb_forall in H.
  specialize (H c0 (In_allBytes c0)). rewrite forallb_forall in H.
  exact (H c1 (In_allBytes c1)).
Qed.

Lemma leadingBits_ok (c0 c1 : ascii) : leadingBits c0 c1 = true.
Proof. revert c0 c1. apply forall_bytes2. vm_compute. reflexivity. Qed.

Lemma first_ascii (c : ascii) :
  utf8.first (byte c) = utf8.as_ <-> isASCII c = true.
Proof.
  unfold isASCII, utf8.first. change utf8.RuneSelf with 0x80%N.
  destruct (byte c <? 0x80)%N; [tauto|].
  split; [|discriminate].
  repeat match goal with
         | |- context [if ?b then _ else _] => destruct b
         end; discriminate.
Qed.

(** A decoded rune is the first byte itself when that byte is ASCII, and
    is outside ASCII otherwise. *)
Lemma decode_cases (c : ascii) (t : string) :
  (isASCII c = true /\ utf8.DecodeRuneInString (String c t) = (byte c, 1)) \/
  (isASCII c = false /\ (128 <= fst (utf8.DecodeRuneInString (String c t)))%N).
Proof.
  destruct (isASCII c) eqn:Hc.
  - left. split; [reflexivity|].
    apply first_ascii in Hc. cbn [utf8.DecodeRuneInString]. now rewrite Hc.
  - right. split; [reflexivity|].
    assert (Hna : utf8.first (byte c) <> utf8.as_).
    { intros H. apply first_ascii in H. congruence. }
    cbn [utf8.DecodeRuneInString].
    destruct (utf8.first (byte c)) as [| |sz lo hi] eqn:Hf;
      [congruence | cbv; discriminate |].
    destruct (String.length (String c t) <? sz)%nat; [cbv; discriminate|].
    destruct t as [|c1 t1]; [cbv; discriminate|].
    pose proof (leadingBits_ok c c1) as Hl. unfold leadingBits in Hl.
    rewrite Hf in Hl.
    destruct (utf8.outside lo hi (byte c1)); [cbv; discriminate|].
    destruct (sz <=? 2)%nat; [cbn [fst]; now apply N.leb_le|].
    destruct t1 as [|c2 t2]; [cbv; discriminate|].
    destruct (utf8.outside utf8.locb utf8.hicb (byte c2)); [cbv; discriminate|].
    destruct (sz <=? 3)%nat;
      [cbn [fst]; apply lor_ge_128; now apply N.leb_le|].
    destruct t2 as [|c3 t3]; [cbv; discriminate|].
    destruct (utf8.outside utf8.locb utf8.hicb (byte c3)); [cbv; discriminate|].
    cbn [fst]. do 2 apply lor_ge_128. now apply N.leb_le.
Qed.

Lemma decode_width_pos (c : ascii) (t : string) :
  0 < snd (utf8.DecodeRuneInString (String c t)).
Proof.
  cbn [utf8.DecodeRuneInString].
  repeat match goal with
         | |- context [match ?x with _ => _ end] => destruct x
         end; cbn; lia.
Qed.

(** A rune of the allowed class is a single ASCII byte. *)
Lemma decode_allowed (c : ascii) (t : string) (r : N) (n : nat) :
  utf8.DecodeRuneInString (String c t) = (r, n) ->
  inAllowedClass r = true ->
  r = byte c /\ n = 1 /\ allowedByte c = true.
Proof.
  intros Hd Ha.
  destruct (decode_cases c t) as [[_ H] | [_ H]]; rewrite Hd in H.
  - inversion H; subst. now repeat split.
  - apply allowed_below_128 in Ha. cbn in H. lia.
Qed.

(** A byte outside the allowed class starts a rune outside it. *)
Lemma decode_not_allowed (c : ascii) (t : string) :
  allowedByte c = false ->
  inAllowedClass (fst (utf8.DecodeRuneInString (String c t))) = false.
Proof.
  intros Hc.
  destruct (inAllowedClass _) eqn:Ha; [|reflexivity].
  destruct (utf8.DecodeRuneInString (String c t)) as [r n] eqn:Hd.
  destruct (decode_allowed _ _ _ _ Hd Ha) as (_ & _ & H). congruence.
Qed.

Lemma replaceFrom_keep_irrelevant (re : regexp.Regexp) (repl : string)
      (keep : bool) (s : string) :
  regexp.replaceFrom re repl 0 keep s = regexp.replaceFrom re repl 0 false s.
Proof. destruct s; reflexivity. Qed.

Lemma replaceFrom_skip (re : regexp.Regexp) (repl : string) (n : nat) (s : string) :
  regexp.replaceFrom re repl n false s = regexp.replaceFrom re repl 0 false (drop n s).
Proof.
  revert s. induction n as [|n IH]; intros s; [reflexivity|].
  destruct s as [|c t]; [reflexivity|]. cbn [regexp.replaceFrom drop]. apply IH.
Qed.

Lemma allowed_is_ascii (c : ascii) : allowedByte c = true -> isASCII c = true.
Proof.
  intros H. apply allowed_below_128 in H. unfold isASCII.
  now apply N.ltb_lt.
Qed.

(** The sanitization, one rune at a time: an allowed byte is kept; any
    other byte starts a rune that is replaced, whole, by one underscore. *)
Lemma sanitize_step (c : ascii) (t : string) :
  sanitize (String c t) =
  if allowedByte c then String c (sanitize t)
  else String "_" (sanitize (drop (snd (utf8.DecodeRuneInString (String c t)) - 1) t)).
Proof.
  unfold sanitize, regexp.ReplaceAllString.
  cbn [regexp.replaceFrom].
  destruct (utf8.DecodeRuneInString (String c t)) as [r n] eqn:Hd.
  cbn [allowedTerraformChars regexp.matchRune snd].
  destruct (allowedByte c) eqn:Hc.
  - destruct (decode_cases c t) as [[_ H] | [H _]];
      [| apply allowed_is_ascii in Hc; congruence].
    rewrite Hd in H. inversion H; subst.
    fold (allowedByte c). rewrite Hc. cbn [negb Nat.sub].
    now rewrite replaceFrom_keep_irrelevant.
  - pose proof (decode_not_allowed c t Hc) as H. rewrite Hd in H. cbn in H.
    rewrite H. cbn [negb append]. now rewrite replaceFrom_skip.
Qed.

Lemma sanitize_empty : sanitize EmptyString = EmptyString.
Proof. reflexivity. Qed.

(** On an ASCII identifier the runes are the bytes: exactly the bytes
    outside the class become underscores. *)
Lemma sanitize_ascii (id : string) :
  Forall_bytes isASCII id = true -> sanitize id = mapBytes sanitizeByte id.
Proof.
  induction id as [|c t IH]; intros H; [reflexivity|].
  cbn [Forall_bytes] in H. apply andb_true_iff in H. destruct H as [Hc Ht].
  rewrite sanitize_step. cbn [mapBytes]. unfold sanitizeByte.
  destruct (allowedByte c); [now rewrite IH|].
  destruct (decode_cases c t) as [[_ H] | [H _]]; [|congruence].
  rewrite H. cbn [snd Nat.sub drop]. now rewrite IH.
Qed.

Lemma replaceFrom_allowed (n : nat) (s : string) :
  Forall_bytes allowedByte
    (regexp.replaceFrom allowedTerraformChars "_" n false s) = true.
Proof.
  revert n. induction s as [|c t IH]; intros n; [reflexivity|].
  cbn [regexp.replaceFrom]. destruct n as [|n]; [|apply IH].
  destruct (utf8.DecodeRuneInString (String c t)) as [r k] eqn:Hd.
  cbn [allowedTerraformChars regexp.matchRune].
  destruct (inAllowedClass r) eqn:Hr; cbn [negb].
  - destruct (decode_allowed _ _ _ _ Hd Hr) as (_ & -> & Hc).
    cbn [Nat.sub Forall_bytes]. rewrite Hc, replaceFrom_keep_irrelevant.
    apply IH.
  - cbn [append Forall_bytes]. apply IH.
Qed.

(** The local-name invariant: a sanitized identifier has only bytes of
    the class [A-Za-z0-9_-]. *)
Lemma sanitize_allowed (id : string) :
  Forall_bytes allowedByte (sanitize id) = true.
Proof. apply replaceFrom_allowed. Qed.

(** An identifier made of allowed bytes is left as it is. *)
Lemma sanitize_fixed (id : string) :
  Forall_bytes allowedByte id = true -> sanitize id = id.
Proof.
  induction id as [|c t IH]; intros H; [reflexivity|].
  cbn [Forall_bytes] in H. apply andb_true_iff in H. destruct H as [Hc Ht].
  rewrite sanitize_step, Hc. now rewrite IH.
Qed.

End Sanitize.

(* ================================================================== *)
(** * Properties of [filepath.Match] *)

Module MatchFacts.
Import filepath.

Lemma drop_length (n : nat) (s : string) :
  String.length (drop n s) = String.length s - n.
Proof.
  revert s. induction n as [|n IH]; intros s; cbn; [lia|].
  destruct s as [|c t]; cbn; [reflexivity | apply IH].
Qed.

Lemma isEmpty_length (s : string) : isEmpty s = true <-> String.length s = 0.
Proof. destruct s; cbn; split; congruence. Qed.

(** [getEsc] only fails with [ErrBadPattern], and consumes something. *)
Lemma getEsc_inv (chunk : string) :
  getEsc chunk = Err ErrBadPattern \/
  exists r nchunk, getEsc chunk = Ok (r, nchunk) /\
                   0 < String.length nchunk < String.length chunk.
Proof.
  unfold getEsc. destruct chunk as [|c t]; [now left|].
  destruct (isByte c "-" || isByte c "]"); [now left|].
  assert (Hgen : forall chunk' : string,
             0 < String.length chunk' <= S (String.length t) ->
             (let '(r, n) := utf8.DecodeRuneInString chunk' in
              let nchunk := drop n chunk' in
              if ((r =? utf8.RuneError)%N && (n =? 1)%nat) || isEmpty nchunk
              then Err ErrBadPattern else Ok (r, nchunk)) = Err ErrBadPattern \/
             exists r nchunk,
               (let '(r, n) := utf8.DecodeRuneInString chunk' in
                let nchunk := drop n chunk' in
                if ((r =? utf8.RuneError)%N && (n =? 1)%nat) || isEmpty nchunk
                then Err ErrBadPattern else Ok (r, nchunk)) = Ok (r, nchunk) /\
               0 < String.length nchunk < S (String.length t)).
  { intros chunk' Hlen. destruct chunk' as [|d u]; [cbn in Hlen; lia|].
    pose proof (decode_width_pos d u) as Hw.
    destruct (utf8.DecodeRuneInString (String d u)) as [r n]. cbn [snd] in Hw.
    cbv zeta.
    destruct (((r =? utf8.RuneError)%N && (n =? 1)%nat) || isEmpty (drop n (String d u)))
      eqn:Hb; [now left|].
    right. exists r, (drop n (String d u)). split; [reflexivity|].
    apply orb_false_iff in Hb. destruct Hb as [_ Hb].
    assert (H0 : String.length (drop n (String d u)) <> 0).
    { intros H0. apply isEmpty_length in H0. congruence. }
    rewrite drop_length in *. cbn [String.length] in *. lia. }
  destruct (isByte c "\").
  - destruct t as [|d u]; [now left|].
    apply Hgen. cbn [String.length]. lia.
  - apply Hgen. cbn [String.length]. lia.
Qed.

Lemma parseRanges_inv (fuel : nat) (chunk : string) (r : N) (matched : bool)
      (nrange : nat) :
  String.length chunk < fuel ->
  parseRanges fuel chunk r matched nrange = Some (Err ErrBadPattern) \/
  exists t m, parseRanges fuel chunk r matched nrange = Some (Ok (t, m)) /\
              String.length t < String.length chunk.
Proof.
  revert chunk matched nrange.
  induction fuel as [|fuel IH]; intros chunk matched nrange Hlen; [lia|].
  cbn [parseRanges].
  destruct chunk as [|c t] eqn:Hchunk.
  - now left.
  - destruct (isByte c "]" && (0 <? nrange)%nat).
    + right. exists t, matched. split; [reflexivity | cbn; lia].
    + rewrite <- Hchunk in *.
      destruct (getEsc_inv chunk) as [-> | (lo & chunk1 & -> & Hl1)]; [now left|].
      destruct chunk1 as [|c1 t1]; [now left|].
      destruct (isByte c1 "-").
      * destruct (getEsc_inv t1) as [-> | (hi & chunk2 & -> & Hl2)]; [now left|].
        destruct (IH chunk2 (matched || inRange lo hi r) (S nrange))
          as [-> | (t' & m & -> & Hl3)];
          [cbn [String.length] in *; lia | now left |].
        right. exists t', m. split; [reflexivity|].
        cbn [String.length] in *. lia.
      * destruct (IH (String c1 t1) (matched || inRange lo lo r) (S nrange))
          as [-> | (t' & m & -> & Hl3)]; [lia | now left |].
        right. exists t', m. split; [reflexivity | lia].
Qed.

(** One iteration shortens the chunk, only fails with [ErrBadPattern] and
    never clears the flag [failed]. *)
Lemma chunkStep_inv (c : ascii) (t s : string) (failed : bool) :
  chunkStep c t s failed = Some (Err ErrBadPattern) \/
  exists t' s' failed',
    chunkStep c t s failed = Some (Ok (t', s', failed')) /\
    String.length t' <= String.length t /\
    (failed = true -> failed' = true).
Proof.
  unfold chunkStep.
  assert (Hlit : forall (c0 : ascii) (t0 : string),
             String.length t0 <= String.length t ->
             exists t' s' failed',
               (if failed || isEmpty s then Some (Ok (t0, s, failed || isEmpty s))
                else match s with
                     | String d s' => Some (Ok (t0, s', negb (isByte c0 d)))
                     | EmptyString => Some (Ok (t0, s, true))
                     end) = Some (Ok (t', s', failed')) /\
               String.length t' <= String.length t /\
               (failed = true -> failed' = true)).
  { intros c0 t0 Hl. destruct failed; cbn [orb].
    - eexists _, _, _. split; [reflexivity | auto].
    - destruct s; cbn [isEmpty]; eexists _, _, _;
        (split; [reflexivity | split; [assumption | discriminate]]). }
  destruct (isByte c "[").
  { destruct (if failed || isEmpty s
              then (0%N, s)
              else let '(r, n) := utf8.DecodeRuneInString s in (r, drop n s))
      as [r s1].
    destruct (match t with
              | String d t' => if isByte d "^" then (true, t') else (false, t)
              | EmptyString => (false, t)
              end) as [negated t1] eqn:Hneg.
    assert (Ht1 : String.length t1 <= String.length t).
    { destruct t as [|d t']; [inversion Hneg; subst; cbn; lia|].
      destruct (isByte d "^"); inversion Hneg; subst; cbn; lia. }
    destruct (parseRanges_inv (S (String.length t1)) t1 r false 0)
      as [-> | (t2 & m & -> & Hl2)]; [lia | now left |].
    right. eexists _, _, _. split; [reflexivity|]. split; [lia|].
    intros ->. reflexivity. }
  destruct (isByte c "?").
  { right. destruct failed; cbn [orb].
    - eexists _, _, _. split; [reflexivity | auto].
    - destruct s as [|d s']; cbn [isEmpty].
      + eexists _, _, _. split; [reflexivity | split; [lia | discriminate]].
      + destruct (utf8.DecodeRuneInString (String d s')) as [r n].
        eexists _, _, _. split; [reflexivity | split; [lia | discriminate]]. }
  destruct (isByte c "\").
  { destruct t as [|c' t']; [now left|].
    right. apply Hlit. cbn; lia. }
  right. apply Hlit. lia.
Qed.

(** With the fuel [matchChunk] gives it, the loop of [matchChunk] reaches
    its end, and it only fails with [ErrBadPattern]. *)
Lemma matchChunkLoop_inv (fuel : nat) (chunk s : string) (failed : bool) :
  String.length chunk <= fuel ->
  matchChunkLoop fuel chunk s failed = Some (Err ErrBadPattern) \/
  exists rest, matchChunkLoop fuel chunk s failed = Some (Ok rest) /\
               (failed = true -> rest = None).
Proof.
  revert chunk s failed.
  induction fuel as [|fuel IH]; intros chunk s failed Hlen.
  - destruct chunk; [|cbn in Hlen; lia]. right. cbn.
    exists (if failed then None else Some s). split; [reflexivity|].
    now intros ->.
  - destruct chunk as [|c t].
    { right. cbn. exists (if failed then None else Some s).
      split; [reflexivity | now intros ->]. }
    cbn [String.length] in Hlen. cbn [matchChunkLoop].
    destruct (chunkStep_inv c t s failed)
      as [-> | (t' & s' & failed' & -> & Hl & Hf)]; [now left|].
    destruct (IH t' s' failed') as [-> | (rest & -> & Hr)];
      [lia | now left |].
    right. exists rest. split; [reflexivity | auto].
Qed.

Lemma matchChunk_inv (chunk s : string) :
  matchChunk chunk s = Some (Err ErrBadPattern) \/
  exists rest, matchChunk chunk s = Some (Ok rest).
Proof.
  unfold matchChunk.
  destruct (matchChunkLoop_inv (String.length chunk) chunk s false (le_n _))
    as [H | (rest & H & _)]; [now left | right; eauto].
Qed.

Lemma skipStars_inv (pattern : string) :
  String.length (snd (skipStars pattern)) <= String.length pattern /\
  (fst (skipStars pattern) = true ->
   String.length (snd (skipStars pattern)) < String.length pattern) /\
  (fst (skipStars pattern) = false -> snd (skipStars pattern) = pattern).
Proof.
  induction pattern as [|c t IH]; cbn [skipStars].
  - cbn. repeat split; intros; try discriminate; auto.
  - destruct (isByte c "*"); cbn [fst snd String.length].
    + destruct IH as (IH & _). repeat split; intros; try discriminate; lia.
    + repeat split; intros; try discriminate; auto.
Qed.

Lemma scan_length (pattern : string) :
  forall inrange,
    String.length (fst (scan inrange pattern)) +
    String.length (snd (scan inrange pattern)) = String.length pattern.
Proof.
  assert (H : forall n pattern, String.length pattern <= n -> forall inrange,
               String.length (fst (scan inrange pattern)) +
               String.length (snd (scan inrange pattern)) = String.length pattern).
  { induction n as [|n IH]; intros pat Hn inrange.
    - destruct pat; [reflexivity | cbn in Hn; lia].
    - destruct pat as [|c t]; [reflexivity|]. cbn [String.length] in Hn.
      cbn [scan].
      destruct (isByte c "\").
      { destruct t as [|d t']; [reflexivity|].
        cbn [String.length] in Hn.
        specialize (IH t' ltac:(lia) inrange).
        destruct (scan inrange t'). cbn [fst snd String.length] in *. lia. }
      destruct (isByte c "[").
      { specialize (IH t ltac:(lia) true). destruct (scan true t).
        cbn [fst snd String.length] in *. lia. }
      destruct (isByte c "]").
      { specialize (IH t ltac:(lia) false). destruct (scan false t).
        cbn [fst snd String.length] in *. lia. }
      destruct (isByte c "*").
      { destruct inrange; [|reflexivity].
        specialize (IH t ltac:(lia) true). destruct (scan true t).
        cbn [fst snd String.length] in *. lia. }
      specialize (IH t ltac:(lia) inrange). destruct (scan inrange t).
      cbn [fst snd String.length] in *. lia. }
  intros inrange. now apply (H (String.length pattern)).
Qed.

Lemma scan_nonempty (c : ascii) (t : string) :
  isByte c "*" = false -> fst (scan false (String c t)) <> EmptyString.
Proof.
  intros Hc. cbn [scan]. rewrite Hc.
  destruct (isByte c "\"); [destruct t; [discriminate|]; destruct (scan false _); discriminate|].
  destruct (isByte c "["); [destruct (scan true t); discriminate|].
  destruct (isByte c "]"); destruct (scan false t); discriminate.
Qed.

(** Every iteration of the loop of [Match] shortens the pattern. *)
Lemma scanChunk_shorter (pattern : string) (star : bool) (chunk rest : string) :
  pattern <> EmptyString ->
  scanChunk pattern = (star, chunk, rest) ->
  String.length rest < String.length pattern.
Proof.
  intros Hne. unfold scanChunk.
  pose proof (skipStars_inv pattern) as (Hle & Hlt & Heq).
  destruct (skipStars pattern) as [st p1] eqn:Hsk. cbn [fst snd] in *.
  pose proof (scan_length p1 false) as Hs.
  destruct (scan false p1) as [ch rs] eqn:Hscan. cbn [fst snd] in Hs.
  intros H. inversion H; subst. destruct star.
  - specialize (Hlt eq_refl). lia.
  - specialize (Heq eq_refl). subst p1.
    destruct pattern as [|c t]; [congruence|].
    assert (Hc : isByte c "*" = false).
    { cbn [skipStars] in Hsk. destruct (isByte c "*"); [discriminate | reflexivity]. }
    pose proof (scan_nonempty c t Hc) as Hn. rewrite Hscan in Hn. cbn [fst] in Hn.
    destruct chunk; [congruence|]. cbn [String.length] in *. lia.
Qed.

Lemma MatchLoop_S (fuel : nat) (c : ascii) (p name : string) :
  MatchLoop (S fuel) (String c p) name =
  let '(star, chunk, pattern) := scanChunk (String c p) in
  if star && isEmpty chunk
  then Some (Ok (negb (ContainsByte name Separator)))
  else
    let giveUp (_ : unit) :=
      if star then
        match starLoop chunk (isEmpty pattern) name with
        | starFound t => MatchLoop fuel pattern t
        | starErr e => Some (Err e)
        | starFuel => None
        | starNone => Some (Ok false)
        end
      else Some (Ok false) in
    match matchChunk chunk name with
    | None => None
    | Some (Ok (Some t)) =>
        if isEmpty t || negb (isEmpty pattern)
        then MatchLoop fuel pattern t
        else giveUp tt
    | Some (Err e) => Some (Err e)
    | Some (Ok None) => giveUp tt
    end.
Proof. reflexivity. Qed.

Lemma starLoop_inv (chunk : string) (lastChunk : bool) (name : string) :
  starLoop chunk lastChunk name = starNone \/
  (exists t, starLoop chunk lastChunk name = starFound t) \/
  starLoop chunk lastChunk name = starErr ErrBadPattern.
Proof.
  induction name as [|c rest IH]; [now left|].
  cbn [starLoop]. destruct (isByte c Separator); [now left|].
  destruct (matchChunk_inv chunk rest) as [-> | ([t|] & ->)];
    [now right; right | | exact IH].
  destruct (lastChunk && negb (isEmpty t)); [exact IH|].
  right; left. now exists t.
Qed.

(** The loop of [Match] ends within as many iterations as the pattern has
    bytes, with a verdict or with [ErrBadPattern]. *)
Lemma MatchLoop_inv (fuel : nat) (pattern name : string) :
  String.length pattern <= fuel ->
  MatchLoop fuel pattern name = Some (Err ErrBadPattern) \/
  exists b, MatchLoop fuel pattern name = Some (Ok b).
Proof.
  revert pattern name. induction fuel as [|fuel IH]; intros pattern name Hlen.
  - destruct pattern; [right; eexists; reflexivity | cbn in Hlen; lia].
  - destruct pattern as [|c t] eqn:Hp; [right; eexists; reflexivity|].
    rewrite <- Hp in *. assert (Hne : pattern <> EmptyString) by congruence.
    replace (MatchLoop (S fuel) pattern name) with
      (let '(star, chunk, pattern) := scanChunk pattern in
       if star && isEmpty chunk
       then Some (Ok (negb (ContainsByte name Separator)))
       else
         let giveUp (_ : unit) :=
           if star then
             match starLoop chunk (isEmpty pattern) name with
             | starFound t => MatchLoop fuel pattern t
             | starErr e => Some (Err e)
             | starFuel => None
             | starNone => Some (Ok false)
             end
           else Some (Ok false) in
         match matchChunk chunk name with
         | None => None
         | Some (Ok (Some t)) =>
             if isEmpty t || negb (isEmpty pattern)
             then MatchLoop fuel pattern t
             else giveUp tt
         | Some (Err e) => Some (Err e)
         | Some (Ok None) => giveUp tt
         end) by (subst pattern; reflexivity).
    destruct (scanChunk pattern) as [[star chunk] rest] eqn:Hsc.
    pose proof (scanChunk_shorter pattern star chunk rest Hne Hsc) as Hlt.
    destruct (star && isEmpty chunk); [right; eexists; reflexivity|].
    assert (Hrest : String.length rest <= fuel) by lia.
    assert (Hcheck : @Some (result bool) (Ok false) = Some (Err ErrBadPattern) \/
                     exists b, @Some (result bool) (Ok false) = Some (Ok b)).
    { right. eexists. reflexivity. }
    assert (Hgive :
              (if star then
                 match starLoop chunk (isEmpty rest) name with
                 | starFound t => MatchLoop fuel rest t
                 | starErr e => Some (Err e)
                 | starFuel => None
                 | starNone => Some (Ok false)
                 end
               else Some (Ok false)) = Some (Err ErrBadPattern) \/
              exists b,
                (if star then
                   match starLoop chunk (isEmpty rest) name with
                   | starFound t => MatchLoop fuel rest t
                   | starErr e => Some (Err e)
                   | starFuel => None
                   | starNone => Some (Ok false)
                   end
                 else Some (Ok false)) = Some (Ok b)).
    { destruct star; [|exact Hcheck].
      destruct (starLoop_inv chunk (isEmpty rest) name) as [-> | [(t' & ->) | ->]];
        [exact Hcheck | now apply IH | now left]. }
    cbv zeta.
    destruct (matchChunk_inv chunk name) as [-> | ([t'|] & ->)];
      [now left | | exact Hgive].
    destruct (isEmpty t' || negb (isEmpty rest)); [now apply IH | exact Hgive].
Qed.

Lemma MatchLoop_mono (fuel : nat) (pattern name : string) (r : result bool) :
  MatchLoop fuel pattern name = Some r ->
  MatchLoop (S fuel) pattern name = Some r.
Proof.
  revert pattern name. induction fuel as [|fuel IH]; intros pattern name H.
  - destruct pattern; [exact H | discriminate H].
  - destruct pattern as [|c t]; [exact H|].
    rewrite MatchLoop_S in H |- *. revert H.
    destruct (scanChunk (String c t)) as [[star chunk] rest].
    destruct (star && isEmpty chunk); [auto|].
    cbv zeta. intros H.
    assert (Hgive :
              (if star then
                 match starLoop chunk (isEmpty rest) name with
                 | starFound t => MatchLoop fuel rest t
                 | starErr e => Some (Err e)
                 | starFuel => None
                 | starNone => Some (Ok false)
                 end
               else Some (Ok false)) = Some r ->
              (if star then
                 match starLoop chunk (isEmpty rest) name with
                 | starFound t => MatchLoop (S fuel) rest t
                 | starErr e => Some (Err e)
                 | starFuel => None
                 | starNone => Some (Ok false)
                 end
               else Some (Ok false)) = Some r).
    { destruct star; [|auto].
      destruct (starLoop chunk (isEmpty rest) name); auto. }
    revert H.
    destruct (matchChunk chunk name) as [[[t'|]|e]|]; auto.
    destruct (isEmpty t' || negb (isEmpty rest)); auto.
Qed.

Lemma MatchLoop_mono_le (fuel fuel' : nat) (pattern name : string) (r : result bool) :
  fuel <= fuel' ->
  MatchLoop fuel pattern name = Some r ->
  MatchLoop fuel' pattern name = Some r.
Proof.
  induction 1 as [|fuel' _ IH]; [auto|].
  intros H. now apply MatchLoop_mono, IH.
Qed.

(** [Match] is the verdict of its loop, whatever the bound on the
    iterations, provided there is room for one iteration per byte of the
    pattern. *)
Theorem Match_runs (fuel : nat) (pattern name : string) :
  String.length pattern <= fuel ->
  MatchLoop fuel pattern name = Some (Match pattern name).
Proof.
  intros Hlen. unfold Match.
  destruct (MatchLoop_inv (String.length pattern) pattern name (le_n _))
    as [H | (b & H)]; rewrite H; eapply MatchLoop_mono_le; eauto.
Qed.

(** The only error of [Match] is [ErrBadPattern]. *)
Lemma Match_err (pattern name : string) (e : error) :
  Match pattern name = Err e -> e = ErrBadPattern.
Proof.
  unfold Match.
  destruct (MatchLoop_inv (String.length pattern) pattern name (le_n _))
    as [H | (b & H)]; rewrite H; congruence.
Qed.

(** ** Patterns that begin with literal bytes *)

Lemma literalByte_inv (c : ascii) :
  literalByte c = true ->
  isByte c "*" = false /\ isByte c "?" = false /\
  isByte c "[" = false /\ isByte c "\" = false.
Proof.
  unfold literalByte. intros H. apply negb_true_iff in H.
  repeat (apply orb_false_iff in H; destruct H as [H ?]). auto.
Qed.

Lemma scan_literal (c : ascii) (p : string) :
  literalByte c = true ->
  scan false (String c p) = (String c (fst (scan false p)), snd (scan false p)).
Proof.
  intros H. apply literalByte_inv in H. destruct H as (H1 & _ & H3 & H4).
  cbn [scan]. rewrite H1, H3, H4.
  destruct (isByte c "]"); now destruct (scan false p).
Qed.

Lemma scanChunk_nostar (c : ascii) (p : string) :
  isByte c "*" = false ->
  scanChunk (String c p) =
  (false, fst (scan false (String c p)), snd (scan false (String c p))).
Proof.
  intros H. unfold scanChunk. cbn [skipStars]. rewrite H.
  now destruct (scan false (String c p)).
Qed.

Lemma scan_star (c : ascii) (p : string) :
  isByte c "*" = true -> scan false (String c p) = (EmptyString, String c p).
Proof.
  intros H. cbn [scan]. rewrite H.
  assert (Hc : c = "*"%char) by now apply Ascii.eqb_eq.
  subst c. reflexivity.
Qed.

Lemma isByte_refl (c : ascii) : isByte c c = true.
Proof. apply Ascii.eqb_refl. Qed.

Lemma matchChunk_literal_same (c : ascii) (chunk name : string) :
  literalByte c = true ->
  matchChunk (String c chunk) (String c name) = matchChunk chunk name.
Proof.
  intros H. apply literalByte_inv in H. destruct H as (_ & H2 & H3 & H4).
  unfold matchChunk. cbn [String.length matchChunkLoop]. unfold chunkStep.
  rewrite H2, H3, H4. cbn [orb isEmpty]. now rewrite isByte_refl.
Qed.


(** A literal byte at the head of the pattern is matched against the
    first byte of the name, and the match goes on with what follows. *)
Theorem Match_literal_same (c : ascii) (pattern name : string) :
  literalByte c = true ->
  Match (String c pattern) (String c name) = Match pattern name.
Proof.
  intros Hc. pose proof (literalByte_inv c Hc) as (Hstar & _).
  unfold Match at 1. cbn [String.length]. rewrite MatchLoop_S.
  rewrite (scanChunk_nostar c pattern Hstar), (scan_literal c pattern Hc).
  cbn [fst snd andb]. cbv zeta.
  rewrite (matchChunk_literal_same c _ name Hc).
  destruct pattern as [|e p].
  - cbn. destruct name; reflexivity.
  - destruct (isByte e "*") eqn:He.
    + rewrite (scan_star e p He). cbn [fst snd matchChunk matchChunkLoop String.length].
      cbn [isEmpty negb orb]. rewrite orb_true_r.
      change (S (String.length p)) with (String.length (String e p)).
      now rewrite (Match_runs _ (String e p) name (le_n _)).
    + pose proof (Match_runs (S (String.length (String e p))) (String e p) name
                             (le_S _ _ (le_n _))) as Hr.
      rewrite MatchLoop_S, (scanChunk_nostar e p He) in Hr.
      cbn [andb] in Hr. cbv zeta in Hr. rewrite Hr. reflexivity.
Qed.




End MatchFacts.

(* ================================================================== *)
(** * Properties of [sort.Slice] on keys that are strings *)

Section SortFacts.
Context {A : Type}.
Variable key : A -> string.
#[local] Abbreviation lessByKey := (lessByKey key).
#[local] Abbreviation notAfter := (notAfter key).

Lemma ltb_lt (s1 s2 : string) :
  (s1 <? s2)%string = true <-> String_as_OT.lt s1 s2.
Proof.
  unfold String.ltb. rewrite <- String_as_OT.cmp_lt. unfold String_as_OT.cmp.
  destruct (String.compare s1 s2); split; congruence.
Qed.

Lemma ltb_false (s1 s2 : string) :
  (s2 <? s1)%string = false <-> s1 = s2 \/ String_as_OT.lt s1 s2.
Proof.
  unfold String.ltb. rewrite <- String_as_OT.cmp_lt. unfold String_as_OT.cmp.
  rewrite (String.compare_antisym s2 s1).
  destruct (String.compare s1 s2) eqn:Hc; cbn.
  - split; [|reflexivity]. intros _. left. now apply String.compare_eq_iff.
  - split; [|reflexivity]. intros _. now right.
  - split; [discriminate|]. intros [-> | H]; [|discriminate H].
    assert (H : String.compare s2 s2 = Eq) by now apply String_as_OT.cmp_eq.
    congruence.
Qed.

Lemma lessByKey_asym (a b : A) : lessByKey a b = true -> notAfter a b.
Proof.
  unfold notAfter, lessByKey. intros H. apply ltb_lt in H.
  apply ltb_false. now right.
Qed.

Lemma notAfter_trans (a b c : A) : notAfter a b -> notAfter b c -> notAfter a c.
Proof.
  unfold notAfter, lessByKey. rewrite !ltb_false.
  intros [-> | H1] [<- | H2]; auto.
  right. eapply String_as_OT.lt_trans; eauto.
Qed.

Lemma notAfter_antisym (a b : A) : notAfter a b -> notAfter b a -> key a = key b.
Proof.
  unfold notAfter, lessByKey. rewrite !ltb_false.
  intros [H | H1] [H' | H2]; auto.
  exfalso. apply (String_as_OT.lt_not_eq _ _ (String_as_OT.lt_trans _ _ _ H1 H2)).
  reflexivity.
Qed.

Lemma sink_perm (x : A) (before : list A) :
  Permutation (sort.sink lessByKey x before) (x :: before).
Proof.
  induction before as [|y before IH]; cbn; [reflexivity|].
  destruct (lessByKey x y); [|reflexivity].
  rewrite IH. apply perm_swap.
Qed.

(** The processed part, held in reverse, is in descending order. *)
Lemma sink_sorted (x : A) (before : list A) :
  StronglySorted (fun a b => notAfter b a) before ->
  StronglySorted (fun a b => notAfter b a) (sort.sink lessByKey x before).
Proof.
  induction 1 as [|y before Hs IH Hy]; cbn.
  - constructor; constructor.
  - destruct (lessByKey x y) eqn:Hxy.
    + constructor; [exact IH|].
      rewrite (sink_perm x before). constructor; [|exact Hy].
      now apply lessByKey_asym.
    + constructor; [now constructor|].
      constructor; [exact Hxy|].
      rewrite Forall_forall in Hy |- *. intros b Hb.
      apply notAfter_trans with y; [now apply Hy | exact Hxy].
Qed.

Lemma fold_sink_perm (data before : list A) :
  Permutation (fold_left (fun before x => sort.sink lessByKey x before) data before)
              (rev data ++ before).
Proof.
  revert before. induction data as [|x data IH]; intros before; cbn;
    [reflexivity|].
  rewrite IH, sink_perm, <- app_assoc. reflexivity.
Qed.

Lemma fold_sink_sorted (data before : list A) :
  StronglySorted (fun a b => notAfter b a) before ->
  StronglySorted (fun a b => notAfter b a)
    (fold_left (fun before x => sort.sink lessByKey x before) data before).
Proof.
  revert before. induction data as [|x data IH]; intros before H; cbn;
    [exact H|].
  apply IH, sink_sorted, H.
Qed.

Lemma StronglySorted_snoc (R : A -> A -> Prop) (l : list A) (x : A) :
  StronglySorted R l -> Forall (fun y => R y x) l -> StronglySorted R (l ++ [x]).
Proof.
  induction 1 as [|a l Hs IH Ha]; intros Hx; cbn.
  - constructor; constructor.
  - inversion Hx; subst. constructor; [now apply IH|].
    apply Forall_app. split; [exact Ha | now constructor].
Qed.

Lemma StronglySorted_rev (R : A -> A -> Prop) (l : list A) :
  StronglySorted (fun a b => R b a) l -> StronglySorted R (rev l).
Proof.
  induction 1 as [|a l Hs IH Ha]; cbn; [constructor|].
  apply StronglySorted_snoc; [exact IH | now apply Forall_rev].
Qed.

(** [sort.Slice] returns a permutation of the slice, in order. *)
Lemma Slice_perm (data : list A) : Permutation (sort.Slice lessByKey data) data.
Proof.
  unfold sort.Slice. rewrite <- Permutation_rev, fold_sink_perm, app_nil_r.
  symmetry. apply Permutation_rev.
Qed.

Lemma Slice_sorted (data : list A) :
  StronglySorted notAfter (sort.Slice lessByKey data).
Proof.
  unfold sort.Slice. apply StronglySorted_rev, fold_sink_sorted. constructor.
Qed.

Lemma key_inj_NoDup (l : list A) (a b : A) :
  NoDup (map key l) -> In a l -> In b l -> key a = key b -> a = b.
Proof.
  induction l as [|x l IH]; intros Hnd Ha Hb Hk; [contradiction|].
  cbn in Hnd. inversion Hnd as [|? ? Hx Hnd']; subst.
  destruct Ha as [<- | Ha], Hb as [<- | Hb]; auto.
  - exfalso. apply Hx. rewrite Hk. now apply in_map.
  - exfalso. apply Hx. rewrite <- Hk. now apply in_map.
Qed.

(** When no two keys are equal there is one sorted permutation only. *)
Lemma sorted_unique (l1 l2 : list A) :
  Permutation l1 l2 -> NoDup (map key l1) ->
  StronglySorted notAfter l1 -> StronglySorted notAfter l2 -> l1 = l2.
Proof.
  revert l2. induction l1 as [|a l1 IH]; intros l2 Hp Hnd H1 H2.
  - apply Permutation_nil in Hp. now subst.
  - destruct l2 as [|b l2];
      [symmetry in Hp; apply Permutation_nil in Hp; discriminate|].
    inversion H1 as [|? ? Hs1 Ha]; subst.
    inversion H2 as [|? ? Hs2 Hb]; subst.
    assert (Hab : a = b).
    { assert (Hin_a : In a (b :: l2))
        by (eapply Permutation_in; [exact Hp | now left]).
      assert (Hin_b : In b (a :: l1))
        by (eapply Permutation_in; [symmetry; exact Hp | now left]).
      destruct Hin_a as [Hba | Hin_a]; [now symmetry|].
      destruct Hin_b as [Hab | Hin_b]; [exact Hab|].
      rewrite Forall_forall in Ha, Hb.
      apply (key_inj_NoDup (a :: l1)); auto; [now left | now right|].
      apply notAfter_antisym; auto. }
    subst b. f_equal.
    apply IH; auto.
    + now apply Permutation_cons_inv in Hp.
    + cbn in Hnd. now inversion Hnd.
Qed.

(** The slice [sort.Slice] returns does not depend on the order of its
    argument, when no two keys are equal. *)
Lemma Slice_unique (l1 l2 : list A) :
  Permutation l1 l2 -> NoDup (map key l1) ->
  sort.Slice lessByKey l1 = sort.Slice lessByKey l2.
Proof.
  intros Hp Hnd. apply sorted_unique; auto using Slice_sorted.
  - now rewrite !Slice_perm.
  - eapply Permutation_NoDup; [|exact Hnd].
    apply Permutation_map. symmetry. apply Slice_perm.
Qed.

(** A slice sorted on keys that are all different, around a key [k]:
    the elements with a key before [k], the element of key [k] if there
    is one, the elements with a key after [k]. *)
Lemma sorted_around (k : string) (l : list A) :
  StronglySorted notAfter l -> NoDup (map key l) ->
  exists pre post,
    Forall (fun t => (key t <? k)%string = true) pre /\
    Forall (fun t => (k <? key t)%string = true) post /\
    (l = pre ++ post \/ exists x, key x = k /\ l = pre ++ x :: post).
Proof.
  induction 1 as [|a l Hs IH Hall]; intros Hnd.
  - exists [], []. repeat split; auto.
  - cbn [map] in Hnd. inversion Hnd as [|? ? Hnotin Hnd']; subst.
    assert (Hlater : forall b, In b l -> String_as_OT.lt (key a) (key b)).
    { intros b Hb. rewrite Forall_forall in Hall. specialize (Hall b Hb).
      apply ltb_false in Hall.
      destruct Hall as [Heq | Hlt]; [|exact Hlt].
      exfalso. apply Hnotin. rewrite Heq. now apply in_map. }
    destruct (String_as_OT.compare (key a) k) as [Hlt | Heq | Hgt].
    + destruct (IH Hnd') as (pre & post & Hpre & Hpost & Hl).
      exists (a :: pre), post.
      split; [constructor; [now apply ltb_lt | exact Hpre]|].
      split; [exact Hpost|].
      destruct Hl as [-> | (x & Hx & ->)];
        [now left | right; exists x; now split].
    + exists [], l. split; [constructor|]. split.
      * rewrite Forall_forall. intros b Hb. apply ltb_lt.
        rewrite <- Heq. now apply Hlater.
      * right. exists a. now split.
    + exists [], (a :: l). split; [constructor|]. split; [|now left].
      constructor; [now apply ltb_lt|].
      rewrite Forall_forall. intros b Hb. apply ltb_lt.
      eapply String_as_OT.lt_trans; [exact Hgt | now apply Hlater].
Qed.

(** On keys that are all different, a sorted slice is strictly
    ascending. *)
Lemma sorted_strictly (l : list A) :
  StronglySorted notAfter l -> NoDup (map key l) ->
  StronglySorted (fun a b => (key a <? key b)%string = true) l.
Proof.
  induction 1 as [|a l Hs IH Hall]; intros Hnd; [constructor|].
  cbn [map] in Hnd. inversion Hnd as [|? ? Hnotin Hnd']; subst.
  constructor; [now apply IH|].
  rewrite Forall_forall in Hall |- *. intros b Hb. specialize (Hall b Hb).
  apply ltb_false in Hall. apply ltb_lt.
  destruct Hall as [Heq | Hlt]; [|exact Hlt].
  exfalso. apply Hnotin. rewrite Heq. now apply in_map.
Qed.

End SortFacts.

(* ================================================================== *)
(** * How a pass runs *)

Section PassFacts.
Context {Ctx Client ListerData CloudConfig : Type}.
#[local] Abbreviation Resource := (Resource Ctx Client ListerData).
#[local] Abbreviation taskResult := (taskResult Ctx Client ListerData).

Variable world : World CloudConfig.
Variable filepath_Join : list string -> string.
Variable arrival : list taskResult -> list taskResult.
Variables (ctx : Ctx) (client : Client) (listerData : ListerData).
Variables (outPath provider : string) (includedResources : list string).
#[local] Abbreviation kept := (kept provider includedResources).
#[local] Abbreviation blockOf := (blockOf provider).
#[local] Abbreviation outcome :=
  (outcome ctx client listerData provider includedResources).
#[local] Abbreviation materialize :=
  (materialize world filepath_Join outPath provider).
#[local] Abbreviation importsFile := (importsFile filepath_Join outPath provider).

Lemma importBlocks_acc (name : string) (ids : list string) (acc : list Block) :
  importBlocks name provider includedResources ids acc =
  match importBlocks name provider includedResources ids [] with
  | Ok blocks => Ok (acc ++ blocks)
  | Err e => Err e
  end.
Proof.
  revert acc. induction ids as [|id ids IH]; intros acc; cbn [importBlocks].
  - now rewrite app_nil_r.
  - destruct (filterResourceByName name (cleanID provider id) includedResources)
      as [[|]|e]; [| apply IH | reflexivity].
    rewrite IH, (IH ([] ++ _)).
    destruct (importBlocks name provider includedResources ids []);
      [|reflexivity].
    now rewrite <- app_assoc.
Qed.

(** A task that ends without an error has built the blocks of the
    identifiers that pass the name filter, in the order of the lister. *)
Lemma importBlocks_ok (name : string) (ids : list string) (blocks : list Block) :
  importBlocks name provider includedResources ids [] = Ok blocks ->
  blocks = map (blockOf name) (filter (kept name) ids).
Proof.
  revert blocks.
  induction ids as [|id ids IH]; intros blocks; cbn [importBlocks filter].
  - intros H. now inversion H.
  - assert (Hk : kept name id =
                 match filterResourceByName name (cleanID provider id)
                                            includedResources with
                 | Ok true => true
                 | _ => false
                 end) by reflexivity.
    destruct (filterResourceByName name (cleanID provider id) includedResources)
      as [[|]|e]; rewrite Hk; [| apply IH | discriminate].
    rewrite importBlocks_acc.
    destruct (importBlocks name provider includedResources ids []) as [bs|];
      [|discriminate].
    intros H. inversion H; subst. cbn [map app]. f_equal. now apply IH.
Qed.

Lemma task_run (r : Resource) (h : history) :
  task ctx client listerData provider includedResources r h =
  (h ++ listerCalls [r], Ok (outcome r)).
Proof.
  unfold task, outcome, listerCalls. cbn [flat_map].
  destruct (ListIDsFunc r) as [lister|]; cbn [app].
  - unfold bind, perform. rewrite ?app_nil_r.
    destruct (lister ctx client listerData) as [ids|e]; [|reflexivity].
    now destruct (importBlocks (Name r) provider includedResources ids []).
  - unfold ret. now rewrite ?app_nil_r.
Qed.

(** Every task of a pass runs to its end: all the listers are called,
    whatever they answer. *)
Lemma goAll_run (resources : list Resource) (h : history) :
  goAll (task ctx client listerData provider includedResources) resources h =
  (h ++ listerCalls resources, Ok (map outcome resources)).
Proof.
  revert h. induction resources as [|r rest IH]; intros h; cbn [goAll map].
  - unfold ret. cbn. now rewrite app_nil_r.
  - unfold bind at 1. rewrite task_run. unfold bind at 1. rewrite IH.
    unfold ret, listerCalls. cbn [flat_map]. now rewrite !app_nil_r, <- app_assoc.
Qed.

Lemma collect_ok (results acc : list taskResult) :
  Forall succeeded results -> collect results acc = Ok (acc ++ results).
Proof.
  intros H. revert acc. induction H as [|r results Hr _ IH]; intros acc; cbn.
  - now rewrite app_nil_r.
  - rewrite Hr, IH, <- app_assoc. reflexivity.
Qed.

(** The pass ends with the first error in channel order. *)
Lemma collect_err (pre post acc : list taskResult) (r : taskResult) (e : error) :
  Forall succeeded pre -> err r = Some e ->
  collect (pre ++ r :: post) acc = Err (ErrFailedToGenerate (Name (resource r)) e).
Proof.
  intros H Hr. revert acc. induction H as [|x pre Hx _ IH]; intros acc; cbn.
  - now rewrite Hr.
  - now rewrite Hx, IH.
Qed.

Lemma first_failure (results : list taskResult) :
  Forall succeeded results \/
  exists pre r e post,
    results = pre ++ r :: post /\ Forall succeeded pre /\ err r = Some e.
Proof.
  induction results as [|x results IH]; [left; constructor|].
  destruct (err x) as [e|] eqn:Hx.
  - right. exists [], x, e, results. repeat split; auto.
  - destruct IH as [IH | (pre & r & e & post & -> & Hpre & Hr)].
    + left. now constructor.
    + right. exists (x :: pre), r, e, post. repeat split; auto.
Qed.

Lemma fold_blocks (results : list taskResult) (acc : list Block) :
  fold_left (fun allBlocks r => allBlocks ++ blocks r) results acc =
  acc ++ concat (map blocks results).
Proof.
  revert acc. induction results as [|r results IH]; intros acc; cbn.
  - now rewrite app_nil_r.
  - now rewrite IH, app_assoc.
Qed.

(** The three ways a pass goes. *)
Lemma pass_filter_error (resources : list Resource) (e : error) (h : history) :
  filterResources resources includedResources = Err e ->
  generateImportBlocks world filepath_Join arrival ctx client listerData
    resources outPath provider includedResources h = (h, Err e).
Proof.
  intros H. unfold generateImportBlocks, bind. now rewrite H.
Qed.

Lemma pass_task_error (resources selected : list Resource)
      (pre post : list taskResult) (r : taskResult) (e : error) (h : history) :
  filterResources resources includedResources = Ok selected ->
  arrival (map outcome selected) = pre ++ r :: post ->
  Forall succeeded pre -> err r = Some e ->
  generateImportBlocks world filepath_Join arrival ctx client listerData
    resources outPath provider includedResources h =
  (h ++ listerCalls selected, Err (ErrFailedToGenerate (Name (resource r)) e)).
Proof.
  intros Hf Ha Hpre Hr. unfold generateImportBlocks.
  unfold bind at 1. rewrite Hf. cbn [liftResult ret].
  unfold bind at 1. rewrite goAll_run.
  unfold bind at 1. rewrite Ha, (collect_err pre post [] r e Hpre Hr).
  reflexivity.
Qed.

Lemma pass_success (resources selected : list Resource) (h : history) :
  filterResources resources includedResources = Ok selected ->
  Forall succeeded (arrival (map outcome selected)) ->
  generateImportBlocks world filepath_Join arrival ctx client listerData
    resources outPath provider includedResources h =
  materialize
    (concat (map blocks (sort.Slice lessByName (arrival (map outcome selected)))))
    (h ++ listerCalls selected).
Proof.
  intros Hf Ha. unfold generateImportBlocks.
  unfold bind at 1. rewrite Hf. cbn [liftResult ret].
  unfold bind at 1. rewrite goAll_run.
  unfold bind at 1. rewrite (collect_ok _ [] Ha). cbn [liftResult ret app].
  rewrite fold_blocks. reflexivity.
Qed.

(** The first thing [materialize] does is to write the imports file;
    nothing it does later writes blocks or calls a lister. *)
Lemma materialize_trace (allBlocks : list Block) (h : history) :
  exists rest,
    fst (materialize allBlocks h) = h ++ call_writeBlocks importsFile allBlocks :: rest /\
    Forall (fun c => match c with
                     | call_runTerraform _ _ | call_sortResourcesFile _ => True
                     | _ => False
                     end) rest.
Proof.
  unfold materialize, importsFile, bind, perform, check, fail, ret.
  destruct (writeBlocks world h _ allBlocks).
  { exists []. split; [reflexivity | constructor]. }
  destruct (runTerraform world _ outPath _).
  { eexists [_]. rewrite <- app_assoc. split; [reflexivity|].
    repeat constructor. }
  eexists [_; _].
  destruct (sortResourcesFile world _ _); cbn [fst]; rewrite <- !app_assoc;
    (split; [reflexivity | repeat constructor]).
Qed.

End PassFacts.

(* ================================================================== *)
(** * Properties of the filters *)

Section FilterFacts.
Context {Ctx Client ListerData : Type}.
#[local] Abbreviation Resource := (Resource Ctx Client ListerData).

(** The first loop of [filterResources] stops at the first entry without
    a dot. *)
Lemma allowedTypes_inv (includedResources acc : list string) :
  (exists bad, In bad includedResources /\ hasDot bad = false /\
               allowedTypes includedResources acc = Err (ErrNotInFormat bad)) \/
  (Forall (fun s => hasDot s = true) includedResources /\
   allowedTypes includedResources acc = Ok (acc ++ map typePart includedResources)).
Proof.
  revert acc. induction includedResources as [|s rest IH]; intros acc.
  - right. split; [constructor | cbn; now rewrite app_nil_r].
  - cbn [allowedTypes]. fold (hasDot s). destruct (hasDot s) eqn:Hs; cbn [negb].
    + destruct (IH (acc ++ [SplitFirst s "."])) as [(bad & Hin & Hb & ->) | (Hall & ->)].
      * left. exists bad. repeat split; auto. now right.
      * right. split; [now constructor|]. cbn [map]. now rewrite <- app_assoc.
    + left. exists s. repeat split; auto. now left.
Qed.

Lemma matchesAnyType_err (allowed : list string) (name : string) (e : error) :
  matchesAnyType allowed name = Err e -> e = ErrBadPattern.
Proof.
  induction allowed as [|p rest IH]; cbn; [discriminate|].
  destruct (filepath.Match p name) as [[|]|e'] eqn:Hm; [discriminate | exact IH |].
  intros H. inversion H; subst. eapply MatchFacts.Match_err; eauto.
Qed.

Lemma matchesAny_err (included : list string) (name : string) (e : error) :
  matchesAny included name = Err e -> e = ErrBadPattern.
Proof.
  induction included as [|p rest IH]; cbn; [discriminate|].
  destruct (filepath.Match p name) as [[|]|e'] eqn:Hm; [discriminate | exact IH |].
  intros H. inversion H; subst. eapply MatchFacts.Match_err; eauto.
Qed.

Lemma filterResourceByName_err (ty name : string) (included : list string) (e : error) :
  filterResourceByName ty name included = Err e -> e = ErrBadPattern.
Proof.
  unfold filterResourceByName. destruct included; [discriminate|].
  apply matchesAny_err.
Qed.


Lemma keepMatching_spec (allowed : list string) (resources acc : list Resource) :
  keepMatching allowed resources acc =
  if existsb (rejects allowed) resources then Err ErrBadPattern
  else Ok (acc ++ filter (selects allowed) resources).
Proof.
  revert acc. induction resources as [|r rest IH]; intros acc; cbn.
  - now rewrite app_nil_r.
  - unfold rejects at 1, selects at 1.
    destruct (matchesAnyType allowed (Name r)) as [[|]|e] eqn:Hm; cbn [orb].
    + rewrite IH. destruct (existsb _ rest); [reflexivity|].
      now rewrite <- app_assoc.
    + apply IH.
    + now rewrite (matchesAnyType_err _ _ _ Hm).
Qed.

Lemma keep_all (resources : list Resource) :
  filter (selectedBy []) resources = resources.
Proof.
  induction resources as [|r rest IH]; [reflexivity|].
  cbn [filter selectedBy]. now rewrite IH.
Qed.

Lemma filterResources_ok (resources selected : list Resource)
      (includedResources : list string) :
  filterResources resources includedResources = Ok selected ->
  selected = filter (selectedBy includedResources) resources.
Proof.
  unfold filterResources, selectedBy.
  destruct includedResources as [|s rest].
  - intros H. inversion H; subst. now rewrite keep_all.
  - destruct (allowedTypes (s :: rest) []) as [allowed|e]; [|discriminate].
    rewrite keepMatching_spec. destruct (existsb _ resources); [discriminate|].
    intros H. now inversion H.
Qed.

(** Only malformed patterns make [filterResources] fail. *)
Lemma filterResources_err (resources : list Resource)
      (includedResources : list string) (e : error) :
  filterResources resources includedResources = Err e -> MalformedPattern e.
Proof.
  unfold filterResources. destruct includedResources as [|s rest]; [discriminate|].
  destruct (allowedTypes_inv (s :: rest) []) as [(bad & _ & _ & ->) | (_ & ->)].
  - intros H. inversion H. constructor.
  - rewrite keepMatching_spec. destruct (existsb _ resources); [|discriminate].
    intros H. inversion H. constructor.
Qed.

(** Whether [filterResources] fails, and with which error, does not
    depend on the order of the catalog. *)
Lemma filterResources_perm (resources resources' : list Resource)
      (includedResources : list string) :
  Permutation resources resources' ->
  match filterResources resources includedResources,
        filterResources resources' includedResources with
  | Ok selected, Ok selected' => Permutation selected selected'
  | Err e, Err e' => e = e'
  | _, _ => False
  end.
Proof.
  intros Hp. unfold filterResources.
  destruct includedResources as [|s rest]; [exact Hp|].
  destruct (allowedTypes (s :: rest) []) as [allowed|e]; [|reflexivity].
  rewrite !keepMatching_spec.
  assert (He : existsb (rejects allowed) resources =
               existsb (rejects allowed) resources').
  { apply eq_true_iff_eq. rewrite !existsb_exists.
    split; intros (x & Hx & Hr); exists x; split; auto.
    - eapply Permutation_in; eauto.
    - eapply Permutation_in; [symmetry|]; eauto. }
  rewrite <- He. destruct (existsb (rejects allowed) resources); [reflexivity|].
  cbn [app]. clear He.
  induction Hp; cbn; auto.
  - destruct (selects allowed x); auto.
  - destruct (selects allowed x), (selects allowed y); auto. apply perm_swap.
  - etransitivity; eauto.
Qed.

(** In a catalog keyed by name, the selected resources have distinct
    names too. *)
Lemma selected_names_distinct (keep : Resource -> bool) (catalog : list Resource) :
  NoDup (map Name catalog) -> NoDup (map Name (filter keep catalog)).
Proof.
  induction catalog as [|r catalog IH]; cbn; [auto|].
  intros H. inversion H as [|? ? Hr Hrest]; subst.
  destruct (keep r); [|now apply IH].
  cbn. constructor; [|now apply IH].
  intros Hin. apply Hr. apply in_map_iff in Hin. destruct Hin as (x & Hx & Hin).
  apply in_map_iff. exists x. split; [exact Hx|].
  apply filter_In in Hin. tauto.
Qed.

End FilterFacts.

(* ================================================================== *)
(** * Failures of a pass *)

Section Failures.
Context {Ctx Client ListerData CloudConfig : Type}.
#[local] Abbreviation Resource := (Resource Ctx Client ListerData).
#[local] Abbreviation taskResult := (taskResult Ctx Client ListerData).

Variable world : World CloudConfig.
Variable filepath_Join : list string -> string.
Variable arrival : list taskResult -> list taskResult.
Variables (ctx : Ctx) (client : Client) (listerData : ListerData).
Variables (outPath provider : string) (includedResources : list string).
#[local] Abbreviation outcome :=
  (outcome ctx client listerData provider includedResources).
#[local] Abbreviation pass :=
  (fun resources =>
     generateImportBlocks world filepath_Join arrival ctx client listerData
                          resources outPath provider includedResources).

Lemma outcome_resource (r : Resource) : resource (outcome r) = r.
Proof.
  unfold outcome. destruct (ListIDsFunc r) as [lister|]; [|reflexivity].
  destruct (lister ctx client listerData) as [ids|e]; [|reflexivity].
  now destruct (importBlocks (Name r) provider includedResources ids []).
Qed.

Lemma firstFailure_split (pre post : list taskResult) (r : taskResult) (e : error) :
  Forall succeeded pre -> err r = Some e ->
  firstFailure (pre ++ r :: post) = Some (Name (resource r), e).
Proof.
  induction 1 as [|x pre Hx _ IH]; intros Hr; cbn.
  - now rewrite Hr.
  - rewrite Hx. now apply IH.
Qed.

Lemma writtenBlocks_app (h1 h2 : history) :
  writtenBlocks (h1 ++ h2) = writtenBlocks h1 ++ writtenBlocks h2.
Proof. apply flat_map_app. Qed.

Lemma toolRuns_app (h1 h2 : history) :
  toolRuns (h1 ++ h2) = toolRuns h1 ++ toolRuns h2.
Proof. apply flat_map_app. Qed.

(** The lister calls write no file and run no tool. *)
Lemma listerCalls_quiet (resources : list Resource) :
  writtenBlocks (listerCalls resources) = [] /\
  toolRuns (listerCalls resources) = [].
Proof.
  induction resources as [|r rest [IH1 IH2]]; [now split|].
  unfold listerCalls. cbn [flat_map].
  rewrite writtenBlocks_app, toolRuns_app.
  fold (listerCalls rest). rewrite IH1, IH2.
  now destruct (ListIDsFunc r).
Qed.

(** The lister of every selected resource that has one is called. *)
Lemma listerCalls_all (resources : list Resource) (r : Resource) :
  In r resources -> ListIDsFunc r <> None ->
  In (call_ListIDs (Name r)) (listerCalls resources).
Proof.
  intros Hin Hl. unfold listerCalls. apply in_flat_map. exists r.
  split; [exact Hin|]. destruct (ListIDsFunc r); [now left | congruence].
Qed.

(** A name-filter error on one identifier is the error of the task. *)
Lemma importBlocks_err (name : string) (ids : list string) (id : string)
      (e : error) (acc : list Block) :
  In id ids ->
  filterResourceByName name (cleanID provider id) includedResources = Err e ->
  importBlocks name provider includedResources ids acc = Err ErrBadPattern.
Proof.
  revert acc. induction ids as [|x ids IH]; intros acc Hin He; [contradiction|].
  cbn [importBlocks].
  destruct (filterResourceByName name (cleanID provider x) includedResources)
    as [[|]|e'] eqn:Hx.
  - destruct Hin as [-> | Hin]; [congruence | now apply IH].
  - destruct Hin as [-> | Hin]; [congruence | now apply IH].
  - now rewrite (filterResourceByName_err _ _ _ _ Hx).
Qed.

(** When every result is received and a task fails, the pass fails:
    after every lister has been called, with the first error in channel
    order, under the name of the resource whose task sent it. *)
Lemma pass_fails (resources selected : list Resource) (h : history) :
  lossless arrival ->
  filterResources resources includedResources = Ok selected ->
  Exists (fun r => err (outcome r) <> None) selected ->
  exists r e,
    In r selected /\ err (outcome r) = Some e /\
    firstFailure (arrival (map outcome selected)) = Some (Name r, e) /\
    pass resources h =
    (h ++ listerCalls selected, Err (ErrFailedToGenerate (Name r) e)).
Proof.
  intros Hperm Hf Hex.
  destruct (first_failure (arrival (map outcome selected)))
    as [Hall | (pre & x & e & post & Ha & Hpre & Hx)].
  - exfalso. apply Exists_exists in Hex. destruct Hex as (r & Hin & Hr).
    apply Hr. rewrite Forall_forall in Hall. apply Hall.
    eapply Permutation_in; [apply Hperm|]. now apply in_map.
  - assert (Hin : In x (map outcome selected)).
    { eapply Permutation_in; [symmetry; apply Hperm|].
      rewrite Ha. apply in_elt. }
    apply in_map_iff in Hin. destruct Hin as (r & <- & Hin).
    exists r, e. repeat split; auto.
    + rewrite Ha, (firstFailure_split pre post _ e Hpre Hx).
      now rewrite outcome_resource.
    + pose proof (pass_task_error world filepath_Join arrival ctx client
                    listerData outPath provider includedResources resources
                    selected pre post (outcome r) e h Hf Ha Hpre Hx) as Hp.
      now rewrite outcome_resource in Hp.
Qed.

Lemma lossless_is_lossy : lossless arrival -> lossy arrival.
Proof.
  intros H started. exists []. rewrite app_nil_r. apply H.
Qed.

(** Nothing is received that was not sent. *)
Lemma received_was_sent (started : list taskResult) (t : taskResult) :
  lossy arrival -> In t (arrival started) -> In t started.
Proof.
  intros H Ht. destruct (H started) as (lost & Hp).
  eapply Permutation_in; [symmetry; exact Hp|]. apply in_or_app. now left.
Qed.

Lemma firstFailure_none (results : list taskResult) :
  firstFailure results = None <-> Forall succeeded results.
Proof.
  induction results as [|t results IH]; cbn [firstFailure].
  - split; [constructor | reflexivity].
  - destruct (err t) as [e|] eqn:Ht.
    + split; [discriminate|]. intros H. inversion H; subst.
      unfold succeeded in *. congruence.
    + rewrite IH. split; [now constructor|]. intros H. now inversion H.
Qed.

(** The first failure among the results received is the error of the
    pass, whatever is received. *)
Lemma pass_on_first_failure (resources selected : list Resource)
      (name : string) (e : error) (h : history) :
  filterResources resources includedResources = Ok selected ->
  firstFailure (arrival (map outcome selected)) = Some (name, e) ->
  pass resources h =
  (h ++ listerCalls selected, Err (ErrFailedToGenerate name e)).
Proof.
  intros Hf Hfirst.
  destruct (first_failure (arrival (map outcome selected)))
    as [Hall | (pre & x & e' & post & Ha & Hpre & Hx)].
  - apply firstFailure_none in Hall. congruence.
  - rewrite Ha, (firstFailure_split pre post x e' Hpre Hx) in Hfirst.
    injection Hfirst as <- <-.
    exact (pass_task_error world filepath_Join arrival ctx client listerData
             outPath provider includedResources resources selected
             pre post x e' h Hf Ha Hpre Hx).
Qed.

(** Every lister of the selected resources is called, whatever the
    listers answer and whatever is received. *)
Lemma pass_calls_every_lister (resources selected : list Resource) (h : history) :
  filterResources resources includedResources = Ok selected ->
  exists rest, fst (pass resources h) = h ++ listerCalls selected ++ rest.
Proof.
  intros Hf.
  destruct (first_failure (arrival (map outcome selected)))
    as [Hall | (pre & x & e & post & Ha & Hpre & Hx)].
  - rewrite (pass_success world filepath_Join arrival ctx client listerData
               outPath provider includedResources resources selected h Hf Hall).
    destruct (materialize_trace world filepath_Join outPath provider
                (concat (map blocks (sort.Slice lessByName
                                       (arrival (map outcome selected)))))
                (h ++ listerCalls selected)) as (rest & -> & _).
    eexists. now rewrite <- app_assoc.
  - rewrite (pass_task_error world filepath_Join arrival ctx client listerData
               outPath provider includedResources resources selected
               pre post x e h Hf Ha Hpre Hx).
    exists []. cbn [fst]. now rewrite app_nil_r.
Qed.

(** C6: an inclusion filter with an entry that has no dot makes
    [filterResources] fail with the error that names the entry and the
    expected format, which is a malformed-pattern error, and the pass
    returns that error with nothing called, so no lister is invoked; with
    an empty inclusion filter [filterResources] returns the catalog as it
    is. *)
Theorem entry_without_dot_fails_before_listing
        (resources : list Resource) (h : history) :
  Exists (fun s => hasDot s = false) includedResources ->
  (exists bad,
      In bad includedResources /\ hasDot bad = false /\
      filterResources resources includedResources = Err (ErrNotInFormat bad) /\
      MalformedPattern (ErrNotInFormat bad) /\
      pass resources h = (h, Err (ErrNotInFormat bad))) /\
  filterResources resources [] = Ok resources.
Proof.
  intros Hex. split; [|reflexivity].
  assert (Hne : includedResources <> []).
  { intros ->. inversion Hex. }
  destruct (allowedTypes_inv includedResources []) as [(bad & Hin & Hb & Ha) | (Hall & _)].
  - exists bad.
    assert (Hf : filterResources resources includedResources = Err (ErrNotInFormat bad)).
    { unfold filterResources. destruct includedResources; [congruence|].
      now rewrite Ha. }
    repeat split; auto; [constructor | now apply pass_filter_error].
  - exfalso. apply Exists_exists in Hex. destruct Hex as (s0 & Hin & Hs).
    rewrite Forall_forall in Hall. specialize (Hall s0 Hin). congruence.
Qed.

(** C4, as the code has it: a malformed pattern that [filterResources]
    reports (an entry without a dot, or a type part that [filepath.Match]
    rejects on a name of the catalog) fails the pass with that error
    before anything is called.  The name part of a pattern is not checked
    before the enumeration: it is read by the name filter, on the
    identifiers a lister has returned, and its syntax error is the error
    of that task; every lister is called all the same, and the pass
    fails with the first failure among the results it receives, under
    the name of the resource of that task.  When every result is
    received, a task that fails makes the pass fail. *)
Theorem malformed_pattern_detection
        (resources : list Resource) (h : history) :
  (forall e,
      filterResources resources includedResources = Err e ->
      MalformedPattern e /\ pass resources h = (h, Err e)) /\
  (forall allowed r e,
      includedResources <> [] ->
      allowedTypes includedResources [] = Ok allowed ->
      In r resources -> matchesAnyType allowed (Name r) = Err e ->
      filterResources resources includedResources = Err ErrBadPattern) /\
  (forall r lister ids id e,
      ListIDsFunc r = Some lister -> lister ctx client listerData = Ok ids ->
      In id ids ->
      filterResourceByName (Name r) (cleanID provider id) includedResources = Err e ->
      err (outcome r) = Some ErrBadPattern) /\
  (forall selected,
      filterResources resources includedResources = Ok selected ->
      (exists rest, fst (pass resources h) = h ++ listerCalls selected ++ rest) /\
      (forall name e,
          firstFailure (arrival (map outcome selected)) = Some (name, e) ->
          pass resources h =
          (h ++ listerCalls selected, Err (ErrFailedToGenerate name e))) /\
      (lossless arrival ->
       forall r e,
         In r selected -> err (outcome r) = Some e ->
         exists r' e',
           In r' selected /\ err (outcome r') = Some e' /\
           firstFailure (arrival (map outcome selected)) = Some (Name r', e'))).
Proof.
  split; [|split; [|split]].
  - intros e He. split; [now apply filterResources_err in He|].
    now apply pass_filter_error.
  - intros allowed r e Hne Ha Hin He. unfold filterResources.
    destruct includedResources as [|s rest]; [congruence|].
    rewrite Ha, keepMatching_spec.
    replace (existsb (rejects allowed) resources) with true; [reflexivity|].
    symmetry. apply existsb_exists. exists r. split; [exact Hin|].
    unfold rejects. now rewrite He.
  - intros r lister ids id e Hl Hids Hin He. unfold outcome.
    rewrite Hl, Hids.
    now rewrite (importBlocks_err (Name r) ids id e [] Hin He).
  - intros selected Hf. split; [now apply pass_calls_every_lister|].
    split; [intros name e; now apply pass_on_first_failure|].
    intros Hall r e Hin Hr.
    destruct (pass_fails resources selected h Hall Hf)
      as (r' & e' & Hin' & Hr' & Hfirst & _).
    { apply Exists_exists. exists r. split; [exact Hin | congruence]. }
    exists r', e'. auto.
Qed.

(** C3, as the code has it: every lister of the selected resources is
    called, whatever the listers answer (no task is cancelled), and the
    error of the pass is the first failure in the order in which the
    results come out of the channel, under the name of the resource
    whose task failed; the other errors are dropped.  When every task
    has reported, that is when every result is received, a task that
    fails makes the pass fail in this way. *)
Theorem first_arrived_failure_is_returned
        (resources selected : list Resource) (h : history) :
  filterResources resources includedResources = Ok selected ->
  (forall r', In r' selected -> ListIDsFunc r' <> None ->
              In (call_ListIDs (Name r')) (fst (pass resources h))) /\
  (forall name e,
      firstFailure (arrival (map outcome selected)) = Some (name, e) ->
      pass resources h =
      (h ++ listerCalls selected, Err (ErrFailedToGenerate name e))) /\
  (lossless arrival ->
   Exists (fun r => err (outcome r) <> None) selected ->
   exists r e,
     In r selected /\ err (outcome r) = Some e /\
     firstFailure (arrival (map outcome selected)) = Some (Name r, e) /\
     pass resources h =
     (h ++ listerCalls selected, Err (ErrFailedToGenerate (Name r) e))).
Proof.
  intros Hf. split; [|split].
  - intros r' Hin' Hl.
    destruct (pass_calls_every_lister resources selected h Hf) as (rest & ->).
    apply in_or_app. right. apply in_or_app. left.
    now apply listerCalls_all.
  - intros name e. now apply pass_on_first_failure.
  - intros Hall Hex.
    destruct (pass_fails resources selected h Hall Hf Hex)
      as (r & e & Hin & Hr & Hfirst & Hp).
    exists r, e. auto.
Qed.

(** C5, as the code has it: when every result is received, the lister
    of one selected resource returns an error and the task of every
    other selected resource ends without an error, the pass returns that
    error under the name of that resource; the listers are the only
    calls made: no file is written and the tool is not run. *)
Theorem single_lister_failure_is_all_or_nothing
        (resources selected : list Resource) (h : history)
        (r : Resource)
        (lister : Ctx -> Client -> ListerData -> result (list string))
        (e : error) :
  lossless arrival ->
  filterResources resources includedResources = Ok selected ->
  In r selected ->
  ListIDsFunc r = Some lister ->
  lister ctx client listerData = Err e ->
  (forall r', In r' selected -> r' = r \/ err (outcome r') = None) ->
  pass resources h =
  (h ++ listerCalls selected, Err (ErrFailedToGenerate (Name r) e)) /\
  writtenBlocks (fst (pass resources h)) = writtenBlocks h /\
  toolRuns (fst (pass resources h)) = toolRuns h.
Proof.
  intros Hperm Hf Hin Hl He Hothers.
  assert (Hr : err (outcome r) = Some e).
  { unfold outcome. now rewrite Hl, He. }
  destruct (pass_fails resources selected h Hperm Hf)
    as (r' & e' & Hin' & Hr' & _ & Hp).
  { apply Exists_exists. exists r. split; [exact Hin | congruence]. }
  assert (r' = r) as ->.
  { destruct (Hothers r' Hin') as [? | Hnone]; [assumption | congruence]. }
  assert (e' = e) as -> by congruence.
  rewrite Hp. cbn [fst]. rewrite writtenBlocks_app, toolRuns_app.
  destruct (listerCalls_quiet selected) as [-> ->].
  now rewrite !app_nil_r.
Qed.

End Failures.

(* ================================================================== *)
(** * The order of the blocks *)

Section Ordering.
Context {Ctx Client ListerData CloudConfig : Type}.
#[local] Abbreviation Resource := (Resource Ctx Client ListerData).
#[local] Abbreviation taskResult := (taskResult Ctx Client ListerData).

Variable world : World CloudConfig.
Variable filepath_Join : list string -> string.
Variables (ctx : Ctx) (client : Client) (listerData : ListerData).
Variables (outPath provider : string) (includedResources : list string).
#[local] Abbreviation kept := (kept provider includedResources).
#[local] Abbreviation blockOf := (blockOf provider).
#[local] Abbreviation outcome :=
  (outcome ctx client listerData provider includedResources).
#[local] Abbreviation materialize :=
  (materialize world filepath_Join outPath provider).
#[local] Abbreviation importsFile := (importsFile filepath_Join outPath provider).
#[local] Abbreviation pass :=
  (fun arrival resources =>
     generateImportBlocks world filepath_Join arrival ctx client listerData
                          resources outPath provider includedResources).
#[local] Abbreviation nameOf := (fun t : taskResult => Name (resource t)).

Lemma importBlock_fields (name cleanedID id : string) :
  importTo (importBlock name cleanedID id provider) = Some (name ++ "." ++ cleanedID)%string /\
  importID (importBlock name cleanedID id provider) = Some id.
Proof.
  unfold importBlock. destruct (provider =? "")%string; cbn; auto.
Qed.

Lemma materialize_written (allBlocks : list Block) (h : history) :
  writtenBlocks (fst (materialize allBlocks h)) =
  writtenBlocks h ++ [(importsFile, allBlocks)].
Proof.
  destruct (materialize_trace world filepath_Join outPath provider allBlocks h)
    as (rest & -> & Hrest).
  rewrite writtenBlocks_app. f_equal. cbn. f_equal.
  induction Hrest as [|c rest Hc _ IH]; [reflexivity|].
  cbn. destruct c; try contradiction; exact IH.
Qed.

Lemma names_of_outcomes (selected : list Resource) :
  map nameOf (map outcome selected) = map Name selected.
Proof.
  rewrite map_map. apply map_ext. intros r.
  now rewrite (outcome_resource ctx client listerData provider includedResources r).
Qed.

(** When every result is received, the results are sorted into one
    order, whatever the channel order and the order of the catalog. *)
Lemma sorted_results_unique
      (arrival1 arrival2 : list taskResult -> list taskResult)
      (selected selected' : list Resource) :
  lossless arrival1 ->
  lossless arrival2 ->
  Permutation selected selected' ->
  NoDup (map Name selected) ->
  sort.Slice lessByName (arrival1 (map outcome selected)) =
  sort.Slice lessByName (arrival2 (map outcome selected')).
Proof.
  intros H1 H2 Hp Hnd.
  change (@lessByName Ctx Client ListerData) with (lessByKey nameOf).
  apply Slice_unique.
  - rewrite <- H1, <- H2. now apply Permutation_map.
  - eapply Permutation_NoDup; [apply Permutation_map, H1|].
    now rewrite names_of_outcomes.
Qed.

(** What a pass has written when it has written: every result that was
    received is a success, and the blocks are those of the results
    received, sorted. *)
Lemma written_by_pass
      (arrival : list taskResult -> list taskResult)
      (resources selected : list Resource) (h : history) (added : list call)
      (file : string) (bs : list Block) :
  filterResources resources includedResources = Ok selected ->
  fst (pass arrival resources h) = h ++ added ->
  In (file, bs) (writtenBlocks added) ->
  Forall succeeded (arrival (map outcome selected)) /\
  file = importsFile /\
  bs = concat (map blocks (sort.Slice lessByName (arrival (map outcome selected)))).
Proof.
  intros Hf Hadded Hfile. cbv beta in Hadded.
  destruct (first_failure (arrival (map outcome selected)))
    as [Hall | (pre & x & e & post & Ha & Hpre & Hx)].
  - split; [exact Hall|].
    assert (Hw : writtenBlocks (h ++ added) =
                 writtenBlocks h ++
                 [(importsFile,
                   concat (map blocks (sort.Slice lessByName
                                         (arrival (map outcome selected)))))]).
    { rewrite <- Hadded.
      rewrite (pass_success world filepath_Join arrival ctx client listerData
                 outPath provider includedResources resources selected h Hf Hall).
      rewrite materialize_written, writtenBlocks_app.
      destruct (listerCalls_quiet selected) as [-> _]. now rewrite app_nil_r. }
    rewrite writtenBlocks_app in Hw. apply app_inv_head in Hw.
    rewrite Hw in Hfile. destruct Hfile as [Heq | []].
    now inversion Heq.
  - exfalso.
    rewrite (pass_task_error world filepath_Join arrival ctx client listerData
               outPath provider includedResources resources selected
               pre post x e h Hf Ha Hpre Hx) in Hadded.
    cbn [fst] in Hadded. apply app_inv_head in Hadded. subst added.
    destruct (listerCalls_quiet selected) as [Hq _]. rewrite Hq in Hfile.
    destruct Hfile.
Qed.

(** The names of the results received are all different when the names
    of the catalog are. *)
Lemma received_names_distinct
      (arrival : list taskResult -> list taskResult) (selected : list Resource) :
  lossy arrival -> NoDup (map Name selected) ->
  NoDup (map nameOf (arrival (map outcome selected))).
Proof.
  intros Hlossy Hnd. destruct (Hlossy (map outcome selected)) as (lost & Hp).
  assert (Hall : NoDup (map nameOf (arrival (map outcome selected) ++ lost))).
  { eapply Permutation_NoDup; [apply Permutation_map; exact Hp|].
    now rewrite names_of_outcomes. }
  rewrite map_app in Hall. now apply NoDup_app_remove_r in Hall.
Qed.

Lemma sent_by_selected
      (arrival : list taskResult -> list taskResult) (selected : list Resource)
      (t : taskResult) :
  lossy arrival -> In t (arrival (map outcome selected)) ->
  exists r, In r selected /\ t = outcome r.
Proof.
  intros Hlossy Ht.
  pose proof (received_was_sent arrival (map outcome selected) t Hlossy Ht) as Hin.
  apply in_map_iff in Hin. destruct Hin as (r & <- & Hr). now exists r.
Qed.

(** The blocks of a result that is a success are those of the
    identifiers the name filter keeps, in the order of the lister. *)
Lemma blocks_in_lister_order
      (r : Resource)
      (lister : Ctx -> Client -> ListerData -> result (list string))
      (ids : list string) :
  ListIDsFunc r = Some lister -> lister ctx client listerData = Ok ids ->
  err (outcome r) = None ->
  blocks (outcome r) = map (blockOf (Name r)) (filter (kept (Name r)) ids).
Proof.
  intros Hl Hids. unfold outcome. rewrite Hl, Hids.
  destruct (importBlocks (Name r) provider includedResources ids [])
    as [bs|e] eqn:Hbs; [|discriminate].
  intros _. cbn [blocks]. now apply (importBlocks_ok provider includedResources).
Qed.

(** When every result is received and every task ends without an
    error, the blocks written are those of the selected resources in the
    order of their names, whatever the order of the catalog and the order
    in which the results arrive.  For a catalog in which no two resources
    have the same name. *)
Theorem written_blocks_sorted_by_name
        (arrival1 arrival2 : list taskResult -> list taskResult)
        (resources resources' selected : list Resource) (h : history) :
  lossless arrival1 -> lossless arrival2 ->
  Permutation resources resources' ->
  NoDup (map Name resources) ->
  filterResources resources includedResources = Ok selected ->
  Forall (fun r => err (outcome r) = None) selected ->
  exists ordered,
    Permutation ordered selected /\
    StronglySorted (fun a b => (Name a <? Name b)%string = true) ordered /\
    writtenBlocks (fst (pass arrival1 resources h)) =
    writtenBlocks h ++
      [(importsFile, concat (map (fun r => blocks (outcome r)) ordered))] /\
    writtenBlocks (fst (pass arrival2 resources' h)) =
    writtenBlocks (fst (pass arrival1 resources h)).
Proof.
  intros H1 H2 Hp Hnd Hf Hnone.
  pose proof (filterResources_perm resources resources' includedResources Hp) as Hf'.
  rewrite Hf in Hf'.
  destruct (filterResources resources' includedResources) as [selected'|e'] eqn:Hf2;
    [|contradiction].
  assert (Hnd' : NoDup (map Name selected)).
  { rewrite (filterResources_ok _ _ _ Hf). now apply selected_names_distinct. }
  assert (Hall : Forall succeeded (arrival1 (map outcome selected))).
  { rewrite Forall_forall. intros t Ht.
    destruct (sent_by_selected arrival1 selected t
                (lossless_is_lossy arrival1 H1) Ht) as (r & Hr & ->).
    rewrite Forall_forall in Hnone. now apply Hnone. }
  assert (Hall' : Forall succeeded (arrival2 (map outcome selected'))).
  { rewrite Forall_forall. intros t Ht.
    destruct (sent_by_selected arrival2 selected' t
                (lossless_is_lossy arrival2 H2) Ht) as (r & Hr & ->).
    rewrite Forall_forall in Hnone. apply Hnone.
    eapply Permutation_in; [symmetry; exact Hf' | exact Hr]. }
  set (sorted := sort.Slice lessByName (arrival1 (map outcome selected))).
  assert (Hsp : Permutation sorted (map outcome selected)).
  { unfold sorted. change (@lessByName Ctx Client ListerData) with (lessByKey nameOf).
    eapply Permutation_trans; [apply Slice_perm|]. symmetry. apply H1. }
  assert (Hw : writtenBlocks (fst (pass arrival1 resources h)) =
               writtenBlocks h ++ [(importsFile, concat (map blocks sorted))]).
  { cbv beta.
    rewrite (pass_success world filepath_Join arrival1 ctx client listerData
               outPath provider includedResources resources selected h Hf Hall).
    rewrite materialize_written, writtenBlocks_app.
    destruct (listerCalls_quiet selected) as [-> _]. now rewrite app_nil_r. }
  exists (map resource sorted). split; [|split; [|split]].
  - eapply Permutation_trans; [apply Permutation_map; exact Hsp|].
    rewrite map_map.
    rewrite (map_ext_in _ (fun r => r)); [rewrite map_id; apply Permutation_refl|].
    intros r _. apply outcome_resource.
  - assert (Hs : StronglySorted (fun a b => (nameOf a <? nameOf b)%string = true)
                                sorted).
    { apply (sorted_strictly nameOf).
      - unfold sorted.
        change (@lessByName Ctx Client ListerData) with (lessByKey nameOf).
        apply Slice_sorted.
      - eapply Permutation_NoDup;
          [apply Permutation_map; symmetry; exact Hsp|].
        now rewrite names_of_outcomes. }
    clear - Hs. induction Hs as [|t l _ IH Ht]; [constructor|].
    cbn [map]. constructor; [exact IH|].
    rewrite Forall_forall in Ht |- *. intros r Hr.
    apply in_map_iff in Hr. destruct Hr as (u & <- & Hu). now apply Ht.
  - rewrite Hw.
    replace (concat (map (fun r => blocks (outcome r)) (map resource sorted)))
      with (concat (map blocks sorted)); [reflexivity|].
    f_equal. rewrite map_map. apply map_ext_in.
    intros t Ht.
    assert (Hin : In t (map outcome selected))
      by (eapply Permutation_in; [exact Hsp | exact Ht]).
    apply in_map_iff in Hin. destruct Hin as (r & <- & _).
    now rewrite outcome_resource.
  - rewrite Hw. cbv beta.
    rewrite (pass_success world filepath_Join arrival2 ctx client listerData
               outPath provider includedResources resources' selected' h Hf2 Hall').
    rewrite materialize_written, writtenBlocks_app.
    destruct (listerCalls_quiet selected') as [-> _]. rewrite app_nil_r.
    unfold sorted.
    now rewrite (sorted_results_unique arrival1 arrival2 selected selected'
                   H1 H2 Hf' Hnd').
Qed.

(** C9: in the imports file the blocks of one resource type stand
    together, in the order in which the lister returned their
    identifiers, with the identifiers the name filter drops left out.
    The sort is over the results of the tasks, by the name of their
    resource: whenever a pass writes its blocks, the blocks of the
    results with a name before that of the type come first, those of the
    results with a name after it come last, and between them stand the
    blocks of the type, as the task built them (none if the result of the
    type is not among the results received).  For a catalog in which no
    two resources have the same name. *)
Theorem lister_order_is_kept
        (arrival : list taskResult -> list taskResult)
        (resources selected : list Resource) (h : history)
        (added : list call) (file : string) (bs : list Block)
        (r : Resource)
        (lister : Ctx -> Client -> ListerData -> result (list string))
        (ids : list string) :
  lossy arrival ->
  NoDup (map Name resources) ->
  filterResources resources includedResources = Ok selected ->
  In r selected ->
  ListIDsFunc r = Some lister ->
  lister ctx client listerData = Ok ids ->
  fst (pass arrival resources h) = h ++ added ->
  In (file, bs) (writtenBlocks added) ->
  exists pre post,
    Forall (fun t => (Name (resource t) <? Name r)%string = true) pre /\
    Forall (fun t => (Name r <? Name (resource t))%string = true) post /\
    ((Permutation (pre ++ outcome r :: post) (arrival (map outcome selected)) /\
      bs = concat (map blocks pre) ++
           map (blockOf (Name r)) (filter (kept (Name r)) ids) ++
           concat (map blocks post) /\
      map importID (map (blockOf (Name r)) (filter (kept (Name r)) ids)) =
      map Some (filter (kept (Name r)) ids)) \/
     (Permutation (pre ++ post) (arrival (map outcome selected)) /\
      bs = concat (map blocks pre) ++ concat (map blocks post))).
Proof.
  intros Hlossy Hnd Hf Hin Hl Hids Hadded Hfile.
  destruct (written_by_pass arrival resources selected h added file bs
              Hf Hadded Hfile) as (Hall & _ & ->).
  assert (Hnd' : NoDup (map Name selected)).
  { rewrite (filterResources_ok _ _ _ Hf). now apply selected_names_distinct. }
  set (sorted := sort.Slice lessByName (arrival (map outcome selected))).
  assert (Hsp : Permutation sorted (arrival (map outcome selected))).
  { unfold sorted. change (@lessByName Ctx Client ListerData) with (lessByKey nameOf).
    apply Slice_perm. }
  assert (Hss : StronglySorted (notAfter nameOf) sorted).
  { unfold sorted. change (@lessByName Ctx Client ListerData) with (lessByKey nameOf).
    apply Slice_sorted. }
  assert (Hsn : NoDup (map nameOf sorted)).
  { eapply Permutation_NoDup; [apply Permutation_map; symmetry; exact Hsp|].
    now apply received_names_distinct. }
  destruct (sorted_around nameOf (Name r) sorted Hss Hsn)
    as (pre & post & Hpre & Hpost & Hsplit).
  exists pre, post. split; [exact Hpre|]. split; [exact Hpost|].
  destruct Hsplit as [Hs | (x & Hx & Hs)].
  - right. split; [now rewrite <- Hs|].
    now rewrite Hs, map_app, concat_app.
  - left.
    assert (Hxin : In x (arrival (map outcome selected))).
    { eapply Permutation_in; [exact Hsp|]. rewrite Hs. apply in_elt. }
    destruct (sent_by_selected arrival selected x Hlossy Hxin) as (r' & Hr' & ->).
    rewrite outcome_resource in Hx.
    assert (r' = r) as -> by (now apply (key_inj_NoDup Name selected)).
    assert (Hok : err (outcome r) = None).
    { rewrite Forall_forall in Hall. now apply Hall. }
    split; [now rewrite <- Hs|]. split.
    + rewrite Hs, map_app, concat_app. cbn [map concat].
      now rewrite (blocks_in_lister_order r lister ids Hl Hids Hok).
    + rewrite map_map. apply map_ext. intros id.
      apply (importBlock_fields (Name r) (cleanID provider id) id).
Qed.

End Ordering.

(* ================================================================== *)
(** * The output directory *)

Section Directory.
Context {Ctx CloudConfig : Type}.

Variable world : World CloudConfig.
Variable filepath_Join : list string -> string.

Lemma appends_ret {A : Type} (a : A) : appends (ret a).
Proof. intros h. exists []. cbn. now rewrite app_nil_r. Qed.

Lemma appends_fail {A : Type} (e : error) : appends (@fail A e).
Proof. intros h. exists []. cbn. now rewrite app_nil_r. Qed.

Lemma appends_perform {A : Type} (c : call) (answer : history -> A) :
  appends (perform c answer).
Proof. intros h. now exists [c]. Qed.

Lemma appends_check (wrap : error -> error) (err : option error) :
  appends (check wrap err).
Proof. destruct err; [apply appends_fail | apply appends_ret]. Qed.

Lemma appends_liftResult {A : Type} (r : result A) : appends (liftResult r).
Proof. destruct r; [apply appends_ret | apply appends_fail]. Qed.

Lemma appends_bind {A B : Type} (m : M A) (k : A -> M B) :
  appends m -> (forall a, appends (k a)) -> appends (bind m k).
Proof.
  intros Hm Hk h. unfold bind. destruct (Hm h) as (rest & Hr).
  destruct (m h) as [h' [a|e]]; cbn [fst] in Hr; subst h'.
  - destruct (Hk a (h ++ rest)) as (rest' & ->).
    exists (rest ++ rest'). now rewrite app_assoc.
  - now exists rest.
Qed.

Lemma appends_forEach {A : Type} (f : A -> M unit) (l : list A) :
  (forall a, appends (f a)) -> appends (forEach f l).
Proof.
  intros Hf. induction l as [|a l IH]; cbn [forEach].
  - apply appends_ret.
  - apply appends_bind; auto.
Qed.

Ltac solve_appends :=
  repeat first
         [ apply appends_ret
         | apply appends_fail
         | apply appends_perform
         | apply appends_check
         | apply appends_liftResult
         | apply appends_forEach; intros
         | apply appends_bind; [|intros]
         | match goal with
           | |- appends (match ?x with _ => _ end) => destruct x
           end ].

(** A call is recorded first, then what follows it. *)
Lemma perform_first {A B : Type} (c : call) (answer : history -> A)
      (k : A -> M B) (h : history) :
  (forall a, appends (k a)) ->
  exists rest, fst (bind (perform c answer) k h) = h ++ c :: rest.
Proof.
  intros Hk. unfold bind, perform.
  destruct (Hk (answer h) (h ++ [c])) as (rest & ->).
  exists rest. now rewrite <- app_assoc.
Qed.

(** C8: the preparation of the output directory in [Generate].  When the
    directory exists and the clobber flag is set, it is deleted and then
    created again (and a failed deletion ends [Generate] at once); when
    it exists and the flag is not set, [Generate] fails with the error
    that says so, having done nothing but look at the directory; when it
    does not exist, it is created. *)
Theorem directory_preparation (ctx : Ctx) (cfg : Config CloudConfig) (h : history) :
  let dir := OutputDir cfg in
  let h1 := h ++ [call_Stat dir] in
  (os_Stat world h dir = None -> Clobber cfg = true ->
   (os_RemoveAll world h1 dir = None ->
    exists rest,
      fst (Generate world filepath_Join ctx cfg h) =
      h1 ++ call_RemoveAll dir :: call_MkdirAll dir perm0755 :: rest) /\
   (forall e, os_RemoveAll world h1 dir = Some e ->
              Generate world filepath_Join ctx cfg h =
              (h1 ++ [call_RemoveAll dir], Err (ErrFailedToDelete dir e)))) /\
  (os_Stat world h dir = None -> Clobber cfg = false ->
   Generate world filepath_Join ctx cfg h = (h1, Err (ErrOutputDirExists dir))) /\
  (forall e, os_Stat world h dir = Some e ->
             exists rest,
               fst (Generate world filepath_Join ctx cfg h) =
               h1 ++ call_MkdirAll dir perm0755 :: rest).
Proof.
  intros dir h1.
  split; [intros Hstat Hclobber; split; [intros Hrm | intros e Hrm]
         | split; [intros Hstat Hclobber | intros e Hstat]];
    unfold Generate; fold dir; unfold bind at 1, perform at 1; fold h1;
    rewrite Hstat; try rewrite Hclobber.
  - unfold bind at 1. unfold bind at 1, perform at 1. rewrite Hrm.
    cbn [check ret].
    match goal with
    | |- exists rest, fst (bind (perform ?c ?f) ?k ?h0) = _ =>
        destruct (perform_first c f k h0) as (rest & Hr)
    end.
    { intros a. unfold grafanaPass. solve_appends. }
    exists rest. rewrite Hr. now rewrite <- app_assoc.
  - unfold bind at 1. unfold bind at 1, perform at 1. rewrite Hrm.
    reflexivity.
  - reflexivity.
  - unfold bind at 1. cbn [ret].
    match goal with
    | |- exists rest, fst (bind (perform ?c ?f) ?k ?h0) = _ =>
        destruct (perform_first c f k h0) as (rest & Hr)
    end.
    { intros a. unfold grafanaPass. solve_appends. }
    exists rest. exact Hr.
Qed.

End Directory.

(* ================================================================== *)
(** * Local names, addresses and the name filter *)

Section Names.
Context {Ctx Client ListerData CloudConfig : Type}.
#[local] Abbreviation Resource := (Resource Ctx Client ListerData).
#[local] Abbreviation taskResult := (taskResult Ctx Client ListerData).



Lemma append_assoc (s t u : string) :
  ((s ++ t) ++ u)%string = (s ++ t ++ u)%string.
Proof. induction s as [|c s IH]; cbn; congruence. Qed.



(** The filter is not applied to the identifier as the lister returned
    it: with no alias, the identifier [a.b] of a type [t] passes the
    pattern [t._a_b] and does not pass the pattern [t.a.b]. *)
Example name_filter_on_a_raw_identifier :
  kept "" ["t._a_b"] "t" "a.b" = true /\ kept "" ["t.a.b"] "t" "a.b" = false.
Proof. split; reflexivity. Qed.

(** C2, as the code has it: the sanitization replaces the characters
    outside [A-Za-z0-9_-], and only them, by an underscore.  Read one
    rune at a time: a byte of the class is kept, and any other byte
    starts a rune that is replaced, whole, by one underscore; so on an
    ASCII identifier every byte stays or becomes an underscore, and the
    result has bytes of the class only.  The [id] field of every block a
    task emits is the identifier as the lister returned it.  The local
    name in the [to] field is the sanitized identifier after the prefix
    of the alias: nothing under the alias ["cloud"], and under any other
    alias, the empty one included, the alias with its hyphens turned into
    underscores and an underscore.  So [my/weird id] is sanitized to
    [my_weird_id], and its local name is [my_weird_id] under the alias
    ["cloud"] only. *)
Theorem sanitized_name_original_id
        (resourceName provider : string) (includedResources ids : list string)
        (blocks : list Block) :
  importBlocks resourceName provider includedResources ids [] = Ok blocks ->
  let emitted := filter (kept provider includedResources resourceName) ids in
  let prefix :=
    if (provider =? "cloud")%string then EmptyString
    else (ReplaceAllByte provider "-" "_" ++ "_")%string in
  (forall c t,
      sanitize (String c t) =
      if allowedByte c then String c (sanitize t)
      else String "_"
             (sanitize (drop (snd (utf8.DecodeRuneInString (String c t)) - 1) t))) /\
  (forall id, Forall_bytes isASCII id = true ->
              sanitize id = mapBytes sanitizeByte id) /\
  (forall id, Forall_bytes allowedByte (sanitize id) = true) /\
  map importID blocks = map Some emitted /\
  map importTo blocks =
  map (fun id => Some (resourceName ++ "." ++ prefix ++ sanitize id)%string)
      emitted /\
  (forall id, cleanID provider id = (prefix ++ sanitize id)%string) /\
  sanitize "my/weird id" = "my_weird_id" /\
  importID (blockOf provider resourceName "my/weird id") = Some "my/weird id" /\
  importTo (blockOf provider resourceName "my/weird id") =
  Some (resourceName ++ "." ++ prefix ++ "my_weird_id")%string.
Proof.
  intros Hb emitted prefix.
  assert (Hclean : forall id, cleanID provider id = (prefix ++ sanitize id)%string).
  { intros id. unfold cleanID, prefix. fold (sanitize id).
    destruct (provider =? "cloud")%string; cbn [negb]; [reflexivity|].
    now rewrite append_assoc. }
  apply importBlocks_ok in Hb. subst blocks. fold emitted.
  split; [apply sanitize_step|]. split; [apply sanitize_ascii|].
  split; [apply sanitize_allowed|].
  split.
  { rewrite map_map. apply map_ext. intros id.
    apply (importBlock_fields provider). }
  split.
  { rewrite map_map. apply map_ext. intros id. rewrite <- Hclean.
    apply (importBlock_fields provider). }
  split; [exact Hclean|]. split; [reflexivity|].
  split; [apply (importBlock_fields provider)|].
  change "my_weird_id" with (sanitize "my/weird id"). rewrite <- Hclean.
  apply (importBlock_fields provider).
Qed.

End Names.

(* ================================================================== *)
(** * The scenario of the two resource types *)

Section Scenario.
Context {Ctx Client ListerData CloudConfig : Type}.
#[local] Abbreviation Resource := (Resource Ctx Client ListerData).
#[local] Abbreviation taskResult := (taskResult Ctx Client ListerData).

Variable world : World CloudConfig.
Variable filepath_Join : list string -> string.
Variable arrival : list taskResult -> list taskResult.
Variables (ctx : Ctx) (client : Client) (listerData : ListerData).

(** C1, as the code has it: the sanitized name is prefixed with the
    underscored alias and an underscore whenever the alias is not
    ["cloud"], also when the alias is empty, where the prefix is the
    underscore alone; only under the alias ["cloud"] is the address
    [<resourceType>.<sanitizedID>].  So for the catalog with [dashboard],
    whose lister returns [abc], and [folder], whose lister returns [xyz],
    with no filter and no alias, the import blocks are the two with the
    addresses [dashboard._abc] and [folder._xyz] and the identifiers
    [abc] and [xyz]: the pass writes no other block, and it writes
    exactly these two, in this order, when the results of both tasks are
    received. *)
Theorem alias_prefix_in_addresses
        (dashboardLister folderLister :
           Ctx -> Client -> ListerData -> result (list string))
        (outPath : string) (h : history) :
  lossy arrival ->
  dashboardLister ctx client listerData = Ok ["abc"] ->
  folderLister ctx client listerData = Ok ["xyz"] ->
  let catalog := [mkResource "dashboard" (Some dashboardLister);
                  mkResource "folder" (Some folderLister)] in
  let b1 := importBlock "dashboard" "_abc" "abc" "" in
  let b2 := importBlock "folder" "_xyz" "xyz" "" in
  (forall added file bs b,
      fst (generateImportBlocks world filepath_Join arrival ctx client listerData
             catalog outPath "" [] h) = h ++ added ->
      In (file, bs) (writtenBlocks added) -> In b bs ->
      b = b1 \/ b = b2) /\
  (lossless arrival ->
   exists rest,
     fst (generateImportBlocks world filepath_Join arrival ctx client listerData
            catalog outPath "" [] h) =
     h ++ [call_ListIDs "dashboard"; call_ListIDs "folder";
           call_writeBlocks (filepath_Join [outPath; "imports.tf"]) [b1; b2]]
       ++ rest) /\
  importTo b1 = Some "dashboard._abc" /\ importID b1 = Some "abc" /\
  importTo b2 = Some "folder._xyz" /\ importID b2 = Some "xyz" /\
  (forall provider id,
      cleanID provider id =
      if (provider =? "cloud")%string then sanitize id
      else (ReplaceAllByte provider "-" "_" ++ "_" ++ sanitize id)%string) /\
  (forall id, cleanID "" id = ("_" ++ sanitize id)%string) /\
  (forall name provider id,
      importTo (blockOf provider name id) =
      Some (name ++ "." ++ cleanID provider id)%string).
Proof.
  intros Hlossy Hd Hf catalog b1 b2.
  set (o1 := mkTaskResult (mkResource "dashboard" (Some dashboardLister)) [b1] None).
  set (o2 := mkTaskResult (mkResource "folder" (Some folderLister)) [b2] None).
  assert (Ho : map (outcome ctx client listerData "" []) catalog = [o1; o2]).
  { unfold catalog, outcome. cbn [map ListIDsFunc Name]. now rewrite Hd, Hf. }
  split; [|split; [|repeat split]].
  - intros added file bs b Hadded Hfile Hb.
    destruct (written_by_pass world filepath_Join ctx client listerData outPath
                "" [] arrival catalog catalog h added file bs eq_refl
                Hadded Hfile) as (_ & _ & ->).
    apply in_concat in Hb. destruct Hb as (l & Hl & Hb).
    apply in_map_iff in Hl. destruct Hl as (t & <- & Ht).
    assert (Ht' : In t [o1; o2]).
    { rewrite <- Ho.
      apply (received_was_sent arrival _ t Hlossy).
      eapply Permutation_in; [|exact Ht].
      change (@lessByName Ctx Client ListerData)
        with (lessByKey (fun t : taskResult => Name (resource t))).
      apply Slice_perm. }
    destruct Ht' as [<- | [<- | []]]; cbn [blocks] in Hb;
      destruct Hb as [<- | []]; auto.
  - intros Hperm.
    assert (Hsucc : Forall succeeded
                      (arrival (map (outcome ctx client listerData "" []) catalog))).
    { rewrite Forall_forall. intros t Ht.
      assert (Ht' : In t [o1; o2]).
      { rewrite <- Ho. eapply Permutation_in; [symmetry; apply Hperm | exact Ht]. }
      destruct Ht' as [<- | [<- | []]]; reflexivity. }
    rewrite (pass_success world filepath_Join arrival ctx client listerData
               outPath "" [] catalog catalog h eq_refl Hsucc).
    rewrite (sorted_results_unique ctx client listerData "" []
               arrival (fun l => l) catalog catalog Hperm
               (fun l => Permutation_refl l) (Permutation_refl _)).
    + rewrite Ho.
      destruct (materialize_trace world filepath_Join outPath ""
                  (concat (map blocks (sort.Slice lessByName [o1; o2])))
                  (h ++ listerCalls catalog)) as (rest & -> & _).
      exists rest. rewrite <- !app_assoc. reflexivity.
    + cbn. repeat constructor; cbn; intuition discriminate.
  - intros provider id. unfold cleanID. now destruct (provider =? "cloud")%string.
  - intros name provider id. apply (importBlock_fields provider).
Qed.

End Scenario.

(* ================================================================== *)
(** * The claims on the fixtures *)

Module OnFixtures.
Import Fixture.

Lemma inOrder_perm (l : list (taskResult unit unit unit)) :
  Permutation l (inOrder l).
Proof. apply Permutation_refl. Qed.

Lemma reversed_perm (l : list (taskResult unit unit unit)) :
  Permutation l (reversed l).
Proof. apply Permutation_rev. Qed.

Lemma inOrder_lossless : lossless inOrder.
Proof. exact inOrder_perm. Qed.

Lemma reversed_lossless : lossless reversed.
Proof. exact reversed_perm. Qed.

Lemma inOrder_lossy : lossy inOrder.
Proof. intros l. exists []. rewrite app_nil_r. apply Permutation_refl. Qed.

Lemma firstLost_lossy : lossy firstLost.
Proof.
  intros [|t l]; [exists []; constructor|].
  exists [t]. cbn [firstLost tl]. apply Permutation_cons_append.
Qed.

(** With the race lost by the task of [folder], which [reversed catalog]
    starts first, the same catalog gives another output: the claim of
    C7 fails on the code. *)
Lemma lost_result_changes_the_output :
  let full := generateImportBlocks quietWorld joinPath inOrder tt tt tt
                                   catalog "out" "" [] [] in
  let short := generateImportBlocks quietWorld joinPath firstLost tt tt tt
                                    (rev catalog) "out" "" [] [] in
  lossy firstLost /\
  snd full = Ok tt /\ snd short = Ok tt /\
  map (fun written => map importTo (snd written)) (writtenBlocks (fst full)) =
  [[Some "dashboard._abc"; Some "folder._xyz"]] /\
  map (fun written => map importTo (snd written)) (writtenBlocks (fst short)) =
  [[Some "dashboard._abc"]] /\
  writtenBlocks (fst full) <> writtenBlocks (fst short).
Proof.
  split; [exact firstLost_lossy|].
  vm_compute. repeat split; discriminate.
Qed.

(** Against C2 as it was stated: with no alias the local name of
    [my/weird id] is not [my_weird_id]; an underscore stands before
    it. *)
Lemma local_name_under_no_alias :
  let run := generateImportBlocks quietWorld joinPath inOrder tt tt tt
                                  weirdCatalog "out" "" [] [] in
  sanitize "my/weird id" = "my_weird_id" /\
  map (fun written => map importTo (snd written)) (writtenBlocks (fst run)) =
  [[Some "dashboard._my_weird_id"]] /\
  map (fun written => map importTo (snd written)) (writtenBlocks (fst run)) <>
  [[Some "dashboard.my_weird_id"]] /\
  map (fun written => map importID (snd written)) (writtenBlocks (fst run)) =
  [[Some "my/weird id"]].
Proof. vm_compute. repeat split; discriminate. Qed.

(** Against C1 as it was stated: with no alias the addresses of the
    scenario are not [dashboard.abc] and [folder.xyz]; an underscore
    stands before the sanitized identifiers. *)
Lemma no_alias_still_prefixes :
  let run := generateImportBlocks quietWorld joinPath inOrder tt tt tt
                                  catalog "out" "" [] [] in
  map (fun written => map importTo (snd written)) (writtenBlocks (fst run)) =
  [[Some "dashboard._abc"; Some "folder._xyz"]] /\
  map (fun written => map importTo (snd written)) (writtenBlocks (fst run)) <>
  [[Some "dashboard.abc"; Some "folder.xyz"]] /\
  map (fun written => map importID (snd written)) (writtenBlocks (fst run)) =
  [[Some "abc"; Some "xyz"]].
Proof. vm_compute. repeat split; discriminate. Qed.

(** Against C3 as it was stated: both listers fail, the result of
    [folder] comes out of the channel first, and the error returned is
    that of [folder], while the first failing type of the catalog is
    [dashboard]. *)
Lemma failure_order_is_channel_order :
  let run := generateImportBlocks quietWorld joinPath reversed tt tt tt
                                  brokenCatalog "out" "" [] [] in
  firstFailure (map (outcome tt tt tt "" []) brokenCatalog) =
  Some ("dashboard", errorString "dashboard down") /\
  run = ([call_ListIDs "dashboard"; call_ListIDs "folder"],
         Err (ErrFailedToGenerate "folder" (errorString "folder down"))) /\
  snd run <> Err (ErrFailedToGenerate "dashboard" (errorString "dashboard down")).
Proof. vm_compute. repeat split; discriminate. Qed.

(** Against C4 as it was stated: the name part of [dashboard.[] is not
    a well-formed glob, yet the lister of [dashboard] is called before
    the pass fails; and when that lister returns no identifier the pass
    does not fail at all. *)
Lemma bad_name_glob_found_after_listing :
  filepath.Match "[" "_abc" = Err ErrBadPattern /\
  filepath.Match "dashboard.[" "dashboard._abc" = Err ErrBadPattern /\
  generateImportBlocks quietWorld joinPath inOrder tt tt tt
                       catalog "out" "" ["dashboard.["] [] =
  ([call_ListIDs "dashboard"],
   Err (ErrFailedToGenerate "dashboard" ErrBadPattern)) /\
  generateImportBlocks quietWorld joinPath inOrder tt tt tt
                       emptyCatalog "out" "" ["dashboard.["] [] =
  ([call_ListIDs "dashboard";
    call_writeBlocks "out/imports.tf" [];
    call_runTerraform "out" ["plan"; "-generate-config-out=out/resources.tf"];
    call_sortResourcesFile "out/resources.tf"],
   Ok tt).
Proof. vm_compute. repeat split. Qed.

(** Against C5 as it was stated: the lister of [dashboard] is the only
    one that fails and the lister of [folder] answers, but the task of
    [folder] fails in the name filter, its result comes out of the
    channel first, and the failure reported is not that of [dashboard]. *)
Lemma other_task_fails_in_name_filter :
  let run := generateImportBlocks quietWorld joinPath reversed tt tt tt
                                  halfBrokenCatalog "out" ""
                                  ["dashboard.*"; "folder.["] [] in
  map (fun r => match ListIDsFunc r with
                | Some lister => Some (lister tt tt tt)
                | None => None
                end) halfBrokenCatalog =
  [Some (Err (errorString "dashboard down")); Some (Ok ["xyz"])] /\
  run = ([call_ListIDs "dashboard"; call_ListIDs "folder"],
         Err (ErrFailedToGenerate "folder" ErrBadPattern)) /\
  snd run <> Err (ErrFailedToGenerate "dashboard" (errorString "dashboard down")).
Proof. vm_compute. repeat split; discriminate. Qed.

(** The scenario of C1 on the fixtures: with both results received,
    and with the result of [dashboard] lost. *)
Lemma alias_prefix_witness :
  lossy inOrder /\ lossless inOrder /\ lossy firstLost /\
  listing ["abc"] tt tt tt = Ok ["abc"] /\
  listing ["xyz"] tt tt tt = Ok ["xyz"] /\
  (exists rest,
      fst (generateImportBlocks quietWorld joinPath inOrder tt tt tt
                                catalog "out" "" [] []) =
      [] ++ [call_ListIDs "dashboard"; call_ListIDs "folder";
             call_writeBlocks (joinPath ["out"; "imports.tf"])
               [importBlock "dashboard" "_abc" "abc" "";
                importBlock "folder" "_xyz" "xyz" ""]] ++ rest) /\
  (forall added file bs b,
      fst (generateImportBlocks quietWorld joinPath firstLost tt tt tt
                                catalog "out" "" [] []) = [] ++ added ->
      In (file, bs) (writtenBlocks added) -> In b bs ->
      b = importBlock "dashboard" "_abc" "abc" "" \/
      b = importBlock "folder" "_xyz" "xyz" "").
Proof.
  split; [exact inOrder_lossy|]. split; [exact inOrder_lossless|].
  split; [exact firstLost_lossy|].
  split; [reflexivity|]. split; [reflexivity|].
  pose proof (alias_prefix_in_addresses quietWorld joinPath inOrder tt tt tt
                (listing ["abc"]) (listing ["xyz"]) "out" []
                inOrder_lossy eq_refl eq_refl) as H.
  pose proof (alias_prefix_in_addresses quietWorld joinPath firstLost tt tt tt
                (listing ["abc"]) (listing ["xyz"]) "out" []
                firstLost_lossy eq_refl eq_refl) as H'.
  cbv zeta in H, H'.
  split; [exact (proj1 (proj2 H) inOrder_lossless) | exact (proj1 H')].
Defined.

(** C2 on the identifier of the scenario, under the alias of a
    stack. *)
Lemma sanitized_name_witness :
  importBlocks "dashboard" "stack-a" [] ["my/weird id"] [] =
  Ok [importBlock "dashboard" "stack_a_my_weird_id" "my/weird id" "stack-a"] /\
  map importID
      [importBlock "dashboard" "stack_a_my_weird_id" "my/weird id" "stack-a"] =
  [Some "my/weird id"] /\
  map importTo
      [importBlock "dashboard" "stack_a_my_weird_id" "my/weird id" "stack-a"] =
  [Some "dashboard.stack_a_my_weird_id"] /\
  (forall id, cleanID "stack-a" id = ("stack_a_" ++ sanitize id)%string).
Proof.
  split; [reflexivity|].
  pose proof (sanitized_name_original_id "dashboard" "stack-a" [] ["my/weird id"]
                [importBlock "dashboard" "stack_a_my_weird_id" "my/weird id"
                             "stack-a"]
                eq_refl) as H.
  cbv zeta in H. destruct H as (_ & _ & _ & H1 & H2 & H3 & _).
  split; [exact H1|]. split; [exact H2 | exact H3].
Defined.

(** C3 on the catalog whose two listers fail, the results coming out of
    the channel in reverse. *)
Lemma first_arrived_failure_witness :
  lossless reversed /\
  filterResources brokenCatalog [] = Ok brokenCatalog /\
  Exists (fun r => err (outcome tt tt tt "" [] r) <> None) brokenCatalog /\
  firstFailure (reversed (map (outcome tt tt tt "" []) brokenCatalog)) =
  Some ("folder", errorString "folder down") /\
  generateImportBlocks quietWorld joinPath reversed tt tt tt
                       brokenCatalog "out" "" [] [] =
  ([] ++ listerCalls brokenCatalog,
   Err (ErrFailedToGenerate "folder" (errorString "folder down"))) /\
  exists r e,
    In r brokenCatalog /\ err (outcome tt tt tt "" [] r) = Some e /\
    firstFailure (reversed (map (outcome tt tt tt "" []) brokenCatalog)) =
    Some (Name r, e) /\
    generateImportBlocks quietWorld joinPath reversed tt tt tt
                         brokenCatalog "out" "" [] [] =
    ([] ++ listerCalls brokenCatalog, Err (ErrFailedToGenerate (Name r) e)).
Proof.
  assert (Hex : Exists (fun r => err (outcome tt tt tt "" [] r) <> None)
                       brokenCatalog).
  { left. cbn. discriminate. }
  pose proof (first_arrived_failure_is_returned quietWorld joinPath reversed
                tt tt tt "out" "" [] brokenCatalog brokenCatalog [] eq_refl)
    as (_ & Hfirst & Hall).
  split; [exact reversed_lossless|]. split; [reflexivity|]. split; [exact Hex|].
  split; [reflexivity|].
  split; [exact (Hfirst "folder" (errorString "folder down") eq_refl)|].
  exact (Hall reversed_lossless Hex).
Defined.

(** C4 on the scenario catalog: a type part that [filepath.Match]
    rejects. *)
Lemma malformed_pattern_witness :
  filterResources catalog ["[.abc"] = Err ErrBadPattern /\
  MalformedPattern ErrBadPattern /\
  generateImportBlocks quietWorld joinPath inOrder tt tt tt
                       catalog "out" "" ["[.abc"] [] = ([], Err ErrBadPattern).
Proof.
  split; [reflexivity|].
  exact (proj1 (malformed_pattern_detection quietWorld joinPath inOrder
                  tt tt tt "out" "" ["[.abc"] catalog [])
               ErrBadPattern eq_refl).
Defined.

(** C5 on the catalog one lister of which fails. *)
Lemma single_lister_failure_witness :
  lossless reversed /\
  filterResources halfBrokenCatalog [] = Ok halfBrokenCatalog /\
  In (mkResource "dashboard" (Some (failing "dashboard down"))) halfBrokenCatalog /\
  failing "dashboard down" tt tt tt = Err (errorString "dashboard down") /\
  generateImportBlocks quietWorld joinPath reversed tt tt tt
                       halfBrokenCatalog "out" "" [] [] =
  ([] ++ listerCalls halfBrokenCatalog,
   Err (ErrFailedToGenerate "dashboard" (errorString "dashboard down"))) /\
  writtenBlocks (fst (generateImportBlocks quietWorld joinPath reversed tt tt tt
                        halfBrokenCatalog "out" "" [] [])) = writtenBlocks [] /\
  toolRuns (fst (generateImportBlocks quietWorld joinPath reversed tt tt tt
                   halfBrokenCatalog "out" "" [] [])) = toolRuns [].
Proof.
  split; [exact reversed_lossless|]. split; [reflexivity|].
  split; [now left|]. split; [reflexivity|].
  apply (single_lister_failure_is_all_or_nothing quietWorld joinPath reversed
           tt tt tt "out" "" [] halfBrokenCatalog halfBrokenCatalog []
           (mkResource "dashboard" (Some (failing "dashboard down")))
           (failing "dashboard down") (errorString "dashboard down")
           reversed_lossless eq_refl (or_introl eq_refl) eq_refl eq_refl).
  intros r' [<- | [<- | []]]; [now left | now right].
Defined.

(** C6 on the scenario catalog. *)
Lemma entry_without_dot_witness :
  Exists (fun s => hasDot s = false) ["folder.*"; "dashboard"] /\
  exists bad,
    In bad ["folder.*"; "dashboard"] /\ hasDot bad = false /\
    filterResources catalog ["folder.*"; "dashboard"] = Err (ErrNotInFormat bad) /\
    MalformedPattern (ErrNotInFormat bad) /\
    generateImportBlocks quietWorld joinPath inOrder tt tt tt
                         catalog "out" "" ["folder.*"; "dashboard"] [] =
    ([], Err (ErrNotInFormat bad)).
Proof.
  assert (H : Exists (fun s => hasDot s = false) ["folder.*"; "dashboard"]).
  { right. left. reflexivity. }
  split; [exact H|].
  exact (proj1 (entry_without_dot_fails_before_listing quietWorld joinPath inOrder
                  tt tt tt "out" "" ["folder.*"; "dashboard"] catalog [] H)).
Defined.

(** C8 on a disk where the output directory exists, with the clobber
    flag set, and where it does not exist. *)
Lemma directory_preparation_witness :
  os_Stat (diskWorld true) [] "out" = None /\
  os_RemoveAll (diskWorld true) [call_Stat "out"] "out" = None /\
  (exists rest,
      fst (Generate (diskWorld true) joinPath tt (config true) []) =
      ([] ++ [call_Stat "out"]) ++
      call_RemoveAll "out" :: call_MkdirAll "out" perm0755 :: rest) /\
  Generate (diskWorld true) joinPath tt (config false) [] =
  ([] ++ [call_Stat "out"], Err (ErrOutputDirExists "out")) /\
  os_Stat (diskWorld false) [] "out" =
  Some (errorString "no such file or directory") /\
  (exists rest,
      fst (Generate (diskWorld false) joinPath tt (config false) []) =
      ([] ++ [call_Stat "out"]) ++ call_MkdirAll "out" perm0755 :: rest).
Proof.
  pose proof (directory_preparation (diskWorld true) joinPath tt (config true) [])
    as H1.
  pose proof (directory_preparation (diskWorld true) joinPath tt (config false) [])
    as H2.
  pose proof (directory_preparation (diskWorld false) joinPath tt (config false) [])
    as H3.
  cbv zeta in H1, H2, H3.
  split; [reflexivity|]. split; [reflexivity|].
  split; [exact (proj1 (proj1 H1 eq_refl eq_refl) eq_refl)|].
  split; [exact (proj1 (proj2 H2) eq_refl eq_refl)|].
  split; [reflexivity|].
  exact (proj2 (proj2 H3) _ eq_refl).
Defined.

(** C9 on a catalog that is not in the order of the names, for the
    type [dashboard], whose lister returns [b], [a] and [c] and whose
    name filter keeps [b] and [a]. *)
Lemma lister_order_witness :
  lossy inOrder /\
  NoDup (map Name orderCatalog) /\
  filterResources orderCatalog ["dashboard._[ab]"; "folder.*"] = Ok orderCatalog /\
  fst (generateImportBlocks quietWorld joinPath inOrder tt tt tt
                            orderCatalog "out" ""
                            ["dashboard._[ab]"; "folder.*"] []) =
  [] ++ [call_ListIDs "folder"; call_ListIDs "dashboard";
         call_writeBlocks "out/imports.tf"
           [importBlock "dashboard" "_b" "b" "";
            importBlock "dashboard" "_a" "a" "";
            importBlock "folder" "_xyz" "xyz" ""];
         call_runTerraform "out" ["plan"; "-generate-config-out=out/resources.tf"];
         call_sortResourcesFile "out/resources.tf"] /\
  filter (kept "" ["dashboard._[ab]"; "folder.*"] "dashboard") ["b"; "a"; "c"] =
  ["b"; "a"] /\
  exists pre post : list (taskResult unit unit unit),
    Forall (fun t => (Name (resource t) <? "dashboard")%string = true) pre /\
    Forall (fun t => ("dashboard" <? Name (resource t))%string = true) post /\
    ((Permutation
        (pre ++ outcome tt tt tt "" ["dashboard._[ab]"; "folder.*"]
                        (mkResource "dashboard" (Some (listing ["b"; "a"; "c"])))
             :: post)
        (inOrder (map (outcome tt tt tt "" ["dashboard._[ab]"; "folder.*"])
                      orderCatalog)) /\
      [importBlock "dashboard" "_b" "b" "";
       importBlock "dashboard" "_a" "a" "";
       importBlock "folder" "_xyz" "xyz" ""] =
      concat (map blocks pre) ++
      map (blockOf "" "dashboard")
          (filter (kept "" ["dashboard._[ab]"; "folder.*"] "dashboard")
                  ["b"; "a"; "c"]) ++
      concat (map blocks post) /\
      map importID
          (map (blockOf "" "dashboard")
               (filter (kept "" ["dashboard._[ab]"; "folder.*"] "dashboard")
                       ["b"; "a"; "c"])) =
      map Some (filter (kept "" ["dashboard._[ab]"; "folder.*"] "dashboard")
                       ["b"; "a"; "c"])) \/
     (Permutation
        (pre ++ post)
        (inOrder (map (outcome tt tt tt "" ["dashboard._[ab]"; "folder.*"])
                      orderCatalog)) /\
      [importBlock "dashboard" "_b" "b" "";
       importBlock "dashboard" "_a" "a" "";
       importBlock "folder" "_xyz" "xyz" ""] =
      concat (map blocks pre) ++ concat (map blocks post))).
Proof.
  assert (Hnd : NoDup (map Name orderCatalog)).
  { cbn. repeat constructor; cbn; intuition discriminate. }
  split; [exact inOrder_lossy|]. split; [exact Hnd|]. split; [reflexivity|].
  split; [reflexivity|]. split; [reflexivity|].
  exact (lister_order_is_kept quietWorld joinPath tt tt tt "out" ""
           ["dashboard._[ab]"; "folder.*"] inOrder orderCatalog orderCatalog []
           [call_ListIDs "folder"; call_ListIDs "dashboard";
            call_writeBlocks "out/imports.tf"
              [importBlock "dashboard" "_b" "b" "";
               importBlock "dashboard" "_a" "a" "";
               importBlock "folder" "_xyz" "xyz" ""];
            call_runTerraform "out"
              ["plan"; "-generate-config-out=out/resources.tf"];
            call_sortResourcesFile "out/resources.tf"]
           "out/imports.tf"
           [importBlock "dashboard" "_b" "b" "";
            importBlock "dashboard" "_a" "a" "";
            importBlock "folder" "_xyz" "xyz" ""]
           (mkResource "dashboard" (Some (listing ["b"; "a"; "c"])))
           (listing ["b"; "a"; "c"]) ["b"; "a"; "c"]
           inOrder_lossy Hnd eq_refl (or_intror (or_introl eq_refl))
           eq_refl eq_refl eq_refl (or_introl eq_refl)).
Defined.


End OnFixtures.

(* ================================================================== *)
(** * The course of [Generate] *)

Section Course.
Context {Ctx CloudConfig : Type}.

Variable world : World CloudConfig.
Variable filepath_Join : list string -> string.
Variable ctx : Ctx.
Variable cfg : Config CloudConfig.
#[local] Abbreviation dir := (OutputDir cfg).
#[local] Abbreviation plan := (plan filepath_Join cfg).
#[local] Abbreviation run := (Generate world filepath_Join ctx cfg).

Lemma grafanaPass_run (auth url stackName : string) (genProvider : bool)
      (outPath smURL smToken : string) (included : list string) (h : history) :
  grafanaPass world auth url stackName genProvider outPath smURL smToken included h =
  (h ++ [call_generateGrafanaResources auth url stackName genProvider outPath
           smURL smToken included],
   match generateGrafanaResources world h auth url stackName genProvider outPath
                                  smURL smToken included with
   | Some e => Err e
   | None => Ok tt
   end).
Proof.
  unfold grafanaPass, bind, perform.
  now destruct (generateGrafanaResources world h auth url stackName genProvider
                                         outPath smURL smToken included).
Qed.


















Lemma bind_perform_eq {A B : Type} (c : call) (answer : history -> A)
      (k : A -> M B) (h : history) :
  bind (perform c answer) k h = k (answer h) (h ++ [c]).
Proof. reflexivity. Qed.

Lemma stack_passes_succeed (stacks : list stack) (h : history) :
  (forall h' auth url stackName genProvider outPath smURL smToken included,
      generateGrafanaResources world h' auth url stackName genProvider outPath
                               smURL smToken included = None) ->
  forEach (fun stack =>
             grafanaPass world (managementKey stack) (url stack)
                         ("stack-" ++ slug stack) false dir
                         (smURL stack) (smToken stack)
                         (IncludeResources cfg)) stacks h =
  (h ++ map (stackPassCall cfg) stacks, Ok tt).
Proof.
  intros Hp. revert h. induction stacks as [|s stacks IH]; intros h.
  - cbn. unfold ret. now rewrite app_nil_r.
  - cbn [forEach map]. unfold bind at 1. rewrite grafanaPass_run, Hp, IH.
    now rewrite <- app_assoc.
Qed.

(** When every collaborator succeeds and the directory is not in the
    way, [Generate] makes every call of the plan, with the stacks that
    [generateCloudResources] returns; it returns without an error, except
    for the crossplane format, which is refused only then, after all the
    passes have run. *)
Theorem Generate_on_success (stacks : list stack) (h : history) :
  (os_Stat world h dir = None -> Clobber cfg = true) ->
  (forall h', os_RemoveAll world h' dir = None) ->
  (forall h', os_MkdirAll world h' dir perm0755 = None) ->
  (forall h' file blocks, writeBlocks world h' file blocks = None) ->
  (forall h' d command, runTerraform world h' d command = None) ->
  (forall h', generateCloudResources world h' cfg = Ok stacks) ->
  (forall h' auth url stackName genProvider outPath smURL smToken included,
      generateGrafanaResources world h' auth url stackName genProvider outPath
                               smURL smToken included = None) ->
  (forall h', convertToTFJSON world h' dir = None) ->
  run h =
  (h ++ plan (match os_Stat world h dir with None => true | Some _ => false end)
             stacks,
   match Format cfg with
   | OutputFormatCrossplane => Err ErrCrossplane
   | _ => Ok tt
   end).
Proof.
  intros Hdir Hrm Hmk Hwr Htf Hcl Hp Hconv.
  assert (Htail : forall h1,
             (bind (match Cloud cfg with
                    | Some _ =>
                        bind (bind (perform call_generateCloudResources
                                            (fun h => generateCloudResources world h cfg))
                                   liftResult)
                             (fun stacks =>
                                forEach (fun stack =>
                                           grafanaPass world (managementKey stack)
                                                       (url stack)
                                                       ("stack-" ++ slug stack) false dir
                                                       (smURL stack) (smToken stack)
                                                       (IncludeResources cfg)) stacks)
                    | None => ret tt
                    end)
                   (fun _ =>
                      bind (match Grafana cfg with
                            | Some grafana =>
                                grafanaPass world (Auth grafana) (URL grafana)
                                            EmptyString true dir EmptyString
                                            EmptyString (IncludeResources cfg)
                            | None => ret tt
                            end)
                           (fun _ =>
                              match Format cfg with
                              | OutputFormatJSON =>
                                  bind (perform (call_convertToTFJSON dir)
                                                (fun h => convertToTFJSON world h dir))
                                       (fun err => check (fun e => e) err)
                              | OutputFormatCrossplane => fail ErrCrossplane
                              | OutputFormatHCL => ret tt
                              end))) h1 =
             (h1 ++ (match Cloud cfg with
                     | Some _ =>
                         call_generateCloudResources :: map (stackPassCall cfg) stacks
                     | None => []
                     end ++
                     match Grafana cfg with
                     | Some g => [directPassCall cfg g]
                     | None => []
                     end ++
                     match Format cfg with
                     | OutputFormatJSON => [call_convertToTFJSON dir]
                     | _ => []
                     end),
              match Format cfg with
              | OutputFormatCrossplane => Err ErrCrossplane
              | _ => Ok tt
              end)).
  { intros h1. unfold bind at 1.
    assert (Hc : match Cloud cfg with
                 | Some _ =>
                     bind (bind (perform call_generateCloudResources
                                         (fun h => generateCloudResources world h cfg))
                                liftResult)
                          (fun stacks =>
                             forEach (fun stack =>
                                        grafanaPass world (managementKey stack)
                                                    (url stack)
                                                    ("stack-" ++ slug stack) false dir
                                                    (smURL stack) (smToken stack)
                                                    (IncludeResources cfg)) stacks)
                 | None => ret tt
                 end h1 =
                 (h1 ++ match Cloud cfg with
                        | Some _ =>
                            call_generateCloudResources
                              :: map (stackPassCall cfg) stacks
                        | None => []
                        end, Ok tt)).
    { destruct (Cloud cfg).
      - unfold bind, perform. rewrite Hcl. cbn [liftResult ret].
        rewrite stack_passes_succeed by exact Hp. now rewrite <- app_assoc.
      - unfold ret. now rewrite app_nil_r. }
    rewrite Hc. unfold bind at 1.
    assert (Hg : forall h2,
               match Grafana cfg with
               | Some grafana =>
                   grafanaPass world (Auth grafana) (URL grafana) EmptyString true
                               dir EmptyString EmptyString (IncludeResources cfg)
               | None => ret tt
               end h2 =
               (h2 ++ match Grafana cfg with
                      | Some g => [directPassCall cfg g]
                      | None => []
                      end, Ok tt)).
    { intros h2. destruct (Grafana cfg).
      - now rewrite grafanaPass_run, Hp.
      - unfold ret. now rewrite app_nil_r. }
    rewrite Hg. rewrite <- !app_assoc.
    destruct (Format cfg).
    - unfold ret. now rewrite !app_nil_r.
    - unfold bind, perform. rewrite Hconv. unfold check, ret.
      now rewrite <- !app_assoc.
    - unfold fail. now rewrite !app_nil_r. }
  unfold Generate, plan. rewrite bind_perform_eq. cbv beta.
  destruct (os_Stat world h dir) as [e|] eqn:Hs.
  - unfold bind at 1. unfold ret at 1.
    rewrite bind_perform_eq, Hmk. unfold bind at 1. unfold check at 1, ret at 1.
    cbv zeta.
    rewrite bind_perform_eq, Hwr. unfold bind at 1. unfold check at 1, ret at 1.
    rewrite bind_perform_eq, Htf. unfold bind at 1. unfold check at 1, ret at 1.
    rewrite Htail. cbn [app]. now rewrite <- !app_assoc.
  - rewrite (Hdir eq_refl).
    unfold bind at 1. rewrite bind_perform_eq, Hrm. unfold check at 1, ret at 1.
    rewrite bind_perform_eq, Hmk. unfold bind at 1. unfold check at 1, ret at 1.
    cbv zeta.
    rewrite bind_perform_eq, Hwr. unfold bind at 1. unfold check at 1, ret at 1.
    rewrite bind_perform_eq, Htf. unfold bind at 1. unfold check at 1, ret at 1.
    rewrite Htail. cbn [app]. now rewrite <- !app_assoc.
Qed.

(** The steps of [Generate] that set the directory up: when one of them
    fails, [Generate] returns at once, with the error wrapped as that
    step wraps it (a failed write of the provider file ends the process),
    and makes no further call. *)
Theorem Generate_setup_failures (h : history) :
  let removed := match os_Stat world h dir with None => true | Some _ => false end in
  let h1 := h ++ [call_Stat dir] ++ (if removed then [call_RemoveAll dir] else []) in
  let h2 := h1 ++ [call_MkdirAll dir perm0755] in
  let h3 := h2 ++ [call_writeBlocks (filepath_Join [dir; "provider.tf"])
                                    [providerBlockOf cfg]] in
  (os_Stat world h dir = None ->
   Clobber cfg = true /\ os_RemoveAll world (h ++ [call_Stat dir]) dir = None) ->
  (forall e, os_MkdirAll world h1 dir perm0755 = Some e ->
             run h = (h2, Err (ErrFailedToCreate dir e))) /\
  (forall e, os_MkdirAll world h1 dir perm0755 = None ->
             writeBlocks world h2 (filepath_Join [dir; "provider.tf"])
                         [providerBlockOf cfg] = Some e ->
             run h = (h3, Err (ErrFatal e))) /\
  (forall e, os_MkdirAll world h1 dir perm0755 = None ->
             writeBlocks world h2 (filepath_Join [dir; "provider.tf"])
                         [providerBlockOf cfg] = None ->
             runTerraform world h3 dir ["init"] = Some e ->
             run h = (h3 ++ [call_runTerraform dir ["init"]],
                      Err (ErrTerraformInit e))).
Proof.
  intros removed h1 h2 h3 Hprep.
  assert (Hstart : forall (k : unit -> M unit),
             bind (perform (call_Stat dir) (fun h => os_Stat world h dir))
                  (fun statErr =>
                     bind (match statErr with
                           | None =>
                               if Clobber cfg then
                                 bind (perform (call_RemoveAll dir)
                                               (fun h => os_RemoveAll world h dir))
                                      (fun err => check (ErrFailedToDelete dir) err)
                               else fail (ErrOutputDirExists dir)
                           | Some _ => ret tt
                           end) k) h = k tt h1).
  { intros k. rewrite bind_perform_eq. cbv beta. subst h1 removed.
    destruct (os_Stat world h dir) as [e|] eqn:Hs.
    - cbn [app]. reflexivity.
    - destruct (Hprep eq_refl) as [Hc Hrm]. rewrite Hc.
      unfold bind at 1. rewrite bind_perform_eq, Hrm. cbn [check ret app].
      now rewrite <- app_assoc. }
  unfold Generate. rewrite Hstart. fold h1.
  rewrite bind_perform_eq. fold h2.
  split; [|split].
  - intros e Hmk. now rewrite Hmk.
  - intros e Hmk Hwr. rewrite Hmk. unfold bind at 1. unfold check at 1, ret at 1.
    cbv zeta. rewrite bind_perform_eq. fold (providerBlockOf cfg) in *.
    fold h3. now rewrite Hwr.
  - intros e Hmk Hwr Htf. rewrite Hmk. unfold bind at 1. unfold check at 1, ret at 1.
    cbv zeta. rewrite bind_perform_eq. fold (providerBlockOf cfg) in *.
    fold h3. rewrite Hwr. unfold bind at 1. unfold check at 1, ret at 1.
    rewrite bind_perform_eq. now rewrite Htf.
Qed.

(** The loop over the stacks, when the pass of one stack fails and the
    passes of the stacks before it succeed. *)
Lemma stack_passes_fail (pre post : list stack) (s : stack) (e : error)
      (h : history) :
  (forall h' s', In s' pre ->
      generateGrafanaResources world h' (managementKey s') (url s')
        ("stack-" ++ slug s') false dir (smURL s') (smToken s')
        (IncludeResources cfg) = None) ->
  (forall h',
      generateGrafanaResources world h' (managementKey s) (url s)
        ("stack-" ++ slug s) false dir (smURL s) (smToken s)
        (IncludeResources cfg) = Some e) ->
  forEach (fun stack =>
             grafanaPass world (managementKey stack) (url stack)
                         ("stack-" ++ slug stack) false dir
                         (smURL stack) (smToken stack)
                         (IncludeResources cfg)) (pre ++ s :: post) h =
  (h ++ map (stackPassCall cfg) (pre ++ [s]), Err e).
Proof.
  intros Hpre Hs. revert h. induction pre as [|s' pre IH]; intros h.
  - cbn [app forEach map]. unfold bind at 1. now rewrite grafanaPass_run, Hs.
  - cbn [app forEach map]. unfold bind at 1.
    rewrite grafanaPass_run, (Hpre h s' (or_introl eq_refl)).
    rewrite IH by (intros h' s'' Hin; apply Hpre; now right).
    now rewrite <- app_assoc.
Qed.

(** When the pass of a cloud stack fails, [Generate] returns the error of
    that pass as it is; the stacks after it are not processed, and
    neither the pass of the single instance nor the conversion is run. *)
Theorem failing_stack_stops_the_run (pre post : list stack) (s : stack)
        (e : error) (h : history) :
  (os_Stat world h dir = None -> Clobber cfg = true) ->
  (forall h', os_RemoveAll world h' dir = None) ->
  (forall h', os_MkdirAll world h' dir perm0755 = None) ->
  (forall h' file blocks, writeBlocks world h' file blocks = None) ->
  (forall h' d command, runTerraform world h' d command = None) ->
  Cloud cfg <> None ->
  (forall h', generateCloudResources world h' cfg = Ok (pre ++ s :: post)) ->
  (forall h' s', In s' pre ->
      generateGrafanaResources world h' (managementKey s') (url s')
        ("stack-" ++ slug s') false dir (smURL s') (smToken s')
        (IncludeResources cfg) = None) ->
  (forall h',
      generateGrafanaResources world h' (managementKey s) (url s)
        ("stack-" ++ slug s) false dir (smURL s) (smToken s)
        (IncludeResources cfg) = Some e) ->
  run h =
  (h ++ setupCalls filepath_Join cfg
          (match os_Stat world h dir with None => true | Some _ => false end) ++
        call_generateCloudResources :: map (stackPassCall cfg) (pre ++ [s]),
   Err e).
Proof.
  intros Hdir Hrm Hmk Hwr Htf Hcloud Hcl Hpre Hs.
  assert (Htail : forall h1 (k : unit -> M unit),
             bind (match Cloud cfg with
                   | Some _ =>
                       bind (bind (perform call_generateCloudResources
                                           (fun h => generateCloudResources world h cfg))
                                  liftResult)
                            (fun stacks =>
                               forEach (fun stack =>
                                          grafanaPass world (managementKey stack)
                                                      (url stack)
                                                      ("stack-" ++ slug stack) false dir
                                                      (smURL stack) (smToken stack)
                                                      (IncludeResources cfg)) stacks)
                   | None => ret tt
                   end) k h1 =
             (h1 ++ call_generateCloudResources
                 :: map (stackPassCall cfg) (pre ++ [s]), Err e)).
  { intros h1 k. destruct (Cloud cfg) as [c|]; [|congruence].
    unfold bind at 1. unfold bind at 1. unfold bind at 1. unfold perform.
    rewrite Hcl. cbn [liftResult ret].
    rewrite (stack_passes_fail pre post s e _ Hpre Hs). now rewrite <- app_assoc. }
  unfold Generate, setupCalls. rewrite bind_perform_eq. cbv beta.
  fold (providerBlockOf cfg).
  destruct (os_Stat world h dir) as [e0|] eqn:Hstat.
  - unfold bind at 1. unfold ret at 1.
    rewrite bind_perform_eq, Hmk. unfold bind at 1. unfold check at 1, ret at 1.
    cbv zeta.
    rewrite bind_perform_eq, Hwr. unfold bind at 1. unfold check at 1, ret at 1.
    rewrite bind_perform_eq, Htf. unfold bind at 1. unfold check at 1, ret at 1.
    rewrite Htail. cbn [app]. now rewrite <- !app_assoc.
  - rewrite (Hdir eq_refl).
    unfold bind at 1. rewrite bind_perform_eq, Hrm. unfold check at 1, ret at 1.
    rewrite bind_perform_eq, Hmk. unfold bind at 1. unfold check at 1, ret at 1.
    cbv zeta.
    rewrite bind_perform_eq, Hwr. unfold bind at 1. unfold check at 1, ret at 1.
    rewrite bind_perform_eq, Htf. unfold bind at 1. unfold check at 1, ret at 1.
    rewrite Htail. cbn [app]. now rewrite <- !app_assoc.
Qed.

End Course.

(* ================================================================== *)
(** * The calls of a pass *)

Section Listing.
Context {Ctx Client ListerData CloudConfig : Type}.
#[local] Abbreviation Resource := (Resource Ctx Client ListerData).
#[local] Abbreviation taskResult := (taskResult Ctx Client ListerData).

Variable world : World CloudConfig.
Variable filepath_Join : list string -> string.
Variable arrival : list taskResult -> list taskResult.
Variables (ctx : Ctx) (client : Client) (listerData : ListerData).
Variables (outPath provider : string) (includedResources : list string).
#[local] Abbreviation outcome :=
  (outcome ctx client listerData provider includedResources).
#[local] Abbreviation materialize :=
  (materialize world filepath_Join outPath provider).
#[local] Abbreviation importsFile := (importsFile filepath_Join outPath provider).
#[local] Abbreviation resourcesFile :=
  (resourcesFile filepath_Join outPath provider).
#[local] Abbreviation planCommand := (planCommand filepath_Join outPath provider).
#[local] Abbreviation pass :=
  (fun resources =>
     generateImportBlocks world filepath_Join arrival ctx client listerData
                          resources outPath provider includedResources).

Lemma listerNames_app (h1 h2 : history) :
  listerNames (h1 ++ h2) = listerNames h1 ++ listerNames h2.
Proof. unfold listerNames. now rewrite flat_map_app. Qed.

Lemma listerNames_of_calls (resources : list Resource) :
  listerNames (listerCalls resources) = map Name (filter hasLister resources).
Proof.
  induction resources as [|r resources IH]; [reflexivity|].
  change (listerCalls (r :: resources))
    with (match ListIDsFunc r with
          | Some _ => [call_ListIDs (Name r)]
          | None => []
          end ++ listerCalls resources).
  rewrite listerNames_app, IH. cbn [filter]. unfold hasLister at 2.
  destruct (ListIDsFunc r); reflexivity.
Qed.

Lemma listerNames_materialize (allBlocks : list Block) (h : history) :
  listerNames (fst (materialize allBlocks h)) = listerNames h.
Proof.
  destruct (materialize_trace world filepath_Join outPath provider allBlocks h)
    as (rest & -> & Hrest).
  assert (Hnone : listerNames rest = []).
  { induction Hrest as [|c rest Hc _ IH]; [reflexivity|].
    destruct c; try contradiction; exact IH. }
  rewrite listerNames_app.
  change (listerNames (call_writeBlocks importsFile allBlocks :: rest))
    with (listerNames rest).
  now rewrite Hnone, app_nil_r.
Qed.

(** A pass calls the lister of every resource that [filterResources]
    selects and that has one, once each, whether or not a task fails (the
    tasks run concurrently: the calls are counted, their order is not
    fixed); it calls no lister when the filter list is refused, and never
    the lister of a resource that is filtered out. *)
Theorem listers_called_for_the_selected (resources : list Resource) (h : history) :
  exists called,
    listerNames (fst (pass resources h)) = listerNames h ++ called /\
    Permutation called
      match filterResources resources includedResources with
      | Ok selected => map Name (filter hasLister selected)
      | Err _ => []
      end.
Proof.
  cbv beta.
  destruct (filterResources resources includedResources) as [selected|e] eqn:Hf.
  - exists (map Name (filter hasLister selected)).
    split; [|apply Permutation_refl].
    destruct (first_failure (arrival (map outcome selected)))
      as [Hall | (pre & x & e & post & Ha & Hpre & Hx)].
    + rewrite (pass_success world filepath_Join arrival ctx client listerData
                 outPath provider includedResources resources selected h Hf Hall).
      now rewrite listerNames_materialize, listerNames_app, listerNames_of_calls.
    + rewrite (pass_task_error world filepath_Join arrival ctx client listerData
                 outPath provider includedResources resources selected
                 pre post x e h Hf Ha Hpre Hx).
      cbn [fst]. now rewrite listerNames_app, listerNames_of_calls.
  - exists []. split; [|apply Permutation_refl].
    rewrite (pass_filter_error world filepath_Join arrival ctx client listerData
               outPath provider includedResources resources e h Hf).
    cbn [fst]. now rewrite app_nil_r.
Qed.


Lemma writtenBlocks_steps (rest : list call) :
  Forall (fun c => match c with
                   | call_runTerraform _ _ | call_sortResourcesFile _ => True
                   | _ => False
                   end) rest ->
  writtenBlocks rest = [].
Proof.
  induction 1 as [|c rest Hc _ IH]; [reflexivity|].
  destruct c; try contradiction; exact IH.
Qed.

(** The blocks of a result come from the identifiers that the lister of
    its resource returned and that the name filter keeps. *)
Lemma outcome_blocks (r : Resource) (b : Block) :
  In b (blocks (outcome r)) ->
  exists lister ids id,
    ListIDsFunc r = Some lister /\ lister ctx client listerData = Ok ids /\
    In id ids /\ kept provider includedResources (Name r) id = true /\
    b = importBlock (Name r) (cleanID provider id) id provider.
Proof.
  unfold outcome.
  destruct (ListIDsFunc r) as [lister|]; [|intros []].
  destruct (lister ctx client listerData) as [ids|e] eqn:Hids; [|intros []].
  destruct (importBlocks (Name r) provider includedResources ids [])
    as [bs|e] eqn:Hbs; [|intros []].
  cbn [blocks]. intros Hb.
  rewrite (importBlocks_ok provider includedResources _ _ _ Hbs) in Hb.
  apply in_map_iff in Hb. destruct Hb as (id & <- & Hid).
  apply filter_In in Hid. destruct Hid as [Hin Hk].
  exists lister, ids, id. repeat split; auto.
Qed.

(** Everything a pass writes is in one call to [writeBlocks], on the
    imports file, and nothing in it is made up: every block is the import
    block of an identifier that the lister of a resource of the catalog
    returned, for a resource that [filterResources] selects and an
    identifier that the name filter keeps.  The block refers to the
    provider alias when there is one, and has no provider field
    otherwise.  Whatever results are received. *)
Theorem written_blocks_come_from_listers
        (resources : list Resource) (h : history) (added : list call)
        (file : string) (bs : list Block) (b : Block) :
  lossy arrival ->
  fst (pass resources h) = h ++ added ->
  In (file, bs) (writtenBlocks added) ->
  In b bs ->
  writtenBlocks added = [(importsFile, bs)] /\
  exists r lister ids id,
    In r resources /\ selectedBy includedResources r = true /\
    ListIDsFunc r = Some lister /\ lister ctx client listerData = Ok ids /\
    In id ids /\
    filterResourceByName (Name r) (cleanID provider id) includedResources = Ok true /\
    b = importBlock (Name r) (cleanID provider id) id provider /\
    blockType b = "import" /\
    importTo b = Some (Name r ++ "." ++ cleanID provider id)%string /\
    importID b = Some id /\
    GetAttribute "provider" b =
    (if (provider =? "")%string then None
     else Some (traversal "grafana" [provider])).
Proof.
  intros Hperm Hadded Hfile Hb. cbv beta in Hadded.
  destruct (filterResources resources includedResources) as [selected|e] eqn:Hf.
  - destruct (first_failure (arrival (map outcome selected)))
      as [Hall | (pre & x & e & post & Ha & Hpre & Hx)].
    + rewrite (pass_success world filepath_Join arrival ctx client listerData
                 outPath provider includedResources resources selected h Hf Hall)
        in Hadded.
      destruct (materialize_trace world filepath_Join outPath provider
                  (concat (map blocks (sort.Slice lessByName
                                         (arrival (map outcome selected)))))
                  (h ++ listerCalls selected)) as (rest & Htrace & Hrest).
      rewrite Htrace, <- app_assoc in Hadded. apply app_inv_head in Hadded.
      subst added. rewrite writtenBlocks_app in Hfile |- *.
      destruct (listerCalls_quiet selected) as [Hq _]. rewrite Hq in Hfile |- *.
      cbn [app] in Hfile |- *.
      change (writtenBlocks (call_writeBlocks importsFile ?bl :: rest))
        with ((importsFile, bl) :: writtenBlocks rest) in Hfile |- *.
      rewrite (writtenBlocks_steps rest Hrest) in Hfile |- *.
      destruct Hfile as [Heq|[]]. inversion Heq; subst file bs. clear Heq.
      split; [reflexivity|].
      apply in_concat in Hb. destruct Hb as (l & Hl & Hb).
      apply in_map_iff in Hl. destruct Hl as (t & <- & Ht).
      assert (Ht' : In t (map outcome selected)).
      { apply (received_was_sent arrival _ t Hperm).
        eapply Permutation_in; [|exact Ht].
        change (@lessByName Ctx Client ListerData)
          with (lessByKey (fun t : taskResult => Name (resource t))).
        apply Slice_perm. }
      apply in_map_iff in Ht'. destruct Ht' as (r & <- & Hr).
      rewrite (filterResources_ok _ _ _ Hf) in Hr.
      apply filter_In in Hr. destruct Hr as [Hin Hsel].
      destruct (outcome_blocks r b Hb) as (lister & ids & id & Hl & Hids & Hid & Hk & ->).
      exists r, lister, ids, id.
      split; [exact Hin|]. split; [exact Hsel|]. split; [exact Hl|].
      split; [exact Hids|]. split; [exact Hid|].
      split.
      { unfold kept in Hk.
        destruct (filterResourceByName (Name r) (cleanID provider id)
                                       includedResources) as [[|]|]; congruence. }
      split; [reflexivity|].
      unfold importBlock. destruct (provider =? "")%string; cbn; auto.
    + rewrite (pass_task_error world filepath_Join arrival ctx client listerData
                 outPath provider includedResources resources selected
                 pre post x e h Hf Ha Hpre Hx) in Hadded.
      cbn [fst] in Hadded. apply app_inv_head in Hadded. subst added.
      destruct (listerCalls_quiet selected) as [Hq _]. rewrite Hq in Hfile.
      destruct Hfile.
  - rewrite (pass_filter_error world filepath_Join arrival ctx client listerData
               outPath provider includedResources resources e h Hf) in Hadded.
    cbn [fst] in Hadded. rewrite <- (app_nil_r h) in Hadded at 1.
    apply app_inv_head in Hadded. subst added. destruct Hfile.
Qed.

Lemma allowed_bytes_app (s t : string) :
  Forall_bytes allowedByte s = true -> Forall_bytes allowedByte t = true ->
  Forall_bytes allowedByte (s ++ t) = true.
Proof.
  induction s as [|c s IH]; cbn; [auto|].
  intros H Ht. apply andb_true_iff in H. destruct H as [-> Hs]. now apply IH.
Qed.

Lemma allowed_bytes_alias (s : string) :
  Forall_bytes allowedByte s = true ->
  Forall_bytes allowedByte (ReplaceAllByte s "-" "_") = true.
Proof.
  induction s as [|c s IH]; cbn [ReplaceAllByte Forall_bytes]; [auto|].
  intros H. apply andb_true_iff in H. destruct H as [Hc Hs].
  rewrite (IH Hs), andb_true_r. now destruct (Ascii.eqb c "-").
Qed.

(** The local name of every import block is made of the bytes
    [a-zA-Z0-9_-] only, when the provider alias is: the identifier is
    sanitized, and the alias is put before it with its hyphens turned
    into underscores. *)
Theorem local_names_use_allowed_bytes (r : Resource) (b : Block) :
  Forall_bytes allowedByte provider = true ->
  In b (blocks (outcome r)) ->
  exists localName,
    importTo b = Some (Name r ++ "." ++ localName)%string /\
    Forall_bytes allowedByte localName = true.
Proof.
  intros Hprov Hb.
  destruct (outcome_blocks r b Hb) as (lister & ids & id & _ & _ & _ & _ & ->).
  exists (cleanID provider id). split.
  - unfold importBlock. destruct (provider =? "")%string; reflexivity.
  - unfold cleanID. fold (sanitize id).
    destruct (negb (provider =? "cloud")%string).
    + apply allowed_bytes_app; [now apply allowed_bytes_alias|].
      apply allowed_bytes_app; [reflexivity | apply sanitize_allowed].
    + apply sanitize_allowed.
Qed.

End Listing.

(* ================================================================== *)
(** * More on the sanitization *)

Section SanitizeLength.

Lemma sanitize_length_le (n : nat) (id : string) :
  String.length id <= n -> String.length (sanitize id) <= String.length id.
Proof.
  revert id. induction n as [|n IH]; intros id Hn.
  - destruct id; [rewrite sanitize_empty; auto | cbn in Hn; lia].
  - destruct id as [|c t]; [rewrite sanitize_empty; auto|].
    rewrite sanitize_step. cbn [String.length] in Hn.
    destruct (allowedByte c); cbn [String.length].
    + apply le_n_S, IH. lia.
    + apply le_n_S.
      pose proof (MatchFacts.drop_length
                    (snd (utf8.DecodeRuneInString (String c t)) - 1) t) as Hd.
      etransitivity; [apply IH; lia|]. lia.
Qed.

(** Sanitizing an identifier never makes it longer, and sanitizing twice
    is sanitizing once; the identifiers that the sanitization leaves as
    they are are those made of the bytes [a-zA-Z0-9_-] only. *)
Theorem sanitize_is_a_projection (id : string) :
  sanitize (sanitize id) = sanitize id /\
  String.length (sanitize id) <= String.length id /\
  (sanitize id = id <-> Forall_bytes allowedByte id = true).
Proof.
  split; [apply sanitize_fixed, sanitize_allowed|].
  split; [now apply (sanitize_length_le (String.length id))|].
  split; [|apply sanitize_fixed].
  intros H. rewrite <- H. apply sanitize_allowed.
Qed.

End SanitizeLength.

(* ================================================================== *)
(** * Resources that cannot be enumerated *)

Section Skipping.
Context {Ctx Client ListerData CloudConfig : Type}.
#[local] Abbreviation Resource := (Resource Ctx Client ListerData).
#[local] Abbreviation taskResult := (taskResult Ctx Client ListerData).

Variable world : World CloudConfig.
Variable filepath_Join : list string -> string.
Variables (ctx : Ctx) (client : Client) (listerData : ListerData).
Variables (outPath provider : string) (includedResources : list string).
#[local] Abbreviation outcome :=
  (outcome ctx client listerData provider includedResources).
#[local] Abbreviation materialize :=
  (materialize world filepath_Join outPath provider).
#[local] Abbreviation pass :=
  (fun arrival resources =>
     generateImportBlocks world filepath_Join arrival ctx client listerData
                          resources outPath provider includedResources).
#[local] Abbreviation nameOf := (fun t : taskResult => Name (resource t)).
#[local] Abbreviation listed := (fun t : taskResult => hasLister (resource t)).

Lemma listed_results_perm (results results' : list taskResult) :
  Permutation results results' ->
  Permutation (filter listed results) (filter listed results').
Proof.
  induction 1 as [|t l l' _ IH|t u l|l l' l'' _ IH1 _ IH2]; cbn [filter].
  - constructor.
  - destruct (listed t); [now constructor | exact IH].
  - destruct (listed t), (listed u); try apply Permutation_refl. constructor.
  - now transitivity (filter listed l').
Qed.

Lemma listed_results_sorted (results : list taskResult) :
  StronglySorted (notAfter nameOf) results ->
  StronglySorted (notAfter nameOf) (filter listed results).
Proof.
  induction 1 as [|t l _ IH Hall]; cbn [filter]; [constructor|].
  destruct (listed t); [|exact IH].
  constructor; [exact IH|].
  rewrite Forall_forall in Hall |- *. intros u Hu.
  apply filter_In in Hu. now apply Hall.
Qed.

Lemma listed_outcomes (selected : list Resource) :
  filter listed (map outcome selected) = map outcome (filter hasLister selected).
Proof.
  induction selected as [|r selected IH]; [reflexivity|].
  cbn [map filter].
  rewrite (outcome_resource ctx client listerData provider includedResources r), IH.
  now destruct (hasLister r).
Qed.

Lemma unlisted_outcome (r : Resource) :
  hasLister r = false -> blocks (outcome r) = [] /\ err (outcome r) = None.
Proof.
  unfold hasLister, outcome. destruct (ListIDsFunc r); [discriminate|]. now split.
Qed.

Lemma listed_blocks (results : list taskResult) :
  Forall (fun t => listed t = false -> blocks t = []) results ->
  concat (map blocks (filter listed results)) = concat (map blocks results).
Proof.
  induction 1 as [|t l Ht _ IH]; [reflexivity|].
  cbn [filter map concat]. destruct (listed t) eqn:Hl.
  - cbn [map concat]. now rewrite IH.
  - now rewrite (Ht eq_refl), IH.
Qed.

Lemma listerCalls_of_listed (resources : list Resource) :
  listerCalls (filter hasLister resources) = listerCalls resources.
Proof.
  induction resources as [|r resources IH]; [reflexivity|].
  cbn [filter]. unfold hasLister at 1.
  destruct (ListIDsFunc r) as [lister|] eqn:Hl.
  - unfold listerCalls in *. cbn [flat_map]. now rewrite Hl, IH.
  - unfold listerCalls in *. cbn [flat_map]. now rewrite Hl, IH.
Qed.

Lemma filterResources_of_listed (resources selected : list Resource) :
  filterResources resources includedResources = Ok selected ->
  filterResources (filter hasLister resources) includedResources =
  Ok (filter hasLister selected).
Proof.
  unfold filterResources. destruct includedResources as [|i rest] eqn:Hi.
  - now intros [= <-].
  - destruct (allowedTypes (i :: rest) []) as [allowed|e]; [|discriminate].
    rewrite !keepMatching_spec.
    destruct (existsb (rejects allowed) resources) eqn:Hrej; [discriminate|].
    intros [= <-]. cbn [app].
    assert (Hnone : existsb (rejects allowed) (filter hasLister resources) = false).
    { destruct (existsb (rejects allowed) (filter hasLister resources)) eqn:Hex;
        [|reflexivity].
      apply existsb_exists in Hex. destruct Hex as (r & Hr & Hrr).
      apply filter_In in Hr.
      assert (Hex : existsb (rejects allowed) resources = true)
        by (apply existsb_exists; exists r; tauto).
      congruence. }
    rewrite Hnone. f_equal.
    clear. induction resources as [|r resources IH]; [reflexivity|].
    cbn [filter]. destruct (hasLister r) eqn:Hl, (selects allowed r) eqn:Hs;
      cbn [filter]; rewrite ?Hl, ?Hs, IH; reflexivity.
Qed.

Lemma listed_names_distinct (results : list taskResult) :
  NoDup (map nameOf results) -> NoDup (map nameOf (filter listed results)).
Proof.
  induction results as [|t results IH]; cbn [map filter]; [auto|].
  intros Hnd. inversion Hnd as [|? ? Hnotin Hnd']; subst.
  destruct (listed t); [|now apply IH].
  cbn [map]. constructor; [|now apply IH].
  intros Hin. apply Hnotin. apply in_map_iff in Hin.
  destruct Hin as (u & Hu & Hin). apply filter_In in Hin.
  apply in_map_iff. exists u. tauto.
Qed.

Lemma listed_successes (results : list taskResult) :
  Forall succeeded results -> Forall succeeded (filter listed results).
Proof.
  rewrite !Forall_forall. intros H t Ht. apply filter_In in Ht. now apply H.
Qed.

(** A resource without a lister takes no part in a pass.  Its task sends
    a result with no block and no error, and calls nothing: a pass over
    the catalog returns what a pass over the catalog without the
    resources that have no lister returns, and makes the same calls, when
    the same results of the other resources are received in the same
    order in both.  For a catalog in which no two resources have the same
    name, and whatever results are lost. *)
Theorem resources_without_lister_are_skipped
        (arrival1 arrival2 : list taskResult -> list taskResult)
        (resources selected : list Resource) (h : history) :
  lossy arrival1 ->
  NoDup (map Name resources) ->
  filterResources resources includedResources = Ok selected ->
  arrival2 (map outcome (filter hasLister selected)) =
  filter listed (arrival1 (map outcome selected)) ->
  filterResources (filter hasLister resources) includedResources =
  Ok (filter hasLister selected) /\
  pass arrival1 resources h = pass arrival2 (filter hasLister resources) h.
Proof.
  intros H1 Hnd Hf Hsame. cbv beta.
  pose proof (filterResources_of_listed resources selected Hf) as Hf'.
  split; [exact Hf'|].
  assert (Hnd' : NoDup (map Name selected)).
  { rewrite (filterResources_ok _ _ _ Hf). now apply selected_names_distinct. }
  assert (Hsent : forall t, In t (arrival1 (map outcome selected)) ->
                            exists r, In r selected /\ t = outcome r).
  { intros t. apply (sent_by_selected ctx client listerData provider
                       includedResources arrival1 selected t H1). }
  destruct (first_failure (arrival1 (map outcome selected)))
    as [Hall | (pre & x & e & post & Ha & Hpre & Hx)].
  - assert (Hall' : Forall succeeded
                           (arrival2 (map outcome (filter hasLister selected)))).
    { rewrite Hsame. now apply listed_successes. }
    rewrite (pass_success world filepath_Join arrival1 ctx client listerData
               outPath provider includedResources resources selected h Hf Hall).
    rewrite (pass_success world filepath_Join arrival2 ctx client listerData
               outPath provider includedResources (filter hasLister resources)
               (filter hasLister selected) h Hf' Hall').
    rewrite listerCalls_of_listed, Hsame. f_equal.
    change (@lessByName Ctx Client ListerData) with (lessByKey nameOf).
    assert (Hsp : Permutation (sort.Slice (lessByKey nameOf)
                                          (arrival1 (map outcome selected)))
                              (arrival1 (map outcome selected)))
      by apply Slice_perm.
    rewrite <- (listed_blocks (sort.Slice (lessByKey nameOf)
                                          (arrival1 (map outcome selected)))).
    + f_equal. f_equal. apply (sorted_unique nameOf).
      * eapply Permutation_trans; [apply listed_results_perm; exact Hsp|].
        symmetry. apply Slice_perm.
      * apply listed_names_distinct.
        eapply Permutation_NoDup; [apply Permutation_map; symmetry; exact Hsp|].
        now apply (received_names_distinct ctx client listerData provider
                     includedResources).
      * apply listed_results_sorted, Slice_sorted.
      * apply Slice_sorted.
    + rewrite Forall_forall. intros t Ht Hl.
      assert (Ht' : In t (arrival1 (map outcome selected)))
        by (eapply Permutation_in; [exact Hsp | exact Ht]).
      destruct (Hsent t Ht') as (r & _ & ->).
      rewrite (outcome_resource ctx client listerData provider
                 includedResources r) in Hl.
      now apply unlisted_outcome.
  - assert (Hxin : In x (arrival1 (map outcome selected)))
      by (rewrite Ha; apply in_elt).
    destruct (Hsent x Hxin) as (r & Hr & ->).
    assert (Hl : listed (outcome r) = true).
    { rewrite (outcome_resource ctx client listerData provider
                 includedResources r).
      destruct (hasLister r) eqn:Hl; [reflexivity|].
      destruct (unlisted_outcome r Hl) as [_ Hnone]. congruence. }
    assert (Ha' : arrival2 (map outcome (filter hasLister selected)) =
                  filter listed pre ++ outcome r :: filter listed post).
    { rewrite Hsame, Ha, filter_app. cbn [filter]. now rewrite Hl. }
    rewrite (pass_task_error world filepath_Join arrival1 ctx client listerData
               outPath provider includedResources resources selected
               pre post (outcome r) e h Hf Ha Hpre Hx).
    rewrite (pass_task_error world filepath_Join arrival2 ctx client listerData
               outPath provider includedResources (filter hasLister resources)
               (filter hasLister selected) (filter listed pre)
               (filter listed post) (outcome r) e h Hf' Ha'
               (listed_successes pre Hpre) Hx).
    now rewrite listerCalls_of_listed.
Qed.

End Skipping.

(* ================================================================== *)
(** * Patterns without glob characters *)

Module LiteralPatterns.
Import filepath.

Lemma scan_literal_all (pattern : string) :
  literal pattern = true -> scan false pattern = (pattern, EmptyString).
Proof.
  induction pattern as [|c p IH]; [reflexivity|].
  cbn [literal]. intros H. apply andb_true_iff in H. destruct H as [Hc Hp].
  rewrite (MatchFacts.scan_literal c p Hc), (IH Hp). reflexivity.
Qed.

Lemma chunkStep_literal_failed (c : ascii) (t s : string) :
  literalByte c = true -> chunkStep c t s true = Some (Ok (t, s, true)).
Proof.
  intros H. apply MatchFacts.literalByte_inv in H. destruct H as (_ & H2 & H3 & H4).
  unfold chunkStep. now rewrite H2, H3, H4.
Qed.

Lemma matchChunkLoop_literal_failed (chunk s : string) :
  literal chunk = true ->
  matchChunkLoop (String.length chunk) chunk s true = Some (Ok None).
Proof.
  induction chunk as [|c t IH]; [reflexivity|].
  cbn [literal]. intros H. apply andb_true_iff in H. destruct H as [Hc Ht].
  cbn [String.length matchChunkLoop].
  rewrite (chunkStep_literal_failed c t s Hc). now apply IH.
Qed.

Lemma matchChunk_literal_mismatch (c : ascii) (chunk name : string) :
  literal (String c chunk) = true ->
  match name with
  | String d _ => c <> d
  | EmptyString => True
  end ->
  matchChunk (String c chunk) name = Some (Ok None).
Proof.
  cbn [literal]. intros H Hd. apply andb_true_iff in H. destruct H as [Hc Ht].
  pose proof (MatchFacts.literalByte_inv c Hc) as (_ & H2 & H3 & H4).
  unfold matchChunk. cbn [String.length matchChunkLoop]. unfold chunkStep.
  rewrite H2, H3, H4. cbn [orb].
  destruct name as [|d name']; cbn [isEmpty].
  - now apply matchChunkLoop_literal_failed.
  - replace (isByte c d) with false
      by (symmetry; apply Ascii.eqb_neq; exact Hd).
    now apply matchChunkLoop_literal_failed.
Qed.

Lemma Match_literal_mismatch (c : ascii) (pattern name : string) :
  literal (String c pattern) = true ->
  match name with
  | String d _ => c <> d
  | EmptyString => True
  end ->
  Match (String c pattern) name = Ok false.
Proof.
  intros Hl Hd.
  assert (Hc : literalByte c = true)
    by (cbn [literal] in Hl; apply andb_true_iff in Hl; tauto).
  pose proof (MatchFacts.literalByte_inv c Hc) as (Hstar & _).
  unfold Match. cbn [String.length]. rewrite MatchFacts.MatchLoop_S.
  rewrite (MatchFacts.scanChunk_nostar c pattern Hstar), (scan_literal_all _ Hl).
  cbn [fst snd andb]. cbv zeta.
  now rewrite (matchChunk_literal_mismatch c pattern name Hl Hd).
Qed.

(** A pattern without glob characters matches its own text and nothing
    else, and is never refused. *)
Lemma Match_literal (pattern name : string) :
  literal pattern = true -> Match pattern name = Ok (pattern =? name)%string.
Proof.
  revert name. induction pattern as [|c p IH]; intros name Hl.
  - now destruct name.
  - assert (Hc : literalByte c = true /\ literal p = true)
      by (cbn [literal] in Hl; apply andb_true_iff in Hl; tauto).
    destruct Hc as [Hc Hp].
    destruct name as [|d name'].
    + now rewrite (Match_literal_mismatch c p EmptyString Hl I).
    + destruct (ascii_dec c d) as [<- | Hne].
      * rewrite (MatchFacts.Match_literal_same c p name' Hc), (IH name' Hp).
        cbn [String.eqb]. now rewrite Ascii.eqb_refl.
      * rewrite (Match_literal_mismatch c p (String d name') Hl Hne).
        cbn [String.eqb]. apply Ascii.eqb_neq in Hne. now rewrite Hne.
Qed.

End LiteralPatterns.

(* ================================================================== *)
(** * What the two filters select *)

Section Selection.
Context {Ctx Client ListerData : Type}.
#[local] Abbreviation Resource := (Resource Ctx Client ListerData).

Lemma matchesAnyType_verdict (included : list string) (r : Resource) (b : bool) :
  matchesAnyType (map typePart included) (Name r) = Ok b ->
  b = existsb (matchesType r) included.
Proof.
  induction included as [|i rest IH]; cbn [map matchesAnyType existsb].
  - now intros [= <-].
  - unfold matchesType at 1.
    destruct (filepath.Match (typePart i) (Name r)) as [[|]|e];
      cbn [orb]; [now intros [= <-] | exact IH | discriminate].
Qed.

Lemma selects_verdict (included : list string) (r : Resource) :
  rejects (map typePart included) r = false ->
  selects (map typePart included) r = existsb (matchesType r) included.
Proof.
  unfold rejects, selects.
  destruct (matchesAnyType (map typePart included) (Name r)) as [b|e] eqn:Hm;
    [|discriminate].
  intros _. rewrite <- (matchesAnyType_verdict included r b Hm). now destruct b.
Qed.

Lemma filterResources_run (resources : list Resource) (i : string)
      (rest : list string) :
  filterResources resources (i :: rest) =
  match allowedTypes (i :: rest) [] with
  | Err e => Err e
  | Ok allowed =>
      if existsb (rejects allowed) resources then Err ErrBadPattern
      else Ok (filter (selects allowed) resources)
  end.
Proof.
  unfold filterResources. destruct (allowedTypes (i :: rest) []); [|reflexivity].
  now rewrite keepMatching_spec.
Qed.

Lemma no_reject_in (allowed : list string) (resources : list Resource)
      (r : Resource) :
  existsb (rejects allowed) resources = false -> In r resources ->
  rejects allowed r = false.
Proof.
  intros Hex Hin. destruct (rejects allowed r) eqn:Hr; [|reflexivity].
  assert (Ht : existsb (rejects allowed) resources = true)
    by (apply existsb_exists; now exists r).
  congruence.
Qed.

Lemma same_verdicts (keep keep' : Resource -> bool) (resources : list Resource) :
  (forall r, In r resources -> keep r = keep' r) ->
  filter keep resources = filter keep' resources.
Proof.
  induction resources as [|r resources IH]; intros H; [reflexivity|].
  cbn [filter]. rewrite (H r (or_introl eq_refl)), IH; [reflexivity|].
  intros r' Hr'. apply H. now right.
Qed.

Lemma filterResources_verdicts
      (resources selected : list Resource) (includedResources : list string) :
  includedResources <> [] ->
  filterResources resources includedResources = Ok selected ->
  Forall (fun included => hasDot included = true) includedResources /\
  existsb (rejects (map typePart includedResources)) resources = false /\
  selected = filter (selects (map typePart includedResources)) resources.
Proof.
  intros Hne Hf. destruct includedResources as [|i rest]; [congruence|].
  rewrite filterResources_run in Hf.
  destruct (allowedTypes_inv (i :: rest) [])
    as [(bad & _ & _ & Hbad) | (Hall & Hok)]; [now rewrite Hbad in Hf|].
  rewrite Hok in Hf. cbn [app] in Hf.
  destruct (existsb (rejects (map typePart (i :: rest))) resources) eqn:Hrej;
    [discriminate|].
  injection Hf as <-. auto.
Qed.

(** With a filter list that is not empty and is accepted,
    [filterResources] keeps, in the order of the catalog, the resources
    whose name is matched by the type part of some entry (the text of
    the entry up to its first dot), and every entry has a dot. *)
Theorem filterResources_keeps_matching_types
        (resources selected : list Resource) (includedResources : list string) :
  includedResources <> [] ->
  filterResources resources includedResources = Ok selected ->
  Forall (fun included => hasDot included = true) includedResources /\
  selected =
  filter (fun r => existsb (matchesType r) includedResources) resources.
Proof.
  intros Hne Hf.
  destruct (filterResources_verdicts resources selected includedResources Hne Hf)
    as (Hall & Hrej & ->).
  split; [exact Hall|].
  apply same_verdicts. intros r Hr.
  apply selects_verdict. now apply (no_reject_in _ resources).
Qed.

(** Filtering what [filterResources] has selected, with the same filter
    list, changes nothing and raises no error. *)
Theorem filterResources_is_idempotent
        (resources selected : list Resource) (includedResources : list string) :
  filterResources resources includedResources = Ok selected ->
  filterResources selected includedResources = Ok selected.
Proof.
  destruct includedResources as [|i rest]; [reflexivity|].
  rewrite !filterResources_run.
  destruct (allowedTypes (i :: rest) []) as [allowed|e]; [|discriminate].
  destruct (existsb (rejects allowed) resources) eqn:Hrej; [discriminate|].
  intros [= <-].
  assert (Hnone : existsb (rejects allowed) (filter (selects allowed) resources)
                  = false).
  { destruct (existsb (rejects allowed) (filter (selects allowed) resources))
      eqn:Hex; [|reflexivity].
    apply existsb_exists in Hex. destruct Hex as (r & Hr & Hrr).
    apply filter_In in Hr.
    now rewrite (no_reject_in allowed resources r Hrej (proj1 Hr)) in Hrr. }
  rewrite Hnone. f_equal.
  clear. induction resources as [|r resources IH]; [reflexivity|].
  cbn [filter]. destruct (selects allowed r) eqn:Hs; [|exact IH].
  cbn [filter]. now rewrite Hs, IH.
Qed.

(** [filterResources] reads the type parts of the entries only: two
    filter lists whose entries all have a dot and have the same type
    parts give the same result, the same error included, whatever
    stands after the dots. *)
Theorem filterResources_reads_type_parts
        (resources : list Resource) (included1 included2 : list string) :
  Forall (fun included => hasDot included = true) included1 ->
  Forall (fun included => hasDot included = true) included2 ->
  map typePart included1 = map typePart included2 ->
  filterResources resources included1 = filterResources resources included2.
Proof.
  intros H1 H2 Hparts.
  destruct included1 as [|i1 rest1], included2 as [|i2 rest2];
    [reflexivity | discriminate | discriminate |].
  rewrite !filterResources_run.
  destruct (allowedTypes_inv (i1 :: rest1) [])
    as [(bad & Hin & Hbad & _) | (_ & ->)].
  { rewrite Forall_forall in H1. rewrite (H1 bad Hin) in Hbad. discriminate. }
  destruct (allowedTypes_inv (i2 :: rest2) [])
    as [(bad & Hin & Hbad & _) | (_ & ->)].
  { rewrite Forall_forall in H2. rewrite (H2 bad Hin) in Hbad. discriminate. }
  cbn [app]. now rewrite Hparts.
Qed.

Lemma matchesAnyType_joined (allowed1 allowed2 : list string) (name : string) :
  matchesAnyType (allowed1 ++ allowed2) name =
  match matchesAnyType allowed1 name with
  | Ok false => matchesAnyType allowed2 name
  | verdict => verdict
  end.
Proof.
  induction allowed1 as [|a allowed1 IH]; [reflexivity|].
  cbn [app matchesAnyType].
  now destruct (filepath.Match a name) as [[|]|e].
Qed.

(** The resources selected by two filter lists put together are those
    that one of the two lists selects: when each list is accepted, so is
    the joined list, and a resource is kept by it exactly when it is kept
    by one of them. *)
Theorem filterResources_of_joined_lists
        (resources selected1 selected2 : list Resource)
        (included1 included2 : list string) :
  included1 <> [] -> included2 <> [] ->
  filterResources resources included1 = Ok selected1 ->
  filterResources resources included2 = Ok selected2 ->
  exists selected,
    filterResources resources (included1 ++ included2) = Ok selected /\
    forall r, In r selected <-> In r selected1 \/ In r selected2.
Proof.
  intros Hne1 Hne2 Hf1 Hf2.
  destruct (filterResources_verdicts resources selected1 included1 Hne1 Hf1)
    as (Hall1 & Hrej1 & ->).
  destruct (filterResources_verdicts resources selected2 included2 Hne2 Hf2)
    as (Hall2 & Hrej2 & ->).
  assert (Hboth : forall r, In r resources ->
             rejects (map typePart included1 ++ map typePart included2) r = false /\
             selects (map typePart included1 ++ map typePart included2) r =
             selects (map typePart included1) r || selects (map typePart included2) r).
  { intros r Hr.
    pose proof (no_reject_in _ resources r Hrej1 Hr) as Hr1.
    pose proof (no_reject_in _ resources r Hrej2 Hr) as Hr2.
    unfold rejects, selects in *. rewrite matchesAnyType_joined.
    destruct (matchesAnyType (map typePart included1) (Name r)) as [[|]|e1];
      [now split | | discriminate].
    destruct (matchesAnyType (map typePart included2) (Name r)) as [[|]|e2];
      [now split | now split | discriminate]. }
  destruct included1 as [|i1 rest1]; [congruence|].
  change ((i1 :: rest1) ++ included2) with (i1 :: (rest1 ++ included2)).
  rewrite filterResources_run.
  change (i1 :: (rest1 ++ included2)) with ((i1 :: rest1) ++ included2).
  destruct (allowedTypes_inv ((i1 :: rest1) ++ included2) [])
    as [(bad & Hin & Hbad & _) | (_ & ->)].
  { exfalso. apply in_app_or in Hin. rewrite Forall_forall in Hall1, Hall2.
    destruct Hin as [Hin|Hin]; [rewrite (Hall1 bad Hin) in Hbad
                               | rewrite (Hall2 bad Hin) in Hbad]; discriminate. }
  rewrite map_app, app_nil_l.
  assert (Hnone : existsb (rejects (map typePart (i1 :: rest1) ++
                                    map typePart included2)) resources = false).
  { destruct (existsb (rejects (map typePart (i1 :: rest1) ++
                                  map typePart included2)) resources) eqn:Hex;
      [|reflexivity].
    apply existsb_exists in Hex. destruct Hex as (r & Hr & Hrr).
    now rewrite (proj1 (Hboth r Hr)) in Hrr. }
  rewrite Hnone. eexists. split; [reflexivity|].
  intros r. rewrite !filter_In. split.
  - intros [Hr Hs]. rewrite (proj2 (Hboth r Hr)) in Hs.
    apply orb_true_iff in Hs. tauto.
  - intros [[Hr Hs]|[Hr Hs]]; (split; [exact Hr|]);
      rewrite (proj2 (Hboth r Hr)), Hs; [reflexivity | apply orb_true_r].
Qed.

Lemma matchesAny_joined (included1 included2 : list string) (name : string) :
  matchesAny (included1 ++ included2) name =
  match matchesAny included1 name with
  | Ok false => matchesAny included2 name
  | verdict => verdict
  end.
Proof.
  induction included1 as [|i included1 IH]; [reflexivity|].
  cbn [app matchesAny].
  now destruct (filepath.Match i name) as [[|]|e].
Qed.

(** The name filter reads the entries in order and stops at the first
    one that matches or is refused: with two filter lists put together,
    an identifier that the first list keeps is kept, an error that the
    first list raises is raised, and the second list is read only for the
    identifiers that the first one drops. *)
Theorem name_filter_of_joined_lists
        (resourceType resourceName : string) (included1 included2 : list string) :
  included1 <> [] -> included2 <> [] ->
  filterResourceByName resourceType resourceName (included1 ++ included2) =
  match filterResourceByName resourceType resourceName included1 with
  | Ok false => filterResourceByName resourceType resourceName included2
  | verdict => verdict
  end.
Proof.
  intros H1 H2.
  destruct included1 as [|i1 rest1]; [congruence|].
  destruct included2 as [|i2 rest2]; [congruence|].
  unfold filterResourceByName.
  change ((i1 :: rest1) ++ i2 :: rest2) with (i1 :: (rest1 ++ i2 :: rest2)).
  cbv iota.
  change (i1 :: (rest1 ++ i2 :: rest2)) with ((i1 :: rest1) ++ i2 :: rest2).
  apply matchesAny_joined.
Qed.

Lemma literal_typePart (included : string) :
  literal included = true -> literal (typePart included) = true.
Proof.
  unfold typePart. induction included as [|c t IH]; [reflexivity|].
  cbn [literal SplitFirst]. intros H. apply andb_true_iff in H.
  destruct H as [Hc Ht]. destruct (Ascii.eqb c "."); [reflexivity|].
  cbn [literal]. now rewrite Hc, IH.
Qed.

Lemma matchesAny_literal (included : list string) (name : string) :
  Forall (fun i => literal i = true) included ->
  matchesAny included name = Ok (existsb (fun i => (i =? name)%string) included).
Proof.
  induction 1 as [|i included Hi _ IH]; [reflexivity|].
  cbn [matchesAny existsb]. rewrite (LiteralPatterns.Match_literal i name Hi).
  destruct (i =? name)%string; [reflexivity | exact IH].
Qed.

(** Entries without glob characters are exact names.  When no entry of
    the filter list has one of the characters [*], [?], [[] and [\], no
    pattern error can arise: [filterResources] keeps the resources whose
    name is the type part of an entry, and the name filter keeps an
    identifier exactly when the text [<type>.<name>] is an entry. *)
Theorem entries_without_globs_are_exact_names
        (resources : list Resource) (includedResources : list string)
        (resourceType resourceName : string) :
  includedResources <> [] ->
  Forall (fun included => hasDot included = true) includedResources ->
  Forall (fun included => literal included = true) includedResources ->
  filterResources resources includedResources =
  Ok (filter (fun r => existsb (fun included =>
                                  (typePart included =? Name r)%string)
                               includedResources) resources) /\
  filterResourceByName resourceType resourceName includedResources =
  Ok (existsb (fun included =>
                 (included =? resourceType ++ "." ++ resourceName)%string)
              includedResources).
Proof.
  intros Hne Hdots Hlit.
  destruct includedResources as [|i rest]; [congruence|].
  split.
  - rewrite filterResources_run.
    destruct (allowedTypes_inv (i :: rest) [])
      as [(bad & Hin & Hbad & _) | (_ & ->)].
    { rewrite Forall_forall in Hdots. rewrite (Hdots bad Hin) in Hbad.
      discriminate. }
    rewrite app_nil_l.
    assert (Hv : forall r : Resource,
               matchesAnyType (map typePart (i :: rest)) (Name r) =
               Ok (existsb (fun included => (typePart included =? Name r)%string)
                           (i :: rest))).
    { intros r. clear Hne Hdots.
      induction Hlit as [|j included Hj _ IH]; [reflexivity|].
      cbn [map matchesAnyType existsb].
      rewrite (LiteralPatterns.Match_literal _ (Name r) (literal_typePart j Hj)).
      destruct (typePart j =? Name r)%string; [reflexivity | exact IH]. }
    assert (Hnone : existsb (rejects (map typePart (i :: rest))) resources = false).
    { destruct (existsb (rejects (map typePart (i :: rest))) resources) eqn:Hex;
        [|reflexivity].
      apply existsb_exists in Hex. destruct Hex as (r & _ & Hrr).
      unfold rejects in Hrr. now rewrite Hv in Hrr. }
    rewrite Hnone. f_equal. apply same_verdicts. intros r _.
    unfold selects. rewrite Hv.
    now destruct (existsb _ (i :: rest)).
  - unfold filterResourceByName. now apply matchesAny_literal.
Qed.

End Selection.

(* ================================================================== *)
(** * The errors that are returned *)

Section Errors.
Context {Ctx Client ListerData CloudConfig : Type}.
#[local] Abbreviation Resource := (Resource Ctx Client ListerData).
#[local] Abbreviation taskResult := (taskResult Ctx Client ListerData).

Variable world : World CloudConfig.
Variable filepath_Join : list string -> string.

Lemma failsOnly_ret {A : Type} (a : A) (h : history) (P : error -> Prop) :
  failsOnly (ret a) h P.
Proof. intros h' e H. discriminate H. Qed.

Lemma failsOnly_check (wrap : error -> error) (o : option error) (h : history)
      (P : error -> Prop) :
  (forall e, o = Some e -> P (wrap e)) -> failsOnly (check wrap o) h P.
Proof.
  intros Hw h' e H. destruct o as [e0|]; [|discriminate H].
  injection H as _ <-. now apply Hw.
Qed.

Lemma failsOnly_bind {A B : Type} (m : M A) (k : A -> M B) (h : history)
      (P : error -> Prop) :
  failsOnly m h P -> (forall a h1, failsOnly (k a) h1 P) ->
  failsOnly (bind m k) h P.
Proof.
  intros Hm Hk h' e. unfold bind.
  destruct (m h) as [h1 [a|e1]] eqn:Hmh.
  - apply Hk.
  - intros [= _ <-]. now apply (Hm h1).
Qed.

Lemma failsOnly_perform_bind {A B : Type} (c : call) (answer : history -> A)
      (k : A -> M B) (h : history) (P : error -> Prop) :
  failsOnly (k (answer h)) (h ++ [c]) P ->
  failsOnly (bind (perform c answer) k) h P.
Proof. intros Hk h' e. rewrite bind_perform_eq. apply Hk. Qed.

Lemma failsOnly_check_bind {B : Type} (wrap : error -> error) (o : option error)
      (k : unit -> M B) (h : history) (P : error -> Prop) :
  (forall e, o = Some e -> P (wrap e)) -> failsOnly (k tt) h P ->
  failsOnly (bind (check wrap o) k) h P.
Proof.
  intros Hw Hk h' e. unfold bind. destruct o as [e0|]; cbn [check fail ret].
  - intros [= _ <-]. now apply Hw.
  - apply Hk.
Qed.

Lemma failsOnly_assoc {A B C : Type} (m : M A) (f : A -> M B) (g : B -> M C)
      (h : history) (P : error -> Prop) :
  failsOnly (bind m (fun a => bind (f a) g)) h P ->
  failsOnly (bind (bind m f) g) h P.
Proof.
  intros H h' e He. apply (H h'). revert He. unfold bind.
  destruct (m h) as [h1 [a|e1]]; [|auto].
  destruct (f a h1) as [h2 [b|e2]]; auto.
Qed.

Section OfGenerate.
Variables (ctx : Ctx) (cfg : Config CloudConfig).
#[local] Abbreviation dir := (OutputDir cfg).
#[local] Abbreviation GenerateError := (GenerateError world filepath_Join cfg).

Lemma pass_errors_of_Generate (auth url stackName : string) (genProvider : bool)
      (smURL smToken : string) (h : history) :
  failsOnly (grafanaPass world auth url stackName genProvider dir smURL smToken
                         (IncludeResources cfg)) h GenerateError.
Proof.
  unfold grafanaPass. apply failsOnly_perform_bind, failsOnly_check.
  intros e He. exact (passFailed world filepath_Join cfg h auth url stackName
                        genProvider smURL smToken e He).
Qed.

Lemma stack_errors_of_Generate (stacks : list stack) (h : history) :
  failsOnly (forEach (fun stack =>
                        grafanaPass world (managementKey stack) (url stack)
                                    ("stack-" ++ slug stack) false dir
                                    (smURL stack) (smToken stack)
                                    (IncludeResources cfg)) stacks) h
            GenerateError.
Proof.
  revert h. induction stacks as [|s stacks IH]; intros h; cbn [forEach].
  - apply failsOnly_ret.
  - apply failsOnly_bind; [apply pass_errors_of_Generate | intros _ h1; apply IH].
Qed.

Lemma passes_errors_of_Generate (h : history) :
  failsOnly
    (bind (match Cloud cfg with
           | Some _ =>
               bind (bind (perform call_generateCloudResources
                                   (fun h => generateCloudResources world h cfg))
                          liftResult)
                    (fun stacks =>
                       forEach (fun stack =>
                                  grafanaPass world (managementKey stack) (url stack)
                                              ("stack-" ++ slug stack) false dir
                                              (smURL stack) (smToken stack)
                                              (IncludeResources cfg)) stacks)
           | None => ret tt
           end)
          (fun _ =>
             bind (match Grafana cfg with
                   | Some grafana =>
                       grafanaPass world (Auth grafana) (URL grafana) EmptyString
                                   true dir EmptyString EmptyString
                                   (IncludeResources cfg)
                   | None => ret tt
                   end)
                  (fun _ =>
                     match Format cfg with
                     | OutputFormatJSON =>
                         bind (perform (call_convertToTFJSON dir)
                                       (fun h => convertToTFJSON world h dir))
                              (fun err => check (fun e => e) err)
                     | OutputFormatCrossplane => fail ErrCrossplane
                     | OutputFormatHCL => ret tt
                     end))) h GenerateError.
Proof.
  apply failsOnly_bind.
  - destruct (Cloud cfg) as [c|] eqn:Hc; [|apply failsOnly_ret].
    apply failsOnly_assoc, failsOnly_perform_bind.
    destruct (generateCloudResources world h cfg) as [stacks|e] eqn:Hd;
      cbn [liftResult].
    + intros h' e. unfold bind, ret. apply stack_errors_of_Generate.
    + intros h' e' [= _ <-].
      apply (discoveryFailed world filepath_Join cfg h e); congruence.
  - intros _ h1. apply failsOnly_bind.
    + destruct (Grafana cfg); [apply pass_errors_of_Generate | apply failsOnly_ret].
    + intros _ h2. destruct (Format cfg) eqn:Hfmt.
      * apply failsOnly_ret.
      * apply failsOnly_perform_bind, failsOnly_check. intros e He.
        exact (conversionFailed world filepath_Join cfg _ e Hfmt He).
      * intros h' e [= _ <-]. now apply formatRefused.
Qed.

(** Every error [Generate] returns comes from one of its steps: the
    refusal to touch an existing directory, a failed step of the set-up
    wrapped as that step wraps it, an error of the discovery of the
    stacks, of a pass or of the conversion, returned as it is, or the
    refusal of the crossplane format. *)
Theorem Generate_errors (h h' : history) (e : error) :
  Generate world filepath_Join ctx cfg h = (h', Err e) -> GenerateError e.
Proof.
  revert h' e. change (failsOnly (Generate world filepath_Join ctx cfg) h GenerateError).
  assert (Hrest : forall (k : M unit) h1,
             (forall h2, failsOnly k h2 GenerateError) ->
             failsOnly
               (bind (perform (call_MkdirAll dir perm0755)
                              (fun h => os_MkdirAll world h dir perm0755))
                     (fun err =>
                        bind (check (ErrFailedToCreate dir) err)
                             (fun _ =>
                                bind (perform
                                        (call_writeBlocks
                                           (filepath_Join [dir; "provider.tf"])
                                           [providerBlockOf cfg])
                                        (fun h => writeBlocks world h
                                                    (filepath_Join [dir; "provider.tf"])
                                                    [providerBlockOf cfg]))
                                     (fun err =>
                                        bind (check ErrFatal err)
                                             (fun _ =>
                                                bind (perform
                                                        (call_runTerraform dir ["init"])
                                                        (fun h => runTerraform world h dir
                                                                    ["init"]))
                                                     (fun err =>
                                                        bind (check ErrTerraformInit err)
                                                             (fun _ => k)))))))
               h1 GenerateError).
  { intros k h1 Hk.
    apply failsOnly_perform_bind, failsOnly_check_bind.
    { intros e He. exact (directoryNotCreated world filepath_Join cfg _ e He). }
    apply failsOnly_perform_bind, failsOnly_check_bind.
    { intros e He. exact (providerNotWritten world filepath_Join cfg _ e He). }
    apply failsOnly_perform_bind, failsOnly_check_bind.
    { intros e He. exact (initFailed world filepath_Join cfg _ e He). }
    apply Hk. }
  unfold Generate. apply failsOnly_perform_bind.
  destruct (os_Stat world h dir) as [e0|] eqn:Hstat.
  - intros h' e. unfold bind at 1. unfold ret at 1.
    apply Hrest. exact passes_errors_of_Generate.
  - destruct (Clobber cfg) eqn:Hclobber.
    + apply failsOnly_assoc, failsOnly_perform_bind, failsOnly_check_bind.
      { intros e He. exact (directoryNotDeleted world filepath_Join cfg _ e He). }
      apply Hrest. exact passes_errors_of_Generate.
    + intros h' e [= _ <-].
      exact (directoryInTheWay world filepath_Join cfg h Hstat Hclobber).
Qed.

End OfGenerate.

Section OfAPass.
Variable arrival : list taskResult -> list taskResult.
Variables (ctx : Ctx) (client : Client) (listerData : ListerData).
Variables (outPath provider : string) (includedResources : list string).
#[local] Abbreviation outcome :=
  (outcome ctx client listerData provider includedResources).
#[local] Abbreviation PassError :=
  (PassError world filepath_Join ctx client listerData outPath provider
             includedResources).

Lemma importBlocks_refused (name : string) (ids : list string)
      (acc : list Block) (e : error) :
  importBlocks name provider includedResources ids acc = Err e ->
  e = ErrBadPattern /\
  exists id, In id ids /\
             filterResourceByName name (cleanID provider id) includedResources =
             Err ErrBadPattern.
Proof.
  revert acc. induction ids as [|id ids IH]; intros acc; cbn [importBlocks];
    [discriminate|].
  cbv zeta.
  destruct (filterResourceByName name (cleanID provider id) includedResources)
    as [[|]|e0] eqn:Hf.
  - intros H. destruct (IH _ H) as (-> & id' & Hin & Hid).
    split; [reflexivity|]. exists id'. split; [now right | exact Hid].
  - intros H. destruct (IH _ H) as (-> & id' & Hin & Hid).
    split; [reflexivity|]. exists id'. split; [now right | exact Hid].
  - intros [= <-]. pose proof (filterResourceByName_err _ _ _ _ Hf) as ->.
    split; [reflexivity|]. exists id. split; [now left | exact Hf].
Qed.

(** Every error a pass returns comes from one of its steps: the refusal
    of the filter list by [filterResources], returned as it is; the error
    of a lister of the catalog, or the refusal of an entry by the name
    filter on an identifier that a lister returned, both wrapped with the
    name of the resource; a failed write of the imports file or a failed
    sort of the resources file, returned as they are; a failure of the
    external tool on the plan command, wrapped.  Whatever results are
    received. *)
Theorem pass_errors (resources : list Resource) (h h' : history) (e : error) :
  lossy arrival ->
  generateImportBlocks world filepath_Join arrival ctx client listerData
                       resources outPath provider includedResources h =
  (h', Err e) ->
  PassError resources e.
Proof.
  intros Hperm Hrun.
  destruct (filterResources resources includedResources) as [selected|e0] eqn:Hf.
  - destruct (first_failure (arrival (map outcome selected)))
      as [Hall | (pre & x & e1 & post & Ha & Hpre & Hx)].
    + rewrite (pass_success world filepath_Join arrival ctx client listerData
                 outPath provider includedResources resources selected h Hf Hall)
        in Hrun.
      revert Hrun. unfold materialize. cbv zeta.
      fold (importsFile filepath_Join outPath provider).
      fold (resourcesFile filepath_Join outPath provider).
      fold (planCommand filepath_Join outPath provider).
      rewrite bind_perform_eq.
      destruct (writeBlocks world _ _ _) as [ew|] eqn:Hw.
      { intros [= _ <-]. eapply importsNotWritten. exact Hw. }
      unfold bind at 1. unfold check at 1, ret at 1. rewrite bind_perform_eq.
      destruct (runTerraform world _ _ _) as [et|] eqn:Ht.
      { intros [= _ <-]. eapply toolFailed. exact Ht. }
      unfold bind at 1. unfold check at 1, ret at 1. rewrite bind_perform_eq.
      destruct (sortResourcesFile world _ _) as [es|] eqn:Hs; [|discriminate].
      intros [= _ <-]. eapply resourcesNotSorted. exact Hs.
    + rewrite (pass_task_error world filepath_Join arrival ctx client listerData
                 outPath provider includedResources resources selected
                 pre post x e1 h Hf Ha Hpre Hx) in Hrun.
      injection Hrun as _ <-.
      assert (Hin : In x (map outcome selected)).
      { apply (received_was_sent arrival _ x Hperm). rewrite Ha. apply in_elt. }
      apply in_map_iff in Hin. destruct Hin as (r & <- & Hr).
      rewrite (filterResources_ok _ _ _ Hf) in Hr.
      apply filter_In in Hr. destruct Hr as [Hr _].
      rewrite (outcome_resource ctx client listerData provider includedResources r).
      revert Hx. unfold outcome.
      destruct (ListIDsFunc r) as [lister|] eqn:Hl; [|discriminate].
      destruct (lister ctx client listerData) as [ids|el] eqn:Hids.
      * destruct (importBlocks (Name r) provider includedResources ids [])
          as [bs|eb] eqn:Hbs; [discriminate|].
        intros [= <-].
        destruct (importBlocks_refused _ _ _ _ Hbs) as (-> & id & Hid & Hrefused).
        exact (nameFilterRefused world filepath_Join ctx client listerData outPath
                 provider includedResources resources r lister ids id
                 Hr Hl Hids Hid Hrefused).
      * intros [= <-].
        exact (listerFailed world filepath_Join ctx client listerData outPath
                 provider includedResources resources r lister el Hr Hl Hids).
  - rewrite (pass_filter_error world filepath_Join arrival ctx client listerData
               outPath provider includedResources resources e0 h Hf) in Hrun.
    injection Hrun as _ <-. now apply filterRefused.
Qed.

End OfAPass.

End Errors.

(* ================================================================== *)
(** * The further properties on the fixtures *)

Module MoreOnFixtures.
Import Fixture.

(** A run on a disk where the output directory exists, with the clobber
    flag set and a single instance to process. *)
Lemma Generate_on_success_witness :
  os_Stat (diskWorld true) [] "out" = None /\
  Generate (diskWorld true) joinPath tt (config true) [] =
  ([call_Stat "out"; call_RemoveAll "out"; call_MkdirAll "out" perm0755;
    call_writeBlocks "out/provider.tf" [providerBlockOf (config true)];
    call_runTerraform "out" ["init"];
    call_generateGrafanaResources "token" "http://localhost:3000" "" true "out"
                                  "" "" []],
   Ok tt).
Proof.
  split; [reflexivity|].
  exact (Generate_on_success (diskWorld true) joinPath tt (config true) [] []
           (fun _ => eq_refl) (fun _ => eq_refl) (fun _ => eq_refl)
           (fun _ _ _ => eq_refl) (fun _ _ _ => eq_refl) (fun _ => eq_refl)
           (fun _ _ _ _ _ _ _ _ _ => eq_refl) (fun _ => eq_refl)).
Defined.

(** The directory is removed and cannot be created again. *)
Lemma Generate_setup_failures_witness :
  os_Stat fullDiskWorld [] "out" = None /\
  Clobber (config true) = true /\
  os_RemoveAll fullDiskWorld [call_Stat "out"] "out" = None /\
  Generate fullDiskWorld joinPath tt (config true) [] =
  ([call_Stat "out"; call_RemoveAll "out"; call_MkdirAll "out" perm0755],
   Err (ErrFailedToCreate "out" (errorString "no space left on device"))).
Proof.
  pose proof (Generate_setup_failures fullDiskWorld joinPath tt (config true) [])
    as H.
  cbv zeta in H.
  split; [reflexivity|]. split; [reflexivity|]. split; [reflexivity|].
  exact (proj1 (H (fun _ => conj eq_refl eq_refl)) _ eq_refl).
Defined.

(** A fleet of three stacks whose second pass fails: the third stack and
    the single instance are not processed, nothing is converted. *)
Lemma failing_stack_witness :
  Cloud cloudConfig <> None /\
  generateCloudResources cloudWorld [] cloudConfig =
  Ok ([stackOne] ++ stackTwo :: [stackThree]) /\
  Generate cloudWorld joinPath tt cloudConfig [] =
  ([call_Stat "out"; call_RemoveAll "out"; call_MkdirAll "out" perm0755;
    call_writeBlocks "out/provider.tf" [providerBlockOf cloudConfig];
    call_runTerraform "out" ["init"];
    call_generateCloudResources;
    stackPassCall cloudConfig stackOne;
    stackPassCall cloudConfig stackTwo],
   Err (errorString "stack two is unreachable")).
Proof.
  assert (Hcloud : Cloud cloudConfig <> None) by discriminate.
  split; [exact Hcloud|]. split; [reflexivity|].
  refine (failing_stack_stops_the_run cloudWorld joinPath tt cloudConfig
            [stackOne] [stackThree] stackTwo
            (errorString "stack two is unreachable") []
            (fun _ => eq_refl) (fun _ => eq_refl) (fun _ => eq_refl)
            (fun _ _ _ => eq_refl) (fun _ _ _ => eq_refl) Hcloud
            (fun _ => eq_refl) _ (fun _ => eq_refl)).
  intros h' s' [<- | []]. reflexivity.
Defined.


(** The first block of the scenario comes from the identifier ["abc"] of
    the lister of [dashboard]. *)
Lemma written_blocks_come_from_listers_witness :
  lossy inOrder /\
  exists r lister ids id,
    In r catalog /\ selectedBy [] r = true /\
    ListIDsFunc r = Some lister /\ lister tt tt tt = Ok ids /\
    In id ids /\
    filterResourceByName (Name r) (cleanID "" id) [] = Ok true /\
    importBlock "dashboard" "_abc" "abc" "" =
    importBlock (Name r) (cleanID "" id) id "" /\
    blockType (importBlock "dashboard" "_abc" "abc" "") = "import" /\
    importTo (importBlock "dashboard" "_abc" "abc" "") =
    Some (Name r ++ "." ++ cleanID "" id)%string /\
    importID (importBlock "dashboard" "_abc" "abc" "") = Some id /\
    GetAttribute "provider" (importBlock "dashboard" "_abc" "abc" "") =
    (if ("" =? "")%string then None else Some (traversal "grafana" [""])).
Proof.
  split; [exact OnFixtures.inOrder_lossy|].
  exact (proj2 (written_blocks_come_from_listers
                  quietWorld joinPath inOrder tt tt tt "out" "" [] catalog []
                  [call_ListIDs "dashboard"; call_ListIDs "folder";
                   call_writeBlocks "out/imports.tf"
                     [importBlock "dashboard" "_abc" "abc" "";
                      importBlock "folder" "_xyz" "xyz" ""];
                   call_runTerraform "out"
                     ["plan"; "-generate-config-out=out/resources.tf"];
                   call_sortResourcesFile "out/resources.tf"]
                  "out/imports.tf"
                  [importBlock "dashboard" "_abc" "abc" "";
                   importBlock "folder" "_xyz" "xyz" ""]
                  (importBlock "dashboard" "_abc" "abc" "")
                  OnFixtures.inOrder_lossy eq_refl
                  (or_introl eq_refl) (or_introl eq_refl))).
Defined.

(** An identifier with a slash, under the alias of a stack. *)
Lemma local_names_witness :
  Forall_bytes allowedByte "stack-one" = true /\
  exists localName,
    importTo (importBlock "dashboard" "stack_one_d_e" "d/e" "stack-one") =
    Some ("dashboard" ++ "." ++ localName)%string /\
    Forall_bytes allowedByte localName = true.
Proof.
  split; [reflexivity|].
  exact (local_names_use_allowed_bytes tt tt tt "stack-one" []
           (mkResource "dashboard" (Some (listing ["abc"; "d/e"])))
           (importBlock "dashboard" "stack_one_d_e" "d/e" "stack-one")
           eq_refl (or_intror (or_introl eq_refl))).
Defined.

(** The catalog with a resource that has no lister, and the same catalog
    without it, the results arriving in the reverse of the starting
    order. *)
Lemma resources_without_lister_witness :
  lossy reversed /\
  NoDup (map Name mixedCatalog) /\
  filterResources mixedCatalog [] = Ok mixedCatalog /\
  reversed (map (outcome tt tt tt "" []) (filter hasLister mixedCatalog)) =
  filter (fun t => hasLister (resource t))
         (reversed (map (outcome tt tt tt "" []) mixedCatalog)) /\
  generateImportBlocks quietWorld joinPath reversed tt tt tt
                       mixedCatalog "out" "" [] [] =
  generateImportBlocks quietWorld joinPath reversed tt tt tt
                       (filter hasLister mixedCatalog) "out" "" [] [].
Proof.
  assert (Hnd : NoDup (map Name mixedCatalog)).
  { cbn. repeat constructor; cbn; intuition discriminate. }
  assert (Hlossy : lossy reversed).
  { intros l. exists []. rewrite app_nil_r. apply Permutation_rev. }
  split; [exact Hlossy|]. split; [exact Hnd|]. split; [reflexivity|].
  split; [reflexivity|].
  exact (proj2 (resources_without_lister_are_skipped
                  quietWorld joinPath tt tt tt "out" "" [] reversed reversed
                  mixedCatalog mixedCatalog [] Hlossy Hnd eq_refl eq_refl)).
Defined.

(** The entry ["dash*.*"] on the scenario catalog. *)
Lemma filterResources_keeps_matching_types_witness :
  ["dash*.*"] <> [] /\
  filterResources catalog ["dash*.*"] =
  Ok [mkResource "dashboard" (Some (listing ["abc"]))] /\
  [mkResource "dashboard" (Some (listing ["abc"]))] =
  filter (fun r => existsb (matchesType r) ["dash*.*"]) catalog.
Proof.
  assert (Hne : ["dash*.*"] <> []) by discriminate.
  split; [exact Hne|]. split; [reflexivity|].
  exact (proj2 (filterResources_keeps_matching_types
                  catalog [mkResource "dashboard" (Some (listing ["abc"]))]
                  ["dash*.*"] Hne eq_refl)).
Defined.

Lemma filterResources_is_idempotent_witness :
  filterResources catalog ["dash*.*"] =
  Ok [mkResource "dashboard" (Some (listing ["abc"]))] /\
  filterResources [mkResource "dashboard" (Some (listing ["abc"]))] ["dash*.*"] =
  Ok [mkResource "dashboard" (Some (listing ["abc"]))].
Proof.
  split; [reflexivity|].
  exact (filterResources_is_idempotent
           catalog [mkResource "dashboard" (Some (listing ["abc"]))]
           ["dash*.*"] eq_refl).
Defined.

(** Two entries with the same type part, the second with a name part
    that is not a pattern. *)
Lemma filterResources_reads_type_parts_witness :
  Forall (fun included => hasDot included = true) ["dashboard.*"] /\
  Forall (fun included => hasDot included = true) ["dashboard.["] /\
  map typePart ["dashboard.*"] = map typePart ["dashboard.["] /\
  filterResources catalog ["dashboard.*"] = filterResources catalog ["dashboard.["].
Proof.
  assert (H1 : Forall (fun included => hasDot included = true) ["dashboard.*"])
    by (repeat constructor).
  assert (H2 : Forall (fun included => hasDot included = true) ["dashboard.["])
    by (repeat constructor).
  split; [exact H1|]. split; [exact H2|]. split; [reflexivity|].
  exact (filterResources_reads_type_parts catalog ["dashboard.*"] ["dashboard.["]
           H1 H2 eq_refl).
Defined.

Lemma filterResources_of_joined_lists_witness :
  filterResources mixedCatalog ["dash*.*"] =
  Ok [mkResource "dashboard" (Some (listing ["abc"; "d/e"]))] /\
  filterResources mixedCatalog ["annotation.x"] =
  Ok [mkResource "annotation" None] /\
  exists selected,
    filterResources mixedCatalog (["dash*.*"] ++ ["annotation.x"]) = Ok selected /\
    forall r : R,
      In r selected <->
      In r [mkResource "dashboard" (Some (listing ["abc"; "d/e"]))] \/
      In r [mkResource "annotation" None].
Proof.
  split; [reflexivity|]. split; [reflexivity|].
  refine (filterResources_of_joined_lists
            mixedCatalog [mkResource "dashboard" (Some (listing ["abc"; "d/e"]))]
            [mkResource "annotation" None] ["dash*.*"] ["annotation.x"]
            _ _ eq_refl eq_refl); discriminate.
Defined.

Lemma name_filter_of_joined_lists_witness :
  filterResourceByName "dashboard" "_abc" ["folder.*"] = Ok false /\
  filterResourceByName "dashboard" "_abc" (["folder.*"] ++ ["dashboard._a*"]) =
  match filterResourceByName "dashboard" "_abc" ["folder.*"] with
  | Ok false => filterResourceByName "dashboard" "_abc" ["dashboard._a*"]
  | verdict => verdict
  end.
Proof.
  split; [reflexivity|].
  refine (name_filter_of_joined_lists "dashboard" "_abc" ["folder.*"]
            ["dashboard._a*"] _ _); discriminate.
Defined.

Lemma entries_without_globs_witness :
  Forall (fun included => hasDot included = true) ["folder._xyz"; "team.a-b"] /\
  Forall (fun included => literal included = true) ["folder._xyz"; "team.a-b"] /\
  filterResources catalog ["folder._xyz"; "team.a-b"] =
  Ok (filter (fun r => existsb (fun included =>
                                  (typePart included =? Name r)%string)
                               ["folder._xyz"; "team.a-b"]) catalog) /\
  filterResourceByName "folder" "_xyz" ["folder._xyz"; "team.a-b"] =
  Ok (existsb (fun included => (included =? "folder" ++ "." ++ "_xyz")%string)
              ["folder._xyz"; "team.a-b"]).
Proof.
  assert (H1 : Forall (fun included => hasDot included = true)
                      ["folder._xyz"; "team.a-b"]) by (repeat constructor).
  assert (H2 : Forall (fun included => literal included = true)
                      ["folder._xyz"; "team.a-b"]) by (repeat constructor).
  split; [exact H1|]. split; [exact H2|].
  refine (entries_without_globs_are_exact_names
            catalog ["folder._xyz"; "team.a-b"] "folder" "_xyz" _ H1 H2).
  discriminate.
Defined.

(** The error of the fleet whose second pass fails is the error that
    this pass answered. *)
Lemma Generate_errors_witness :
  Generate cloudWorld joinPath tt cloudConfig [] =
  (fst (Generate cloudWorld joinPath tt cloudConfig []),
   Err (errorString "stack two is unreachable")) /\
  GenerateError cloudWorld joinPath cloudConfig
                (errorString "stack two is unreachable").
Proof.
  split; [reflexivity|].
  exact (Generate_errors cloudWorld joinPath tt cloudConfig []
           (fst (Generate cloudWorld joinPath tt cloudConfig []))
           (errorString "stack two is unreachable") eq_refl).
Defined.

(** The error of a pass over the catalog whose listers fail. *)
Lemma pass_errors_witness :
  lossy inOrder /\
  generateImportBlocks quietWorld joinPath inOrder tt tt tt
                       brokenCatalog "out" "" [] [] =
  ([call_ListIDs "dashboard"; call_ListIDs "folder"],
   Err (ErrFailedToGenerate "dashboard" (errorString "dashboard down"))) /\
  PassError quietWorld joinPath tt tt tt "out" "" [] brokenCatalog
            (ErrFailedToGenerate "dashboard" (errorString "dashboard down")).
Proof.
  split; [exact OnFixtures.inOrder_lossy|]. split; [reflexivity|].
  exact (pass_errors quietWorld joinPath inOrder tt tt tt "out" "" []
           brokenCatalog [] [call_ListIDs "dashboard"; call_ListIDs "folder"]
           (ErrFailedToGenerate "dashboard" (errorString "dashboard down"))
           OnFixtures.inOrder_lossy eq_refl).
Defined.

(** A catalog that is not in the order of the names, and its reverse,
    with the results arriving in two different orders. *)
Lemma written_blocks_sorted_witness :
  lossless inOrder /\ lossless reversed /\
  Permutation orderCatalog (rev orderCatalog) /\
  NoDup (map Name orderCatalog) /\
  filterResources orderCatalog [] = Ok orderCatalog /\
  Forall (fun r => err (outcome tt tt tt "" [] r) = None) orderCatalog /\
  map (fun written => map importTo (snd written))
      (writtenBlocks (fst (generateImportBlocks quietWorld joinPath inOrder
                             tt tt tt orderCatalog "out" "" [] []))) =
  [[Some "dashboard._b"; Some "dashboard._a"; Some "dashboard._c";
    Some "folder._xyz"]] /\
  exists ordered,
    Permutation ordered orderCatalog /\
    StronglySorted (fun a b : R => (Name a <? Name b)%string = true) ordered /\
    writtenBlocks (fst (generateImportBlocks quietWorld joinPath inOrder
                          tt tt tt orderCatalog "out" "" [] [])) =
    writtenBlocks [] ++
      [(importsFile joinPath "out" "",
        concat (map (fun r => blocks (outcome tt tt tt "" [] r)) ordered))] /\
    writtenBlocks (fst (generateImportBlocks quietWorld joinPath reversed
                          tt tt tt (rev orderCatalog) "out" "" [] [])) =
    writtenBlocks (fst (generateImportBlocks quietWorld joinPath inOrder
                          tt tt tt orderCatalog "out" "" [] [])).
Proof.
  assert (Hnd : NoDup (map Name orderCatalog)).
  { cbn. repeat constructor; cbn; intuition discriminate. }
  assert (Hall : Forall (fun r => err (outcome tt tt tt "" [] r) = None)
                        orderCatalog) by (repeat constructor).
  split; [exact OnFixtures.inOrder_lossless|].
  split; [exact OnFixtures.reversed_lossless|].
  split; [apply Permutation_rev|]. split; [exact Hnd|]. split; [reflexivity|].
  split; [exact Hall|]. split; [reflexivity|].
  exact (written_blocks_sorted_by_name
           quietWorld joinPath tt tt tt "out" "" [] inOrder reversed
           orderCatalog (rev orderCatalog) orderCatalog []
           OnFixtures.inOrder_lossless OnFixtures.reversed_lossless
           (Permutation_rev orderCatalog) Hnd eq_refl Hall).
Defined.

End MoreOnFixtures.
